(** * CheatNote: record store, snapshot persistence and tag matching

    A shallow embedding of the core of CheatNote (include/cheatnote.h,
    src/utils.c, src/notes_io.c, src/db.c, src/search.c, and the CSV
    export and import of src/commands.c) together with the properties
    stated about it.

    Conventions of the embedding.
    - [char] is [ascii]; a character buffer [char buf[N]] is a
      [list ascii] of length [N]; the C string held by a buffer is its
      prefix up to the first NUL ([cstr]).
    - a [const char *] argument is an [option (list ascii)]: [None] is
      the NULL pointer, [Some s] points at the bytes [s] followed by a
      terminating NUL (reading past [s] yields NUL, see [char_at]).
    - [size_t], [unsigned int] and [time_t] are [Z] with the wrap-around
      of the LP64 little-endian target written out.
    - the global [db] is threaded explicitly; [cn_error_exit] is the
      [Fatal] result; [time(NULL)], the allocator and the I/O layer are
      explicit parameters. *)

From Stdlib Require Import ZArith Lia Ascii String List.
From stdpp Require Import base tactics option list numbers strings gmap.

Local Open Scope Z_scope.

(** ** include/cheatnote.h : limits *)

Definition MAX_TITLE_LEN : Z := 256.
Definition MAX_CONTENT_LEN : Z := 8192.
Definition MAX_TAGS_LEN : Z := 512.
Definition INITIAL_CAPACITY : Z := 64.
Definition GROWTH_FACTOR : Z := 2.
Definition PATH_MAX : Z := 4096.
Definition MAX_NOTES : Z := 1000000.

(** Machine integers of the target (LP64). *)
Definition SIZE_MAX : Z := 2 ^ 64 - 1.
Definition UINT_MAX : Z := 2 ^ 32 - 1.
Definition wrap_size_t (z : Z) : Z := z mod 2 ^ 64.
Definition wrap_uint (z : Z) : Z := z mod 2 ^ 32.

(** ** Characters and C strings *)

Definition NUL : ascii := Ascii.zero.
Definition is_nul (c : ascii) : bool := Ascii.eqb c NUL.
Definition code (c : ascii) : Z := Z.of_N (N_of_ascii c).

(** <ctype.h> in the "C" locale (the program never calls setlocale). *)
Definition isspace (c : ascii) : bool :=
  (code c =? 32) || ((9 <=? code c) && (code c <=? 13)).

Definition tolower (c : ascii) : ascii :=
  if (65 <=? code c) && (code c <=? 90)
  then ascii_of_N (Z.to_N (code c + 32)) else c.

(** [s[i]]; past the end of the list sits the terminator. *)
Definition char_at (s : list ascii) (i : nat) : ascii :=
  match s !! i with
  | Some c => c
  | None => NUL
  end.

Fixpoint strlen (s : list ascii) : nat :=
  match s with
  | [] => O
  | c :: s' => if is_nul c then O else S (strlen s')
  end.

(** The string value of a buffer. *)
Definition cstr (s : list ascii) : list ascii := take (strlen s) s.

Definition lit (s : string) : list ascii := list_ascii_of_string s.

(** ** src/utils.c *)

(** The copy loop of [cn_safe_strncpy]: [dest] is the part of the
    destination from index [i] on, [src] the source from index [i] on,
    [room] is [dest_size - 1 - i].  The loop copies while
    [i + 1 < dest_size && src[i] != 0], then stores the terminator. *)
Fixpoint safe_copy (dest src : list ascii) (room : nat) : list ascii :=
  match dest with
  | [] => []
  | _ :: dest' =>
      match room, src with
      | S room', c :: src' =>
          if is_nul c then NUL :: dest' else c :: safe_copy dest' src' room'
      | _, _ => NUL :: dest'
      end
  end.

Definition cn_safe_strncpy (dest : list ascii) (src : option (list ascii))
    (dest_size : Z) : list ascii :=
  match src with
  | None => dest
  | Some s =>
      if dest_size =? 0 then dest
      else safe_copy dest s (Z.to_nat (dest_size - 1))
  end.

(** [while (len > 0 && isspace(str[len - 1])) str[--len] = 0;] *)
Fixpoint strip_trailing (str : list ascii) (len : nat) : list ascii :=
  match len with
  | O => str
  | S l =>
      if isspace (char_at str l) then strip_trailing (<[l := NUL]> str) l
      else str
  end.

(** [while (str[start] && isspace(str[start])) ++start;] *)
Fixpoint leading_spaces (str : list ascii) : nat :=
  match str with
  | [] => O
  | c :: str' =>
      if negb (is_nul c) && isspace c then S (leading_spaces str') else O
  end.

(** [memmove(str, str + start, n)] *)
Definition memmove_front (str : list ascii) (start n : nat) : list ascii :=
  take n (drop start str) ++ drop n str.

Definition cn_strip_whitespace (str : list ascii) : list ascii :=
  if is_nul (char_at str 0) then str
  else
    let str1 := strip_trailing str (strlen str) in
    let start := leading_spaces str1 in
    if (0 <? start)%nat then
      let remaining := strlen (drop start str1) in
      memmove_front str1 start (S remaining)
    else str1.

(** ** include/cheatnote.h : data structures *)

Record cn_note := mk_note {
  id : Z;                    (* unsigned int *)
  title : list ascii;        (* char[MAX_TITLE_LEN] *)
  content : list ascii;      (* char[MAX_CONTENT_LEN] *)
  tags : list ascii;         (* char[MAX_TAGS_LEN] *)
  created_at : Z;            (* time_t *)
  modified_at : Z            (* time_t *)
}.

Record cn_note_db := mk_db {
  notes : option (list cn_note);   (* cn_note *notes; None is NULL *)
  count : Z;                       (* size_t *)
  capacity : Z;                    (* size_t *)
  next_id : Z                      (* unsigned int *)
}.

(** [sizeof(cn_note)]: 4 + 256 + 8192 + 512 bytes, 4 bytes of padding
    to align the 8-byte [time_t] fields, then 2 * 8 bytes. *)
Definition sizeof_cn_note : Z := 8984.

(** A slot filled with zero bytes (calloc, memset). *)
Definition zero_note : cn_note :=
  {| id := 0;
     title := replicate (Z.to_nat MAX_TITLE_LEN) NUL;
     content := replicate (Z.to_nat MAX_CONTENT_LEN) NUL;
     tags := replicate (Z.to_nat MAX_TAGS_LEN) NUL;
     created_at := 0;
     modified_at := 0 |}.

(** [cn_note_db db = {0};] (src/main.c) *)
Definition db_zero : cn_note_db :=
  {| notes := None; count := 0; capacity := 0; next_id := 0 |}.

Definition set_id (n : cn_note) (v : Z) : cn_note :=
  mk_note v (title n) (content n) (tags n) (created_at n) (modified_at n).
Definition set_title (n : cn_note) (v : list ascii) : cn_note :=
  mk_note (id n) v (content n) (tags n) (created_at n) (modified_at n).
Definition set_content (n : cn_note) (v : list ascii) : cn_note :=
  mk_note (id n) (title n) v (tags n) (created_at n) (modified_at n).
Definition set_tags (n : cn_note) (v : list ascii) : cn_note :=
  mk_note (id n) (title n) (content n) v (created_at n) (modified_at n).
Definition set_created_at (n : cn_note) (v : Z) : cn_note :=
  mk_note (id n) (title n) (content n) (tags n) v (modified_at n).
Definition set_modified_at (n : cn_note) (v : Z) : cn_note :=
  mk_note (id n) (title n) (content n) (tags n) (created_at n) v.

(** The array behind [db.notes] (empty behind NULL) and its live part,
    the first [count] slots; a well-formed store has at least that many
    (see [wf_db]). *)
Definition arr_of (db : cn_note_db) : list cn_note :=
  match notes db with
  | Some arr => arr
  | None => []
  end.
Definition live (db : cn_note_db) : list cn_note :=
  take (Z.to_nat (count db)) (arr_of db).
Definition slot (arr : list cn_note) (i : nat) : cn_note :=
  match arr !! i with
  | Some n => n
  | None => zero_note
  end.

(** Outcome of a call: it returns, or the process ends in
    [cn_error_exit] with a message. *)
Inductive result (A : Type) : Type :=
  | Ok (a : A)
  | Fatal (msg : string).
Arguments Ok {A} a.
Arguments Fatal {A} msg.

(** [for (i = 0; i < db.count; ++i) if (db.notes[i].id == id) ...]:
    the first live index holding [id]. *)
Fixpoint find_id (l : list cn_note) (key : Z) : option nat :=
  match l with
  | [] => None
  | n :: l' => if id n =? key then Some O else S <$> find_id l' key
  end.

Section RecordStore.

(** The allocator: does a request for that many bytes succeed, and
    what a block grown by realloc holds past its old contents. *)
Variable alloc_ok : Z -> bool.
Variable fresh : cn_note.

(** ** src/db.c : cn_db_init *)

Definition cn_db_init (db : cn_note_db) : result cn_note_db :=
  match notes db with
  | Some _ => Ok db
  | None =>
      if alloc_ok (INITIAL_CAPACITY * sizeof_cn_note) then
        Ok {| notes := Some (replicate (Z.to_nat INITIAL_CAPACITY) zero_note);
              count := 0;
              capacity := INITIAL_CAPACITY;
              next_id := 1 |}
      else Fatal "Failed to allocate memory for database"
  end.

(** ** src/notes_io.c *)

Definition ensure_capacity_for_one (db : cn_note_db)
    : result (Z * cn_note_db) :=
  match notes db with
  | None =>
      match cn_db_init db with
      | Ok db' => Ok (1, db')
      | Fatal m => Fatal m
      end
  | Some arr =>
      if count db <? capacity db then Ok (1, db)
      else if capacity db >? SIZE_MAX / GROWTH_FACTOR / sizeof_cn_note
      then Ok (0, db)
      else
        let new_capacity := wrap_size_t (capacity db * GROWTH_FACTOR) in
        let new_capacity :=
          if new_capacity >? MAX_NOTES then MAX_NOTES else new_capacity in
        if new_capacity <=? capacity db then Ok (0, db)
        else if negb (alloc_ok (wrap_size_t (new_capacity * sizeof_cn_note)))
        then Ok (0, db)
        else
          let old_bytes := wrap_size_t (capacity db * sizeof_cn_note) in
          let new_bytes := wrap_size_t (new_capacity * sizeof_cn_note) in
          let added := Z.to_nat (new_capacity - capacity db) in
          let new_notes :=
            if new_bytes >? old_bytes
            then arr ++ replicate added zero_note
            else arr ++ replicate added fresh in
          Ok (1, {| notes := Some new_notes;
                    count := count db;
                    capacity := new_capacity;
                    next_id := next_id db |})
  end.

Definition too_long (s : list ascii) (bound : Z) : bool :=
  Z.of_nat (strlen s) >=? bound.

(** The field writes of [cn_note_add] on the slot [note] it fills:
    the id taken from the counter, the bounded copies, the trimming and
    the two timestamps. *)
Definition write_note (note : cn_note) (nid : Z) (t c : list ascii)
    (tags0 : option (list ascii)) (now : Z) : cn_note :=
  let note := set_id note nid in
  let note :=
    set_title note (cn_safe_strncpy (title note) (Some t) MAX_TITLE_LEN) in
  let note :=
    set_content note
      (cn_safe_strncpy (content note) (Some c) MAX_CONTENT_LEN) in
  let note :=
    match tags0 with
    | Some g =>
        if negb (is_nul (char_at g 0))
        then set_tags note (cn_safe_strncpy (tags note) (Some g) MAX_TAGS_LEN)
        else set_tags note (<[O := NUL]> (tags note))
    | None => set_tags note (<[O := NUL]> (tags note))
    end in
  let note := set_title note (cn_strip_whitespace (title note)) in
  let note := set_content note (cn_strip_whitespace (content note)) in
  let note := set_tags note (cn_strip_whitespace (tags note)) in
  let note := set_created_at note now in
  set_modified_at note now.

Definition cn_note_add (title0 content0 tags0 : option (list ascii))
    (now : Z) (db : cn_note_db) : result (Z * cn_note_db) :=
  match title0, content0 with
  | Some t, Some c =>
      if is_nul (char_at t 0) || is_nul (char_at c 0) then Ok (0, db)
      else if too_long t MAX_TITLE_LEN || too_long c MAX_CONTENT_LEN
      then Ok (0, db)
      else if match tags0 with
              | Some g => too_long g MAX_TAGS_LEN
              | None => false
              end
      then Ok (0, db)
      else if count db >=? MAX_NOTES
      then Fatal "Maximum number of notes reached"
      else
        match ensure_capacity_for_one db with
        | Fatal m => Fatal m
        | Ok (ok, db1) =>
            if ok =? 0 then Fatal "Failed to resize database for new note"
            else
              let i := Z.to_nat (count db1) in
              let note :=
                write_note (slot (arr_of db1) i) (next_id db1) t c tags0 now in
              (* db.next_id++; a wrap to 0 is reset to 1 *)
              let nid := wrap_uint (next_id db1 + 1) in
              let nid := if nid =? 0 then 1 else nid in
              Ok (id note,
                  {| notes := Some (<[i := note]> (arr_of db1));
                     count := wrap_size_t (count db1 + 1);
                     capacity := capacity db1;
                     next_id := nid |})
        end
  | _, _ => Ok (0, db)
  end.

(** The three field updates of [cn_note_edit]; [None] is the
    [return 0] inside the block. *)
Definition edit_title (note : cn_note) (title0 : option (list ascii))
    : option cn_note :=
  match title0 with
  | Some t =>
      if negb (is_nul (char_at t 0)) then
        if too_long t MAX_TITLE_LEN then None
        else Some (set_title note
               (cn_strip_whitespace
                  (cn_safe_strncpy (title note) (Some t) MAX_TITLE_LEN)))
      else Some note
  | None => Some note
  end.

Definition edit_content (note : cn_note) (content0 : option (list ascii))
    : option cn_note :=
  match content0 with
  | Some c =>
      if negb (is_nul (char_at c 0)) then
        if too_long c MAX_CONTENT_LEN then None
        else Some (set_content note
               (cn_strip_whitespace
                  (cn_safe_strncpy (content note) (Some c) MAX_CONTENT_LEN)))
      else Some note
  | None => Some note
  end.

Definition edit_tags (note : cn_note) (tags0 : option (list ascii))
    : option cn_note :=
  match tags0 with
  | Some g =>
      if too_long g MAX_TAGS_LEN then None
      else Some (set_tags note
             (cn_strip_whitespace
                (cn_safe_strncpy (tags note) (Some g) MAX_TAGS_LEN)))
  | None => Some note
  end.

(** The body run on the note found; the note is updated in place, so
    an early [return 0] leaves the updates made before it. *)
Definition edit_found (note : cn_note)
    (title0 content0 tags0 : option (list ascii)) (now : Z) : Z * cn_note :=
  match edit_title note title0 with
  | None => (0, note)
  | Some n1 =>
      match edit_content n1 content0 with
      | None => (0, n1)
      | Some n2 =>
          match edit_tags n2 tags0 with
          | None => (0, n2)
          | Some n3 => (1, set_modified_at n3 now)
          end
      end
  end.

Definition cn_note_edit (key : Z)
    (title0 content0 tags0 : option (list ascii)) (now : Z)
    (db : cn_note_db) : Z * cn_note_db :=
  if key =? 0 then (0, db)
  else
    match find_id (live db) key with
    | None => (0, db)
    | Some i =>
        let (r, note) :=
          edit_found (slot (arr_of db) i) title0 content0 tags0 now in
        (r, {| notes := Some (<[i := note]> (arr_of db));
               count := count db;
               capacity := capacity db;
               next_id := next_id db |})
    end.

Definition cn_note_delete (key : Z) (db : cn_note_db) : Z * cn_note_db :=
  if key =? 0 then (0, db)
  else
    match find_id (live db) key with
    | None => (0, db)
    | Some i =>
        let last := Z.to_nat (wrap_size_t (count db - 1)) in
        let arr := arr_of db in
        let arr1 :=
          if Z.of_nat i <? wrap_size_t (count db - 1)
          then <[i := slot arr last]> arr else arr in
        let arr2 := <[last := zero_note]> arr1 in
        (1, {| notes := Some arr2;
               count := wrap_size_t (count db - 1);
               capacity := capacity db;
               next_id := next_id db |})
    end.

End RecordStore.

(** ** src/search.c : tag matching *)

Definition is_comma (c : ascii) : bool := Ascii.eqb c ","%char.

(** [strtok_r(.., ",", &saveptr)] on the unread rest of the buffer:
    skip commas, then cut the token at the next comma (or at the end);
    the new [saveptr] is what follows that comma. *)
Fixpoint skip_delims (s : list ascii) : list ascii :=
  match s with
  | [] => []
  | c :: s' => if is_comma c then skip_delims s' else s
  end.

Fixpoint scan_token (s : list ascii) : list ascii * list ascii :=
  match s with
  | [] => ([], [])
  | c :: s' =>
      if is_comma c then ([], s')
      else let (tok, rest) := scan_token s' in (c :: tok, rest)
  end.

Definition strtok_r (s : list ascii) : option (list ascii * list ascii) :=
  match skip_delims s with
  | [] => None
  | s1 => Some (scan_token s1)
  end.

(** [strstr(haystack, needle) != NULL] *)
Fixpoint has_prefix (needle s : list ascii) : bool :=
  match needle, s with
  | [], _ => true
  | _ :: _, [] => false
  | c :: needle', d :: s' => Ascii.eqb c d && has_prefix needle' s'
  end.

Fixpoint strstr (haystack needle : list ascii) : bool :=
  has_prefix needle haystack ||
  match haystack with
  | [] => false
  | _ :: haystack' => strstr haystack' needle
  end.

(** The [while (token)] loop; every round consumes part of the buffer,
    [fuel] bounds the number of rounds. *)
Fixpoint match_loop (fuel : nat) (note_copy saveptr : list ascii) : bool :=
  match fuel with
  | O => false
  | S fuel' =>
      match strtok_r saveptr with
      | None => true
      | Some (token, rest) =>
          let token := cstr (cn_strip_whitespace (token ++ [NUL])) in
          if negb (is_nul (char_at token 0)) && negb (strstr note_copy token)
          then false
          else match_loop fuel' note_copy rest
      end
  end.

Section Search.

Variable alloc_ok : Z -> bool.

Definition cn_note_match_tags (note_tags search_tags : option (list ascii))
    : bool :=
  match search_tags with
  | None => true
  | Some s =>
      if is_nul (char_at s 0) then true
      else
        match note_tags with
        | None => false
        | Some n =>
            if is_nul (char_at n 0) then false
            else
              let note_len := Z.of_nat (strlen n) in
              let search_len := Z.of_nat (strlen s) in
              if (note_len >=? MAX_TAGS_LEN) || (search_len >=? MAX_TAGS_LEN)
              then false
              else if negb (alloc_ok (note_len + 1))
                      || negb (alloc_ok (search_len + 1))
              then false
              else
                let note_copy := map tolower (cstr n) in
                let search_copy := map tolower (cstr s) in
                match_loop (S (length search_copy)) note_copy search_copy
        end
  end.

End Search.

(** ** src/db.c : the snapshot file *)

(** Little-endian object representation of integers. *)
Fixpoint le_bytes (n : nat) (z : Z) : list ascii :=
  match n with
  | O => []
  | S n' => ascii_of_N (Z.to_N (z mod 256)) :: le_bytes n' (z / 256)
  end.

Fixpoint le_value (bs : list ascii) : Z :=
  match bs with
  | [] => 0
  | b :: bs' => code b + 256 * le_value bs'
  end.

(** A signed 64-bit [time_t] read from its 8 bytes. *)
Definition le_signed64 (bs : list ascii) : Z :=
  let u := le_value bs in if u <? 2 ^ 63 then u else u - 2 ^ 64.

(** The bytes of one [cn_note] in memory, which [fwrite] sends to the
    file as they are: id, the three buffers, 4 bytes of padding, the two
    timestamps.  No field determines the padding bytes: they are zero
    in a slot that calloc or memset cleared, and the bytes of the file
    in a slot that [fread] filled; [pad] is what they hold, as a
    number. *)
Definition note_bytes (pad : Z) (n : cn_note) : list ascii :=
  le_bytes 4 (id n) ++ title n ++ content n ++ tags n
    ++ le_bytes 4 pad ++ le_bytes 8 (created_at n) ++ le_bytes 8 (modified_at n).

Definition sub_bytes (off len : Z) (bs : list ascii) : list ascii :=
  take (Z.to_nat len) (drop (Z.to_nat off) bs).

(** The [cn_note] that [sizeof(cn_note)] bytes read by [fread] make
    (its fields: the padding bytes 8964..8967 belong to no field). *)
Definition note_of_bytes (bs : list ascii) : cn_note :=
  {| id := le_value (sub_bytes 0 4 bs);
     title := sub_bytes 4 MAX_TITLE_LEN bs;
     content := sub_bytes 260 MAX_CONTENT_LEN bs;
     tags := sub_bytes 8452 MAX_TAGS_LEN bs;
     created_at := le_signed64 (sub_bytes 8968 8 bs);
     modified_at := le_signed64 (sub_bytes 8976 8 bs) |}.

(** [fread(ptr, size, 1, f)]: the item and the rest of the stream, or
    nothing when fewer than [size] bytes are left. *)
Definition fread_item (size : Z) (f : list ascii)
    : option (list ascii * list ascii) :=
  if size <=? Z.of_nat (length f)
  then Some (take (Z.to_nat size) f, drop (Z.to_nat size) f)
  else None.

(** [fread(notes, sizeof(cn_note), n, f)]: the complete records read. *)
Fixpoint fread_notes (n : nat) (f : list ascii) : list cn_note :=
  match n with
  | O => []
  | S n' =>
      match fread_item sizeof_cn_note f with
      | Some (bs, f') => note_of_bytes bs :: fread_notes n' f'
      | None => []
      end
  end.

(** The sanitization applied to each loaded record. *)
Definition sanitize_note (n : cn_note) : cn_note :=
  let n := set_title n (<[Z.to_nat (MAX_TITLE_LEN - 1) := NUL]> (title n)) in
  let n :=
    set_content n (<[Z.to_nat (MAX_CONTENT_LEN - 1) := NUL]> (content n)) in
  set_tags n (<[Z.to_nat (MAX_TAGS_LEN - 1) := NUL]> (tags n)).

Definition with_next_id (db : cn_note_db) (v : Z) : cn_note_db :=
  mk_db (notes db) (count db) (capacity db) v.

(** The file system: the regular files by path. *)
Abbreviation files := (gmap string (list ascii)).

Section Persistence.

Variable alloc_ok : Z -> bool.

(** [path] is what [cn_get_db_path] returns. *)
Definition cn_db_load (path : string) (fs : files) (db : cn_note_db)
    : result cn_note_db :=
  if String.eqb path "" then cn_db_init alloc_ok db
  else
    match fs !! path with
    | None => cn_db_init alloc_ok db
    | Some f =>
        match fread_item 8 f with
        | None => cn_db_init alloc_ok db
        | Some (b_count, f1) =>
            match fread_item 4 f1 with
            | None => cn_db_init alloc_ok db
            | Some (b_next, f2) =>
                let file_count := le_value b_count in
                let file_next_id := le_value b_next in
                if (file_count >? MAX_NOTES) || (file_next_id =? 0)
                then cn_db_init alloc_ok db
                else if file_count =? 0 then
                  match cn_db_init alloc_ok db with
                  | Ok db' => Ok (with_next_id db' file_next_id)
                  | Fatal m => Fatal m
                  end
                else
                  let cap :=
                    if file_count <? INITIAL_CAPACITY
                    then INITIAL_CAPACITY else file_count in
                  let doubled := wrap_size_t (file_count * GROWTH_FACTOR) in
                  let cap :=
                    if (cap <? doubled) && (doubled <=? MAX_NOTES)
                    then doubled else cap in
                  if negb (alloc_ok (cap * sizeof_cn_note))
                  then Fatal "Failed to allocate memory for database"
                  else
                    let read := fread_notes (Z.to_nat file_count) f2 in
                    if negb (Z.of_nat (length read) =? file_count)
                    then cn_db_init alloc_ok db
                    else
                      Ok {| notes :=
                              Some (map sanitize_note read
                                    ++ replicate
                                         (Z.to_nat (cap - file_count))
                                         zero_note);
                            count := file_count;
                            capacity := cap;
                            next_id := file_next_id |}
            end
        end
    end.

End Persistence.

(** Which of the I/O steps of a save succeed. *)
Record io_outcome := mk_io {
  dirs_ok : bool;          (* no parent directory is named, or it exists
                              or could be made *)
  fopen_ok : bool;
  fwrite_count_ok : bool;
  fwrite_next_id_ok : bool;
  fwrite_notes_ok : bool;
  fclose_ok : bool;
  rename_ok : bool
}.

(** [fwrite(db.notes, sizeof(cn_note), db.count, f)]: the bytes of the
    slots from index [i] on, one after the other; [padding i] is what
    the padding bytes of slot [i] hold when the save runs. *)
Fixpoint slots_bytes (padding : nat -> Z) (i : nat) (l : list cn_note)
    : list ascii :=
  match l with
  | [] => []
  | n :: l' => note_bytes (padding i) n ++ slots_bytes padding (S i) l'
  end.

Definition snapshot_bytes (padding : nat -> Z) (db : cn_note_db)
    : list ascii :=
  le_bytes 8 (count db) ++ le_bytes 4 (next_id db)
    ++ (if count db >? 0 then slots_bytes padding 0 (live db) else []).

(** The file system after the call, and how the call ended. *)
Definition cn_db_save (io : io_outcome) (padding : nat -> Z) (path : string)
    (fs : files) (db : cn_note_db) : files * result unit :=
  if String.eqb path "" then (fs, Fatal "No database path available")
  else if negb (dirs_ok io)
  then (fs, Fatal "Failed to create database directory")
  else
    let tmp := (path ++ ".tmp")%string in
    if Z.of_nat (String.length tmp) >=? PATH_MAX
    then (fs, Fatal "Temporary path too long")
    else if negb (fopen_ok io)
    then (fs, Fatal "Failed to open temporary database file for writing")
    else if negb (fwrite_count_ok io) || negb (fwrite_next_id_ok io)
    then (delete tmp fs, Fatal "Failed to write database header")
    else if (count db >? 0) && negb (fwrite_notes_ok io)
    then (delete tmp fs, Fatal "Failed to write database records")
    else if negb (fclose_ok io)
    then (delete tmp fs, Fatal "Failed to close temporary database file")
    else if negb (rename_ok io)
    then (delete tmp fs, Fatal "Failed to update database file")
    else (<[path := snapshot_bytes padding db]> (delete tmp fs), Ok tt).

(** ** Vocabulary of the properties *)

(** An argument that names no new value: NULL or the empty string. *)
Definition absent (a : option (list ascii)) : Prop :=
  match a with
  | None => True
  | Some s => char_at s 0 = NUL
  end.

(** The representation invariant of the store: the array has
    [capacity] slots, [count] of them live, and the integers are in the
    range of their C types. *)
Definition wf_db (db : cn_note_db) : Prop :=
  Z.of_nat (length (arr_of db)) = capacity db
  /\ 0 <= count db <= capacity db
  /\ capacity db <= SIZE_MAX
  /\ 0 <= next_id db <= UINT_MAX.

Definition ids (db : cn_note_db) : list Z := id <$> live db.

(** Calls of the CRUD interface and runs of them; a run ends with the
    process when a call is fatal. *)
Inductive op : Type :=
  | OpAdd (title0 content0 tags0 : option (list ascii)) (now : Z)
  | OpEdit (key : Z) (title0 content0 tags0 : option (list ascii)) (now : Z)
  | OpDelete (key : Z).

Definition step (alloc_ok : Z -> bool) (fresh : cn_note) (o : op)
    (db : cn_note_db) : result (Z * cn_note_db) :=
  match o with
  | OpAdd t c g now => cn_note_add alloc_ok fresh t c g now db
  | OpEdit k t c g now => Ok (cn_note_edit k t c g now db)
  | OpDelete k => Ok (cn_note_delete k db)
  end.

Fixpoint run (alloc_ok : Z -> bool) (fresh : cn_note) (ops : list op)
    (db : cn_note_db) : result cn_note_db :=
  match ops with
  | [] => Ok db
  | o :: ops' =>
      match step alloc_ok fresh o db with
      | Ok (_, db') => run alloc_ok fresh ops' db'
      | Fatal m => Fatal m
      end
  end.

(** Did the id counter wrap during the run: some [cn_note_add] handed
    out [UINT_MAX], so that [next_id++] came back to 0. *)
Fixpoint wraps (alloc_ok : Z -> bool) (fresh : cn_note) (ops : list op)
    (db : cn_note_db) : bool :=
  match ops with
  | [] => false
  | o :: ops' =>
      match step alloc_ok fresh o db with
      | Ok (r, db') =>
          match o with
          | OpAdd _ _ _ _ => (r =? UINT_MAX) || wraps alloc_ok fresh ops' db'
          | _ => wraps alloc_ok fresh ops' db'
          end
      | Fatal _ => false
      end
  end.

Definition is_add_delete (o : op) : bool :=
  match o with
  | OpEdit _ _ _ _ _ => false
  | _ => true
  end.

(** An allocator that never fails, to run examples. *)
Definition always (_ : Z) : bool := true.

(** The store after [add("old title", "body", "t")] at time 100. *)
Definition store_one : cn_note_db :=
  match cn_note_add always zero_note (Some (lit "old title"))
          (Some (lit "body")) (Some (lit "t")) 100 db_zero with
  | Ok (_, db) => db
  | Fatal _ => db_zero
  end.

(** What the id counter promises: it is at least 1 once the store is
    allocated, the live ids are distinct and all below it. *)
Definition store_inv (db : cn_note_db) : Prop :=
  wf_db db
  /\ NoDup (ids db)
  /\ (forall k, k ∈ ids db -> 1 <= k < next_id db)
  /\ (notes db <> None -> 1 <= next_id db).

(** The store of a process that found no usable snapshot: what
    [cn_db_init] builds. *)
Definition db_fresh : cn_note_db :=
  {| notes := Some (replicate (Z.to_nat INITIAL_CAPACITY) zero_note);
     count := 0;
     capacity := INITIAL_CAPACITY;
     next_id := 1 |}.

(** The header of a snapshot file, when its two reads succeed: the
    count, the next id and the bytes after the header. *)
Definition read_header (f : list ascii) : option (Z * Z * list ascii) :=
  match fread_item 8 f with
  | None => None
  | Some (b_count, f1) =>
      match fread_item 4 f1 with
      | None => None
      | Some (b_next, f2) => Some (le_value b_count, le_value b_next, f2)
      end
  end.

(** A malformed snapshot: the header cannot be read, the count exceeds
    [MAX_NOTES], the next id is zero, or the file holds fewer than
    [count] records. *)
Definition malformed (f : list ascii) : Prop :=
  match read_header f with
  | None => True
  | Some (file_count, file_next_id, body) =>
      file_count > MAX_NOTES
      \/ file_next_id = 0
      \/ Z.of_nat (length body) < file_count * sizeof_cn_note
  end.

(** Trimming as a function on strings: white space dropped at the
    front ([lstrip]), at the back ([rstrip]), at both ends ([trim]). *)
Fixpoint lstrip (v : list ascii) : list ascii :=
  match v with
  | [] => []
  | c :: v' => if isspace c then lstrip v' else v
  end.

Definition rstrip (v : list ascii) : list ascii :=
  reverse (lstrip (reverse v)).

Definition trim (v : list ascii) : list ascii := lstrip (rstrip v).

(** A character buffer of [N] bytes whose last byte is NUL. *)
Definition buf_ok (N : Z) (b : list ascii) : Prop :=
  Z.of_nat (length b) = N /\ last b = Some NUL.

(** The range of [time_t]. *)
Definition time_ok (t : Z) : Prop := - 2 ^ 63 <= t < 2 ^ 63.

(** A slot within its declared bounds: the id fits [unsigned int],
    the three buffers have their declared sizes and end in NUL, the
    timestamps fit [time_t]. *)
Definition note_ok (n : cn_note) : Prop :=
  0 <= id n <= UINT_MAX
  /\ buf_ok MAX_TITLE_LEN (title n)
  /\ buf_ok MAX_CONTENT_LEN (content n)
  /\ buf_ok MAX_TAGS_LEN (tags n)
  /\ time_ok (created_at n)
  /\ time_ok (modified_at n).

(** What every store built by the CRUD calls satisfies, and what a
    snapshot needs to be read back. *)
Definition snap_inv (db : cn_note_db) : Prop :=
  wf_db db
  /\ 1 <= next_id db
  /\ count db <= MAX_NOTES
  /\ Forall note_ok (arr_of db).

(** The clock hands out values of [time_t]. *)
Definition op_time_ok (o : op) : Prop :=
  match o with
  | OpAdd _ _ _ now => time_ok now
  | OpEdit _ _ _ _ now => time_ok now
  | OpDelete _ => True
  end.

(** Every I/O step of a save succeeds. *)
Definition io_all_ok : io_outcome := mk_io true true true true true true true.

(** The tag filter as the specification words it: lower-case both
    sides, split the query at its commas, trim every sub-token, ignore
    the empty ones, and require each of the others to occur in the
    note's tags. *)
Fixpoint split_commas (s : list ascii) : list (list ascii) :=
  match s with
  | [] => [[]]
  | c :: s' =>
      if is_comma c then [] :: split_commas s'
      else
        match split_commas s' with
        | tok :: toks => (c :: tok) :: toks
        | [] => [[c]]
        end
  end.

Definition is_substring (needle haystack : list ascii) : Prop :=
  exists pre post, haystack = pre ++ needle ++ post.

Definition lower (s : list ascii) : list ascii := map tolower s.

Definition tags_match_spec (note_tags query : list ascii) : Prop :=
  forall tok,
    tok ∈ split_commas (lower query) ->
    trim tok <> [] ->
    is_substring (trim tok) (lower note_tags).

(** One round of the loop of [cn_note_match_tags], as a test of the
    sub-token cut by [strtok_r]. *)
Definition tok_ok (note_copy tok : list ascii) : bool :=
  is_nul (char_at (trim tok) 0) || strstr note_copy (trim tok).

(** Split [note_ok] of a note built by the setters into its fields and
    close those that are hypotheses. *)
Ltac note_ok_fields :=
  unfold note_ok;
  cbn [snd id title content tags created_at modified_at set_id set_title
       set_content set_tags set_created_at set_modified_at];
  split_and!; try done; try lia.

(** Did the call, or the run, return. *)
Definition is_ok {A} (r : result A) : bool :=
  match r with
  | Ok _ => true
  | Fatal _ => false
  end.

(** Concrete inputs on which the properties are exercised. *)

(** A store whose 64 slots are all in use. *)
Definition store_full : cn_note_db :=
  {| notes := Some (replicate (Z.to_nat INITIAL_CAPACITY) zero_note);
     count := INITIAL_CAPACITY;
     capacity := INITIAL_CAPACITY;
     next_id := INITIAL_CAPACITY + 1 |}.

Definition example_ops : list op :=
  [ OpAdd (Some (lit "Git status")) (Some (lit "git status -s"))
      (Some (lit "git,status")) 100;
    OpAdd (Some (lit " ls ")) (Some (lit "ls -la")) None 101;
    OpEdit 2 None (Some (lit "ls -lah")) (Some (lit "")) 102;
    OpDelete 1;
    OpAdd (Some (lit "pwd")) (Some (lit "pwd")) (Some (lit "shell")) 103 ].

Definition example_path : string := "cheatnote.db".

(** A snapshot holding only a header: count 0, next id 7. *)
Definition fs_emptied : files :=
  {[ example_path := le_bytes 8 0 ++ le_bytes 4 7 ]}.

(** A snapshot cut off in the middle of its header. *)
Definition fs_truncated : files := {[ example_path := le_bytes 5 3 ]}.

(** ** Vocabulary of the further properties *)

(** The slots past [count] hold zero bytes. *)
Definition free_zero (db : cn_note_db) : Prop :=
  forall i n,
    (Z.to_nat (count db) <= i)%nat -> arr_of db !! i = Some n -> n = zero_note.

(** The store a running process works with: allocated, with at least
    the initial and at most the maximal capacity, every slot within its
    bounds, the unused slots zero. *)
Definition store_ok (db : cn_note_db) : Prop :=
  snap_inv db
  /\ notes db <> None
  /\ INITIAL_CAPACITY <= capacity db <= MAX_NOTES
  /\ free_zero db.

(** The string an argument stands for (none for NULL). *)
Definition arg_str (a : option (list ascii)) : list ascii :=
  match a with
  | Some s => cstr s
  | None => []
  end.

(** A required text argument that [cn_note_add] accepts: not NULL, not
    empty, shorter than the buffer. *)
Definition valid_text (bound : Z) (a : option (list ascii)) : Prop :=
  match a with
  | Some s => char_at s 0 <> NUL /\ Z.of_nat (strlen s) < bound
  | None => False
  end.

(** An optional argument that fits its buffer. *)
Definition fits (bound : Z) (a : option (list ascii)) : Prop :=
  match a with
  | Some s => Z.of_nat (strlen s) < bound
  | None => True
  end.

(** The three strings of a note, and those an add is asked to store. *)
Definition note_strings (n : cn_note)
    : list ascii * list ascii * list ascii :=
  (cstr (title n), cstr (content n), cstr (tags n)).

Definition valid_add (o : op) : Prop :=
  match o with
  | OpAdd t c g now =>
      valid_text MAX_TITLE_LEN t /\ valid_text MAX_CONTENT_LEN c
      /\ fits MAX_TAGS_LEN g /\ time_ok now
  | _ => False
  end.

Definition op_strings (o : op) : list ascii * list ascii * list ascii :=
  match o with
  | OpAdd t c g _ => (trim (arg_str t), trim (arg_str c), trim (arg_str g))
  | _ => ([], [], [])
  end.

(** What an edit leaves in a field: title and content keep their old
    string when the argument is NULL or empty, tags only when it is
    NULL. *)
Definition edited_text (a : option (list ascii)) (old : list ascii)
    : list ascii :=
  match a with
  | Some s => if is_nul (char_at s 0) then old else trim (cstr s)
  | None => old
  end.

Definition edited_tags (a : option (list ascii)) (old : list ascii)
    : list ascii :=
  match a with
  | Some g => trim (cstr g)
  | None => old
  end.

(** ** src/search.c : content matching *)

Definition MAX_SEARCH_LEN : Z := 256.

(** [cn_search_opts]; the [int] flags are only ever tested for being
    nonzero.  The field [tags] of the C struct is [opts_tags] here (the
    name is taken by [cn_note]). *)
Record cn_search_opts := mk_opts {
  pattern : option (list ascii);     (* const char *pattern *)
  opts_tags : option (list ascii);   (* const char *tags *)
  case_insensitive : bool;
  regex_mode : bool;
  exact_match : bool;
  word_boundary : bool;
  multiline_mode : bool
}.

Definition set_case_insensitive (o : cn_search_opts) (v : bool)
    : cn_search_opts :=
  mk_opts (pattern o) (opts_tags o) v (regex_mode o) (exact_match o)
    (word_boundary o) (multiline_mode o).
Definition set_exact_match (o : cn_search_opts) (v : bool)
    : cn_search_opts :=
  mk_opts (pattern o) (opts_tags o) (case_insensitive o) (regex_mode o) v
    (word_boundary o) (multiline_mode o).

(** [strcmp] on string values: the difference of the first two
    characters that differ, the terminator counting as 0. *)
Fixpoint strcmp (a b : list ascii) : Z :=
  match a, b with
  | [], [] => 0
  | [], d :: _ => - code d
  | c :: _, [] => code c
  | c :: a', d :: b' =>
      if Ascii.eqb c d then strcmp a' b' else code c - code d
  end.

Section Content.

Variable alloc_ok : Z -> bool.

(** <regex.h>: [regcomp] with [REG_EXTENDED | REG_NOSUB] and, as asked
    for, [REG_NEWLINE] and [REG_ICASE]; [None] when the pattern does not
    compile, otherwise what [regexec(&regex, s, 0, NULL, 0) == 0] says
    of a string [s]. *)
Variable regcomp : bool -> bool -> list ascii -> option (list ascii -> bool).

Definition cn_note_match_content (note : option cn_note)
    (opts : option cn_search_opts) : bool :=
  match note, opts with
  | Some note, Some opts =>
      match pattern opts with
      | None => true
      | Some pat =>
          if is_nul (char_at pat 0) then true
          else if regex_mode opts then
            let patlen := Z.of_nat (strlen pat) in
            let need := wrap_size_t (patlen + 16) in
            if need >? MAX_SEARCH_LEN * 4 then false
            else if negb (alloc_ok need) then false
            else
              let pattern_buf :=
                if word_boundary opts then
                  (* snprintf(pattern_buf, need, "\\b%s\\b", pattern) *)
                  let rc := patlen + 4 in
                  if rc >=? need then None
                  else Some (lit "\b" ++ cstr pat ++ lit "\b")
                else if wrap_size_t (patlen + 1) >? need then None
                else Some (cstr pat) in
              match pattern_buf with
              | None => false
              | Some buf =>
                  match regcomp (multiline_mode opts) (case_insensitive opts)
                          buf with
                  | None => false
                  | Some regexec =>
                      if regexec (cstr (title note)) then true
                      else if regexec (cstr (content note)) then true
                      else regexec (cstr (tags note))
                  end
              end
          else
            let ci := case_insensitive opts in
            let title_len := Z.of_nat (strlen (title note)) in
            let content_len := Z.of_nat (strlen (content note)) in
            let tags_len := Z.of_nat (strlen (tags note)) in
            let search_len := Z.of_nat (strlen pat) in
            if ci && ((title_len >? MAX_CONTENT_LEN)
                      || (content_len >? MAX_CONTENT_LEN)
                      || (tags_len >? MAX_TAGS_LEN)
                      || (search_len >? MAX_SEARCH_LEN))
            then false
            else if ci && (negb (alloc_ok (title_len + 1))
                           || negb (alloc_ok (content_len + 1))
                           || negb (alloc_ok (tags_len + 1))
                           || negb (alloc_ok (search_len + 1)))
            then false
            else
              let copy s := if ci then map tolower (cstr s) else cstr s in
              let search := copy pat in
              let title := copy (title note) in
              let content := copy (content note) in
              let tags := copy (tags note) in
              if exact_match opts then
                (strcmp title search =? 0) || (strcmp content search =? 0)
                || (strcmp tags search =? 0)
              else
                strstr title search || strstr content search
                || strstr tags search
      end
  | _, _ => false
  end.

End Content.

(** The three strings of a note a search looks at. *)
Definition field_values (n : cn_note) : list (list ascii) :=
  [cstr (title n); cstr (content n); cstr (tags n)].

(** ** src/utils.c : CSV fields *)

Definition DQUOTE : ascii := ascii_of_N 34.
Definition is_quote (c : ascii) : bool := Ascii.eqb c DQUOTE.

(** [while ( *p && isspace( *p)) ++p;] on the string [p] points at. *)
Fixpoint skip_spaces (p : list ascii) : list ascii :=
  match p with
  | [] => []
  | c :: p' => if isspace c then skip_spaces p' else p
  end.

(** [if (written + 1 < max_len) { *out++ = c; ++written; }]; [out] is
    [output + written] throughout. *)
Definition put (max_len : Z) (c : ascii) (st : Z * list ascii)
    : Z * list ascii :=
  let (written, output) := st in
  if written + 1 <? max_len
  then (written + 1, <[Z.to_nat written := c]> output)
  else st.

(** The main loop of [cn_parse_csv_field]: where [p] stops, and the
    output written so far. *)
Fixpoint field_loop (in_quotes : bool) (max_len : Z) (p : list ascii)
    (st : Z * list ascii) : list ascii * (Z * list ascii) :=
  match p with
  | [] => ([], st)
  | c :: p1 =>
      if in_quotes then
        if is_quote c then
          match p1 with
          | d :: p2 =>
              if is_quote d
              then field_loop true max_len p2 (put max_len DQUOTE st)
              else (p1, st)
          | [] => (p1, st)
          end
        else field_loop true max_len p1 (put max_len c st)
      else if is_comma c then (p, st)
      else field_loop false max_len p1 (put max_len c st)
  end.

(** [while ( *p && *p != ',') ++p;] *)
Fixpoint skip_to_comma (p : list ascii) : list ascii :=
  match p with
  | [] => []
  | c :: p1 => if is_comma c then p else skip_to_comma p1
  end.

(** The result, the new [*pos] and the output buffer.  [Some s] for
    [*pos] is the string the pointer points at; the new [*pos] points
    into the same string. *)
Definition cn_parse_csv_field (pos output : option (list ascii))
    (max_len : Z) : Z * option (list ascii) * option (list ascii) :=
  match pos, output with
  | Some s, Some out =>
      if max_len =? 0 then (0, pos, output)
      else
        let p := skip_spaces (cstr s) in
        let '(p, (written, out)) :=
          match p with
          | c :: p1 =>
              if is_quote c then field_loop true max_len p1 (0, out)
              else field_loop false max_len p (0, out)
          | [] => field_loop false max_len p (0, out)
          end in
        let out := <[Z.to_nat written := NUL]> out in
        let p := skip_to_comma p in
        let p := match p with
                 | c :: p1 => if is_comma c then p1 else p
                 | [] => p
                 end in
        (1, Some (skip_spaces p), Some out)
  | _, _ => (0, pos, output)
  end.

(** ** src/commands.c : the quoting of [cn_cmd_export] *)

(** [for (p = field; *p; ++p)] over the string of the field: a double
    quote is written twice, any other character as it is. *)
Fixpoint csv_escape (s : list ascii) : list ascii :=
  match s with
  | [] => []
  | c :: s' =>
      if is_quote c then DQUOTE :: DQUOTE :: csv_escape s'
      else c :: csv_escape s'
  end.

(** A field as [cn_cmd_export] writes it between two commas. *)
Definition csv_quoted (field : list ascii) : list ascii :=
  DQUOTE :: csv_escape (cstr field) ++ [DQUOTE].

(** The state of the output after a run of [put]s. *)
Definition puts (max_len : Z) (v : list ascii) (st : Z * list ascii)
    : Z * list ascii :=
  fold_left (fun st c => put max_len c st) v st.

(** What the parser may do to its output: [written] stays below
    [max_len], the buffer keeps its length, nothing is written at
    [max_len] or beyond. *)
Definition out_inv (max_len : Z) (out0 : list ascii) (st : Z * list ascii)
    : Prop :=
  0 <= st.1 < max_len
  /\ length st.2 = length out0
  /\ drop (Z.to_nat max_len) st.2 = drop (Z.to_nat max_len) out0.

(** ** src/db.c : cn_db_cleanup *)

Definition cn_db_cleanup (db : cn_note_db) : cn_note_db :=
  {| notes := None; count := 0; capacity := 0; next_id := 1 |}.

(** ** src/commands.c : CSV export and import *)

Definition MAX_LINE_LENGTH : Z :=
  MAX_TITLE_LEN + MAX_CONTENT_LEN + MAX_TAGS_LEN + 256.

Definition NEWLINE : ascii := ascii_of_N 10.
Definition is_newline (c : ascii) : bool := Ascii.eqb c NEWLINE.

(** The decimal digits of a number, most significant first (20 of
    them cover 64 bits). *)
Fixpoint digits (fuel : nat) (z : Z) (acc : list ascii) : list ascii :=
  match fuel with
  | O => acc
  | S fuel' =>
      let acc := ascii_of_N (Z.to_N (48 + z mod 10)) :: acc in
      if z / 10 =? 0 then acc else digits fuel' (z / 10) acc
  end.

(** [%u] and [%ld] of printf. *)
Definition fmt_u (z : Z) : list ascii := digits 20 z [].
Definition fmt_ld (z : Z) : list ascii :=
  if z <? 0 then "-"%char :: digits 20 (- z) [] else digits 20 z [].

(** The text [cn_cmd_export] writes for one note. *)
Definition export_record (n : cn_note) : list ascii :=
  fmt_u (id n) ++ lit ","
    ++ csv_quoted (title n) ++ lit ","
    ++ csv_quoted (content n) ++ lit ","
    ++ csv_quoted (tags n) ++ lit ","
    ++ fmt_ld (created_at n) ++ lit "," ++ fmt_ld (modified_at n)
    ++ [NEWLINE].

Definition export_header : list ascii :=
  lit "ID,Title,Content,Tags,Created,Modified" ++ [NEWLINE].

(** The export file, when no write fails (a failing write is a fatal
    exit). *)
Definition export_file (db : cn_note_db) : list ascii :=
  export_header ++ concat (map export_record (live db)).

(** [fgets(buf, room + 1, f)]: the characters stored, the rest of the
    file and the end-of-file indicator. *)
Fixpoint fgets_loop (room : nat) (f : list ascii)
    : list ascii * list ascii * bool :=
  match room with
  | O => ([], f, false)
  | S room' =>
      match f with
      | [] => ([], [], true)
      | c :: f' =>
          if is_newline c then ([c], f', false)
          else
            let '(l, rest, eof) := fgets_loop room' f' in (c :: l, rest, eof)
      end
  end.

(** [None] is the NULL result: nothing was left to read. *)
Definition fgets (n : Z) (f : list ascii)
    : option (list ascii * list ascii * bool) :=
  match fgets_loop (Z.to_nat (n - 1)) f with
  | ([], _, _) => None
  | r => Some r
  end.

(** [while ((ch = fgetc(f)) != '\n' && ch != EOF) {}] *)
Fixpoint skip_line (f : list ascii) : list ascii :=
  match f with
  | [] => []
  | c :: f' => if is_newline c then f' else skip_line f'
  end.

(** How the loop of [cn_cmd_import] leaves a line: [++imported],
    [continue] without a count, or [++errors]. *)
Inductive line_outcome : Type := Imported | Skipped | Failed.

Section CsvImport.

Variable alloc_ok : Z -> bool.
Variable fresh : cn_note.
(** [time(NULL)] while the line of that number is processed. *)
Variable clock : Z -> Z.

(** The body of the loop from the header test on. *)
Definition import_line (line_num : Z) (linebuf : list ascii)
    (db : cn_note_db) : result (line_outcome * cn_note_db) :=
  if (line_num =? 1)
     && (strstr (cstr linebuf) (lit "ID,Title,Content")
         || strstr (cstr linebuf) (lit "id,title,content"))
  then Ok (Skipped, db)
  else
    let len := strlen linebuf in
    let linebuf :=
      if (0 <? len)%nat && is_newline (char_at linebuf (len - 1))
      then <[(len - 1)%nat := NUL]> linebuf else linebuf in
    if is_nul (char_at linebuf 0) then Ok (Skipped, db)
    else
      let '(r1, pos, _) :=
        cn_parse_csv_field (Some linebuf) (Some (replicate 32 NUL)) 32 in
      if r1 =? 0 then Ok (Failed, db)
      else
        let '(r2, pos, title) :=
          cn_parse_csv_field pos
            (Some (replicate (Z.to_nat MAX_TITLE_LEN) NUL)) MAX_TITLE_LEN in
        if r2 =? 0 then Ok (Failed, db)
        else
          let '(r3, pos, content) :=
            cn_parse_csv_field pos
              (Some (replicate (Z.to_nat MAX_CONTENT_LEN) NUL))
              MAX_CONTENT_LEN in
          if r3 =? 0 then Ok (Failed, db)
          else
            let '(_, _, tags) :=
              cn_parse_csv_field pos
                (Some (replicate (Z.to_nat MAX_TAGS_LEN) NUL)) MAX_TAGS_LEN in
            match title, content, tags with
            | Some title, Some content, Some tags =>
                if is_nul (char_at title 0) || is_nul (char_at content 0)
                then Ok (Failed, db)
                else
                  match cn_note_add alloc_ok fresh (Some title) (Some content)
                          (if is_nul (char_at tags 0) then None
                           else Some tags)
                          (clock line_num) db with
                  | Fatal m => Fatal m
                  | Ok (nid, db') =>
                      if nid =? 0 then Ok (Failed, db')
                      else Ok (Imported, db')
                  end
            | _, _, _ => Ok (Failed, db)
            end.

(** [while (fgets(linebuf, MAX_LINE_LENGTH, f))]: the numbers of
    imported lines and of errors, and the store.  Every round reads at
    least one character; [fuel] bounds the number of rounds. *)
Fixpoint import_loop (fuel : nat) (f : list ascii)
    (line_num imported errors : Z) (db : cn_note_db)
    : result (Z * Z * cn_note_db) :=
  match fuel with
  | O => Ok (imported, errors, db)
  | S fuel' =>
      match fgets MAX_LINE_LENGTH f with
      | None => Ok (imported, errors, db)
      | Some (linebuf, f1, eof) =>
          let line_num := wrap_size_t (line_num + 1) in
          let len := strlen linebuf in
          if (Z.of_nat len =? MAX_LINE_LENGTH - 1)
             && negb (is_newline (char_at linebuf (len - 1)))
             && negb eof
          then
            import_loop fuel' (skip_line f1) line_num imported
              (wrap_size_t (errors + 1)) db
          else
            match import_line line_num linebuf db with
            | Fatal m => Fatal m
            | Ok (Imported, db') =>
                import_loop fuel' f1 line_num (wrap_size_t (imported + 1))
                  errors db'
            | Ok (Skipped, db') =>
                import_loop fuel' f1 line_num imported errors db'
            | Ok (Failed, db') =>
                import_loop fuel' f1 line_num imported
                  (wrap_size_t (errors + 1)) db'
            end
      end
  end.

(** [cn_cmd_import] between the opening of the file and the save:
    without [--merge] the store is emptied first. *)
Definition import_notes (merge_mode : bool) (f : list ascii)
    (db : cn_note_db) : result (Z * Z * cn_note_db) :=
  match (if merge_mode then Ok db
         else cn_db_init alloc_ok (cn_db_cleanup db)) with
  | Fatal m => Fatal m
  | Ok db0 =>
      if negb (alloc_ok MAX_LINE_LENGTH)
      then Fatal "Failed to allocate memory for line buffer"
      else import_loop (S (length f)) f 0 0 0 db0
  end.

End CsvImport.

(** A note [cn_cmd_import] can read back from its exported record: the
    title and the content are not empty, no string holds a line break,
    and the record fits the line buffer. *)
Definition exportable (n : cn_note) : Prop :=
  note_ok n
  /\ cstr (title n) <> [] /\ cstr (content n) <> []
  /\ (NEWLINE ∉ cstr (title n)) /\ (NEWLINE ∉ cstr (content n))
  /\ (NEWLINE ∉ cstr (tags n))
  /\ Z.of_nat (length (export_record n)) < MAX_LINE_LENGTH.

(** The strings an import stores for a note. *)
Definition trimmed_strings (n : cn_note)
    : list ascii * list ascii * list ascii :=
  (trim (cstr (title n)), trim (cstr (content n)), trim (cstr (tags n))).

(** The characters of a printed number. *)
Definition is_num_char (c : ascii) : Prop :=
  code c = 45 \/ 48 <= code c <= 57.

(** The record without its line break. *)
Definition record_body (n : cn_note) : list ascii :=
  fmt_u (id n) ++ lit ","
    ++ csv_quoted (title n) ++ lit ","
    ++ csv_quoted (content n) ++ lit ","
    ++ csv_quoted (tags n) ++ lit ","
    ++ fmt_ld (created_at n) ++ lit "," ++ fmt_ld (modified_at n).

(** ** src/db.c : the path of the snapshot file *)

Definition PATH_SEP : ascii := "/"%char.

(** [snprintf(buf, size, ..)] of a text: what the buffer holds
    afterwards, and the length the whole text asks for.  (The lengths
    at hand are far from [INT_MAX].) *)
Definition snprintf (buf : list ascii) (size : Z) (text : list ascii)
    : list ascii * Z :=
  if size =? 0 then (buf, Z.of_nat (length text))
  else
    let k := (length text `min` Z.to_nat (size - 1))%nat in
    (take k text ++ NUL :: drop (S k) buf, Z.of_nat (length text)).

(** [env && env[0]] *)
Definition is_set (e : option (list ascii)) : bool :=
  match e with
  | Some s => negb (is_nul (char_at s 0))
  | None => false
  end.

Section Paths.

(** The environment of the process. *)
Variable getenv : string -> option (list ascii).

(** The POSIX branch; [outbuf] is never NULL ([db_path] is passed). *)
Definition build_default_db_path (outbuf : list ascii) (bufsz : Z)
    : bool * list ascii :=
  if bufsz =? 0 then (false, outbuf)
  else
    let env_xdg := getenv "XDG_DATA_HOME" in
    if is_set env_xdg then
      let (out, r) :=
        snprintf outbuf bufsz
          (arg_str env_xdg ++ [PATH_SEP] ++ lit "cheatnote" ++ [PATH_SEP]
           ++ lit "cheatnote.db") in
      ((0 <? r) && (r <? bufsz), out)
    else
      let home := getenv "HOME" in
      if is_set home then
        let (out, r) :=
          snprintf outbuf bufsz
            (arg_str home ++ [PATH_SEP] ++ lit ".local" ++ [PATH_SEP]
             ++ lit "share" ++ [PATH_SEP] ++ lit "cheatnote" ++ [PATH_SEP]
             ++ lit "cheatnote.db") in
        ((0 <? r) && (r <? bufsz), out)
      else
        let (out, r) := snprintf outbuf bufsz (lit "cheatnote.db") in
        (negb (r >=? bufsz), out).

(** The global [db_path] after the call; the function returns a
    pointer to it. *)
Definition cn_get_db_path (db_path : list ascii) : list ascii :=
  if negb (is_nul (char_at db_path 0)) then db_path
  else
    let env := getenv "CHEATNOTE_DB" in
    if is_set env && (Z.of_nat (strlen (arg_str env)) <? PATH_MAX)
    then cn_safe_strncpy db_path env PATH_MAX
    else
      let (ok, db_path) := build_default_db_path db_path PATH_MAX in
      if ok then db_path
      else cn_safe_strncpy db_path (Some (lit "cheatnote.db")) PATH_MAX.

End Paths.

Definition cn_set_db_path (path : option (list ascii))
    (db_path : list ascii) : result (list ascii) :=
  match path with
  | None => Ok (<[O := NUL]> db_path)
  | Some p =>
      if is_nul (char_at p 0) then Ok (<[O := NUL]> db_path)
      else if Z.of_nat (strlen p) >=? PATH_MAX
      then Fatal "Database path too long"
      else Ok (cn_safe_strncpy db_path path PATH_MAX)
  end.

Definition is_sep (c : ascii) : bool :=
  Ascii.eqb c "/"%char || Ascii.eqb c "\"%char.

(** [while (p > path && *p != '/' && *p != '\\') --p;] *)
Fixpoint back_to_sep (path : list ascii) (p : nat) : nat :=
  match p with
  | O => O
  | S p' => if is_sep (char_at path p) then p else back_to_sep path p'
  end.

Definition path_dirname (path outdir : option (list ascii))
    (outdir_sz : Z) : Z * option (list ascii) :=
  match path, outdir with
  | Some path, Some out =>
      if outdir_sz =? 0 then (0, outdir)
      else
        let p := back_to_sep path (strlen path) in
        if (p =? 0)%nat then (1, Some (<[O := NUL]> out))
        else if Z.of_nat p >=? outdir_sz then (0, outdir)
        else (1, Some (<[p := NUL]> (take p path ++ drop p out)))
  | _, _ => (0, outdir)
  end.

(** The path [cn_get_db_path] settles on when nothing is cached. *)
Definition resolved_path (getenv : string -> option (list ascii))
    : list ascii :=
  let fits text := Z.of_nat (length text) <? PATH_MAX in
  let env := getenv "CHEATNOTE_DB" in
  let xdg := getenv "XDG_DATA_HOME" in
  let home := getenv "HOME" in
  let local := lit "cheatnote.db" in
  if is_set env && fits (arg_str env) then arg_str env
  else
    let text :=
      if is_set xdg then arg_str xdg ++ lit "/cheatnote/cheatnote.db"
      else if is_set home
      then arg_str home ++ lit "/.local/share/cheatnote/cheatnote.db"
      else local in
    if fits text then text else local.

(** A string without a path separator. *)
Definition no_sep (s : list ascii) : Prop :=
  Forall (fun c => is_sep c = false) s.

(** ** Concrete inputs of the further properties *)

(** A buffer of [N] bytes holding a string. *)
Definition padded (N : Z) (s : string) : list ascii :=
  lit s ++ replicate (Z.to_nat N - String.length s) NUL.

Definition example_note : cn_note :=
  {| id := 1;
     title := padded MAX_TITLE_LEN "Git status";
     content := padded MAX_CONTENT_LEN "git status -s";
     tags := padded MAX_TAGS_LEN "git,status";
     created_at := 100;
     modified_at := 100 |}.

Definition example_store : cn_note_db :=
  {| notes := Some [example_note]; count := 1; capacity := 1; next_id := 2 |}.

(** A literal search for the content of the example note. *)
Definition example_opts : cn_search_opts :=
  mk_opts (Some (lit "git status -s")) None false false true false false.

(** A stand-in for the regex engine: every pattern compiles, and is
    looked for as it is written. *)
Definition literal_engine (newline icase : bool) (pat : list ascii)
    : option (list ascii -> bool) :=
  Some (fun s => strstr s pat).

Definition example_env (name : string) : option (list ascii) :=
  if String.eqb name "HOME" then Some (lit "/home/u") else None.

Definition example_adds : list op :=
  [ OpAdd (Some (lit " ls ")) (Some (lit "ls -la")) None 101;
    OpAdd (Some (lit "pwd")) (Some (lit "pwd")) (Some (lit "shell")) 103 ].

(** ** Vocabulary of the recovery of a load *)

(** The capacity [cn_db_load] allocates for a header that names
    [file_count] records. *)
Definition load_capacity (file_count : Z) : Z :=
  let cap :=
    if file_count <? INITIAL_CAPACITY then INITIAL_CAPACITY else file_count in
  let doubled := wrap_size_t (file_count * GROWTH_FACTOR) in
  if (cap <? doubled) && (doubled <=? MAX_NOTES) then doubled else cap.

(** Do the allocations succeed that a load asks for on its way to the
    fresh store: the initial array and, when the file is read and its
    header passes the checks with a count above zero, before that the
    array sized from this count (it is requested before the records
    are read). *)
Definition load_allocs_ok (alloc_ok : Z -> bool) (f : option (list ascii))
    : bool :=
  alloc_ok (INITIAL_CAPACITY * sizeof_cn_note)
  && match f with
     | None => true
     | Some f =>
         match read_header f with
         | None => true
         | Some (file_count, file_next_id, _) =>
             (file_count >? MAX_NOTES) || (file_next_id =? 0)
             || (file_count =? 0)
             || alloc_ok (load_capacity file_count * sizeof_cn_note)
         end
     end.

(** An allocator that grants requests of up to [limit] bytes. *)
Definition alloc_up_to (limit : Z) (size : Z) : bool := size <=? limit.

(** A snapshot that is its header only, with a count of [MAX_NOTES]
    and the next id 1. *)
Definition corrupt_count_file : list ascii :=
  le_bytes 8 MAX_NOTES ++ le_bytes 4 1.

(** A snapshot whose header names one record and which holds none. *)
Definition fs_short_read : files :=
  {[ example_path := le_bytes 8 1 ++ le_bytes 4 5 ]}.

(** * Properties *)

(** ** Lookup by id *)

Lemma find_id_Some l key i :
  find_id l key = Some i ->
  exists n, l !! i = Some n /\ id n = key
    /\ forall j m, (j < i)%nat -> l !! j = Some m -> id m <> key.
Proof.
  revert i. induction l as [|n l IH]; intros i H; simpl in H; [done|].
  destruct (id n =? key) eqn:E.
  - inversion H; subst. exists n. split; [done|]. split; [lia|].
    intros j m Hj. lia.
  - destruct (find_id l key) as [i'|] eqn:F; simpl in H; [|done].
    inversion H; subst. destruct (IH i' eq_refl) as (n' & Hn' & Hid & Hlt).
    exists n'. split; [done|]. split; [done|].
    intros [|j] m Hj Hm; simpl in Hm.
    + inversion Hm; subst. lia.
    + eapply Hlt; [|done]. lia.
Qed.

Lemma find_id_None l key :
  find_id l key = None -> forall n, n ∈ l -> id n <> key.
Proof.
  induction l as [|n l IH]; intros H m Hm; simpl in H.
  - by apply not_elem_of_nil in Hm.
  - destruct (id n =? key) eqn:E; [done|].
    destruct (find_id l key) eqn:F; simpl in H; [done|].
    apply elem_of_cons in Hm as [->|Hm]; [lia|]. by apply IH.
Qed.

Lemma find_id_present l key n :
  n ∈ l -> id n = key -> is_Some (find_id l key).
Proof.
  intros Hn Hid. destruct (find_id l key) eqn:F; [by eexists|].
  exfalso. by eapply find_id_None.
Qed.

Lemma find_id_lt l key i : find_id l key = Some i -> (i < length l)%nat.
Proof.
  intros H. apply find_id_Some in H as (n & Hn & _).
  by eapply lookup_lt_Some.
Qed.

Lemma live_lookup db i n :
  live db !! i = Some n -> arr_of db !! i = Some n /\ Z.of_nat i < count db.
Proof.
  unfold live. intros H. apply lookup_take_Some in H as [H1 H2]. split; [done|lia].
Qed.

Lemma slot_insert_eq arr i n :
  (i < length arr)%nat -> slot (<[i := n]> arr) i = n.
Proof. intros H. unfold slot. by rewrite list_lookup_insert_eq. Qed.

Lemma slot_insert_ne arr i j n :
  i <> j -> slot (<[i := n]> arr) j = slot arr j.
Proof. intros H. unfold slot. by rewrite list_lookup_insert_ne. Qed.

(** ** Editing *)

Lemma is_nul_true c : is_nul c = true <-> c = NUL.
Proof. unfold is_nul. apply Ascii.eqb_eq. Qed.

Lemma edit_title_absent note a : absent a -> edit_title note a = Some note.
Proof.
  destruct a as [s|]; simpl; [|done]. intros ->. done.
Qed.

Lemma edit_content_absent note a : absent a -> edit_content note a = Some note.
Proof.
  destruct a as [s|]; simpl; [|done]. intros ->. done.
Qed.

(** C10: on an existing id, an edit that supplies no field (title and
    content NULL or empty, tags NULL) returns 1 and stores [now] in the
    note's [modified_at]; the note's id, title, content, tags and
    [created_at], every other slot, and the store's count, capacity and
    [next_id] stay as they were. *)
Theorem cn_note_edit_no_fields key title0 content0 now db i :
  key <> 0 ->
  find_id (live db) key = Some i ->
  absent title0 -> absent content0 ->
  let old := slot (arr_of db) i in
  let (r, db') := cn_note_edit key title0 content0 None now db in
  let new := slot (arr_of db') i in
  r = 1
  /\ modified_at new = now
  /\ id new = id old /\ title new = title old /\ content new = content old
  /\ tags new = tags old /\ created_at new = created_at old
  /\ (forall j, j <> i -> arr_of db' !! j = arr_of db !! j)
  /\ length (arr_of db') = length (arr_of db)
  /\ count db' = count db /\ capacity db' = capacity db
  /\ next_id db' = next_id db.
Proof.
  intros Hk Hf Ht Hc old. subst old. unfold cn_note_edit.
  destruct (key =? 0) eqn:E; [lia|]. rewrite Hf.
  unfold edit_found. rewrite (edit_title_absent _ _ Ht).
  rewrite (edit_content_absent _ _ Hc). cbn [edit_tags arr_of notes].
  assert (i < length (arr_of db))%nat as Hi.
  { apply find_id_Some in Hf as (n & Hn & _).
    apply live_lookup in Hn as [Hn _]. by eapply lookup_lt_Some. }
  rewrite slot_insert_eq by done.
  cbn [count capacity next_id modified_at id title content tags created_at
       set_modified_at].
  repeat split; try done.
  - intros j Hj. by rewrite list_lookup_insert_ne.
  - by rewrite length_insert.
Qed.

(** C2 (the code does otherwise): an edit of note 1 with a valid title
    and a content of 8192 characters returns 0, and yet the title of the
    note has been replaced. *)
Theorem cn_note_edit_partial_commit :
  let (r, db') :=
    cn_note_edit 1 (Some (lit "new")) (Some (replicate (Z.to_nat 8192) "x"%char))
      None 200 store_one in
  r = 0
  /\ cstr (title (slot (arr_of store_one) 0)) = lit "old title"
  /\ cstr (title (slot (arr_of db') 0)) = lit "new".
Proof. vm_compute. repeat split; reflexivity. Qed.

(** C3 (the code does otherwise): adding a note whose title is a single
    space succeeds with id 1, and the title stored is empty. *)
Theorem cn_note_add_blank_title :
  match cn_note_add always zero_note (Some (lit " ")) (Some (lit "x")) None
          100 db_zero with
  | Ok (r, db') =>
      r = 1 /\ count db' = 1 /\ cstr (title (slot (arr_of db') 0)) = []
  | Fatal _ => False
  end.
Proof. vm_compute. repeat split; reflexivity. Qed.

(** ** Deleting *)

Lemma wrap_size_t_small z : 0 <= z <= SIZE_MAX -> wrap_size_t z = z.
Proof. unfold wrap_size_t, SIZE_MAX. intros H. apply Z.mod_small. lia. Qed.

Lemma length_live db :
  wf_db db -> length (live db) = Z.to_nat (count db).
Proof.
  intros (Hlen & Hc & _). unfold live. rewrite length_take. lia.
Qed.

(** Swapping the last live slot into slot [i] and dropping the last
    slot leaves the live notes other than the one at [i]. *)
Lemma swap_remove_perm (arr : list cn_note) (i m : nat) y :
  (i <= m)%nat -> arr !! m = Some y ->
  take m (<[m := zero_note]>
            (if Z.of_nat i <? Z.of_nat m then <[i := y]> arr else arr))
    ≡ₚ delete i (take (S m) arr).
Proof.
  intros Him Hy.
  rewrite take_insert_ge by lia.
  rewrite (take_S_r _ _ _ Hy).
  assert (length (take m arr) = m) as Hlen.
  { rewrite length_take. apply lookup_lt_Some in Hy. lia. }
  destruct (Z.of_nat i <? Z.of_nat m) eqn:E.
  - assert (i < m)%nat as Hlt by lia.
    rewrite take_insert_lt by lia.
    destruct (lookup_lt_is_Some_2 (take m arr) i) as [x Hx]; [lia|].
    rewrite <- (take_drop_middle _ _ _ Hx) at 2.
    rewrite insert_take_drop by lia.
    assert (length (take i (take m arr)) = i) as Hl2.
    { rewrite length_take. lia. }
    rewrite <- app_assoc. simpl.
    replace (delete i (take i (take m arr) ++ x :: drop (S i) (take m arr) ++ [y]))
      with (take i (take m arr) ++ drop (S i) (take m arr) ++ [y]).
    + apply Permutation_app_head. apply Permutation_cons_append.
    + symmetry. rewrite <- Hl2 at 1.
      by rewrite (delete_middle (take i (take m arr))).
  - assert (i = m) as -> by lia.
    rewrite <- Hlen at 2. rewrite (delete_middle (take m arr) []).
    by rewrite app_nil_r.
Qed.

Lemma cn_note_delete_found key db i :
  wf_db db -> key <> 0 -> find_id (live db) key = Some i ->
  exists db',
    cn_note_delete key db = (1, db')
    /\ count db' = count db - 1
    /\ capacity db' = capacity db
    /\ next_id db' = next_id db
    /\ length (arr_of db') = length (arr_of db)
    /\ live db' ≡ₚ delete i (live db).
Proof.
  intros Hwf Hk Hf. pose proof Hwf as (Hlen & Hc & Hcap & Hn).
  pose proof (find_id_lt _ _ _ Hf) as Hi.
  rewrite length_live in Hi by done.
  unfold cn_note_delete. destruct (key =? 0) eqn:E; [lia|]. rewrite Hf.
  rewrite wrap_size_t_small by lia.
  eexists. split; [reflexivity|]. cbn [count capacity next_id].
  split; [done|]. split; [done|]. split; [done|].
  split.
  { cbn [arr_of notes]. rewrite length_insert.
    destruct (_ <? _); [by rewrite length_insert|done]. }
  unfold live at 1. cbn [count arr_of notes].
  set (m := Z.to_nat (count db - 1)).
  assert (is_Some (arr_of db !! m)) as [y Hy].
  { apply lookup_lt_is_Some_2. lia. }
  unfold slot. rewrite Hy.
  replace (count db - 1) with (Z.of_nat m) by lia.
  unfold live. replace (Z.to_nat (count db)) with (S m) by lia.
  apply swap_remove_perm; [lia|done].
Qed.

Lemma NoDup_fmap_delete {A B} (f : A -> B) (l : list A) i :
  NoDup (f <$> l) -> NoDup (f <$> delete i l).
Proof.
  intros H. apply (sublist_NoDup (f <$> delete i l) (f <$> l)); [done|].
  apply fmap_sublist, sublist_delete.
Qed.

Lemma elem_of_delete_unique (l : list cn_note) i x n :
  NoDup (id <$> l) -> l !! i = Some x ->
  n ∈ delete i l <-> n ∈ l /\ id n <> id x.
Proof.
  intros Hnd Hx.
  rewrite <- (take_drop_middle _ _ _ Hx) in Hnd |- * at 1.
  assert (length (take i l) = i) as Hl.
  { rewrite length_take. apply lookup_lt_Some in Hx. lia. }
  replace (delete i (take i l ++ x :: drop (S i) l))
    with (take i l ++ drop (S i) l).
  2:{ rewrite <- Hl at 3. by rewrite delete_middle. }
  rewrite fmap_app, fmap_cons in Hnd.
  apply NoDup_app in Hnd as (Hn1 & Hn2 & Hn3).
  apply NoDup_cons in Hn3 as [Hn3 Hn4].
  rewrite elem_of_app. split.
  - intros [H|H].
    + split; [by eapply elem_of_sublist, sublist_take|].
      intros Heq. apply (Hn2 (id n)).
      * apply list_elem_of_fmap. by exists n.
      * rewrite Heq. left.
    + split; [by eapply elem_of_sublist, sublist_drop|].
      intros Heq. apply Hn3.
      rewrite <- Heq. apply list_elem_of_fmap. by exists n.
  - intros [H Hne]. rewrite <- (take_drop_middle _ _ _ Hx) in H.
    apply elem_of_app in H as [H|H]; [by left|].
    apply elem_of_cons in H as [->|H]; [done|by right].
Qed.

(** C4: in a well-formed store whose live ids are distinct, deleting
    the id of a live note returns 1, lowers [count] by exactly one,
    leaves no live note with that id, and keeps every other live note,
    with all its fields, among the live notes (nothing else appears). *)
Theorem cn_note_delete_live key db :
  wf_db db -> NoDup (ids db) -> key <> 0 -> key ∈ ids db ->
  let (r, db') := cn_note_delete key db in
  r = 1
  /\ count db' = count db - 1
  /\ (key ∉ ids db')
  /\ (forall n, n ∈ live db' <-> n ∈ live db /\ id n <> key)
  /\ wf_db db' /\ NoDup (ids db').
Proof.
  intros Hwf Hnd Hk Hin. unfold ids in *.
  apply list_elem_of_fmap in Hin as (x & Hid & Hx).
  destruct (find_id_present _ _ _ Hx (eq_sym Hid)) as [i Hf].
  destruct (cn_note_delete_found key db i Hwf Hk Hf)
    as (db' & -> & Hc & Hcap & Hn & Hlen & Hperm).
  destruct (find_id_Some _ _ _ Hf) as (x' & Hx' & Hid' & _).
  assert (forall n, n ∈ live db' <-> n ∈ live db /\ id n <> key) as Hmem.
  { intros n. rewrite Hperm.
    rewrite (elem_of_delete_unique _ i x') by done. by rewrite Hid'. }
  split; [done|]. split; [done|]. split.
  { intros Hin. apply list_elem_of_fmap in Hin as (n & Hidn & Hn').
    apply Hmem in Hn' as [_ Hne]. done. }
  split; [done|]. split.
  - destruct Hwf as (H1 & H2 & H3 & H4).
    assert (count db > 0).
    { apply live_lookup in Hx' as [_ ?]. lia. }
    unfold wf_db. rewrite Hlen, Hc, Hcap, Hn. repeat split; lia.
  - rewrite Hperm. by apply NoDup_fmap_delete.
Qed.

(** ** Growth *)

Lemma growth_guard_value :
  SIZE_MAX / GROWTH_FACTOR / sizeof_cn_note = 1026644260558189.
Proof. vm_compute. reflexivity. Qed.

Lemma SIZE_MAX_value : SIZE_MAX = 18446744073709551615.
Proof. vm_compute. reflexivity. Qed.

Lemma growth_full alloc_ok fresh db arr :
  notes db = Some arr ->
  count db = capacity db ->
  0 <= capacity db <= SIZE_MAX ->
  let new_capacity := Z.min (capacity db * GROWTH_FACTOR) MAX_NOTES in
  let grows :=
    (capacity db <=? SIZE_MAX / GROWTH_FACTOR / sizeof_cn_note)
    && (capacity db <? new_capacity)
    && alloc_ok (new_capacity * sizeof_cn_note) in
  ensure_capacity_for_one alloc_ok fresh db =
    Ok (if grows
        then (1, {| notes :=
                      Some (arr ++ replicate
                                     (Z.to_nat (new_capacity - capacity db))
                                     zero_note);
                    count := count db;
                    capacity := new_capacity;
                    next_id := next_id db |})
        else (0, db))
  /\ (capacity db * GROWTH_FACTOR > SIZE_MAX
      \/ new_capacity * sizeof_cn_note > SIZE_MAX -> grows = false)
  /\ (grows = true -> new_capacity * sizeof_cn_note <= SIZE_MAX).
Proof.
  intros Hn Hfull Hcap new_capacity grows.
  assert (capacity db <= SIZE_MAX / GROWTH_FACTOR / sizeof_cn_note ->
          capacity db * GROWTH_FACTOR <= SIZE_MAX
          /\ new_capacity * sizeof_cn_note <= SIZE_MAX) as Hfit.
  { rewrite growth_guard_value. subst new_capacity.
    unfold GROWTH_FACTOR, sizeof_cn_note, MAX_NOTES. rewrite SIZE_MAX_value.
    lia. }
  split; [|split].
  - unfold ensure_capacity_for_one. rewrite Hn.
    destruct (count db <? capacity db) eqn:E1; [lia|].
    subst grows.
    destruct (capacity db >? SIZE_MAX / GROWTH_FACTOR / sizeof_cn_note) eqn:E2.
    { replace (capacity db <=? SIZE_MAX / GROWTH_FACTOR / sizeof_cn_note)
        with false by lia. done. }
    replace (capacity db <=? SIZE_MAX / GROWTH_FACTOR / sizeof_cn_note)
      with true by lia.
    destruct Hfit as [Hf1 Hf2]; [lia|].
    assert (0 <= capacity db * GROWTH_FACTOR) by (unfold GROWTH_FACTOR; lia).
    rewrite (wrap_size_t_small (capacity db * GROWTH_FACTOR)) by lia.
    replace (if capacity db * GROWTH_FACTOR >? MAX_NOTES then MAX_NOTES
             else capacity db * GROWTH_FACTOR) with new_capacity
      by (subst new_capacity; unfold MAX_NOTES, GROWTH_FACTOR;
          destruct (capacity db * 2 >? 1000000) eqn:E3; lia).
    assert (0 <= new_capacity)
      by (subst new_capacity; unfold MAX_NOTES, GROWTH_FACTOR; lia).
    destruct (new_capacity <=? capacity db) eqn:E4.
    { replace (capacity db <? new_capacity) with false by lia. done. }
    replace (capacity db <? new_capacity) with true by lia.
    cbn [andb].
    rewrite (wrap_size_t_small (new_capacity * sizeof_cn_note))
      by (unfold sizeof_cn_note in *; lia).
    destruct (alloc_ok (new_capacity * sizeof_cn_note)); [|done].
    cbn [negb].
    rewrite (wrap_size_t_small (capacity db * sizeof_cn_note))
      by (unfold sizeof_cn_note in *; lia).
    replace (new_capacity * sizeof_cn_note >? capacity db * sizeof_cn_note)
      with true by (unfold sizeof_cn_note; lia).
    done.
  - intros Hov. subst grows.
    destruct (capacity db <=? SIZE_MAX / GROWTH_FACTOR / sizeof_cn_note) eqn:E;
      [|done].
    destruct Hfit; lia.
  - intros Hg. subst grows.
    destruct (capacity db <=? SIZE_MAX / GROWTH_FACTOR / sizeof_cn_note) eqn:E;
      [|done].
    destruct Hfit; lia.
Qed.

(** C6: on a full, allocated store, growth takes [capacity * 2] clamped
    to [MAX_NOTES]; it returns 0 and changes nothing when the guard
    against overflow fires, when the clamped capacity does not exceed
    the current one, or when realloc fails; otherwise it returns 1, the
    old slots keep their values and the new slots are zero.  A product
    [capacity * 2] or [new_capacity * sizeof(cn_note)] that would not
    fit [size_t] is always refused, and on growth the byte size fits. *)
Theorem ensure_capacity_for_one_full alloc_ok fresh db arr :
  notes db = Some arr ->
  count db = capacity db ->
  0 <= capacity db <= SIZE_MAX ->
  let new_capacity := Z.min (capacity db * GROWTH_FACTOR) MAX_NOTES in
  let grows :=
    (capacity db <=? SIZE_MAX / GROWTH_FACTOR / sizeof_cn_note)
    && (capacity db <? new_capacity)
    && alloc_ok (new_capacity * sizeof_cn_note) in
  ensure_capacity_for_one alloc_ok fresh db =
    Ok (if grows
        then (1, {| notes :=
                      Some (arr ++ replicate
                                     (Z.to_nat (new_capacity - capacity db))
                                     zero_note);
                    count := count db;
                    capacity := new_capacity;
                    next_id := next_id db |})
        else (0, db))
  /\ (capacity db * GROWTH_FACTOR > SIZE_MAX
      \/ new_capacity * sizeof_cn_note > SIZE_MAX -> grows = false)
  /\ (grows = true -> new_capacity * sizeof_cn_note <= SIZE_MAX).
Proof. apply growth_full. Qed.

Lemma wf_db_zero : wf_db db_zero.
Proof. unfold wf_db, db_zero, SIZE_MAX, UINT_MAX. simpl. lia. Qed.

(** Whenever [ensure_capacity_for_one] returns 1 there is a free slot,
    and the live notes are those of before. *)
Lemma ensure_capacity_ok alloc_ok fresh db ok db1 :
  wf_db db ->
  ensure_capacity_for_one alloc_ok fresh db = Ok (ok, db1) ->
  ok <> 0 ->
  wf_db db1
  /\ notes db1 <> None
  /\ live db1 = live db
  /\ count db1 = count db
  /\ count db1 < capacity db1
  /\ next_id db1 = match notes db with None => 1 | Some _ => next_id db end
  /\ (forall n, n ∈ arr_of db1 -> n ∈ arr_of db \/ n = zero_note).
Proof.
  intros Hwf He Hok. pose proof Hwf as (Hlen & Hc & Hcap & Hn).
  destruct (notes db) as [arr|] eqn:Hnotes.
  - destruct (count db <? capacity db) eqn:E1.
    + unfold ensure_capacity_for_one in He. rewrite Hnotes, E1 in He.
      inversion He; subst. rewrite Hnotes.
      repeat split; try done; try lia. intros n. by left.
    + destruct (growth_full alloc_ok fresh db arr Hnotes) as (Heq & _ & Hfit);
        [lia|lia|].
      rewrite Heq in He. clear Heq.
      destruct (_ && _ && _) eqn:G; inversion He; subst; [|done].
      specialize (Hfit eq_refl).
      apply andb_prop in G as [G _]. apply andb_prop in G as [_ G].
      assert (arr_of db = arr) as Harr by (unfold arr_of; by rewrite Hnotes).
      rewrite Harr in Hlen.
      repeat split; cbn [notes count capacity next_id arr_of]; try done;
        try lia.
      * rewrite length_app, length_replicate. lia.
      * unfold sizeof_cn_note in Hfit. lia.
      * unfold live. cbn [count arr_of notes]. rewrite Harr.
        rewrite take_app_le by lia. done.
      * intros n Hin. apply elem_of_app in Hin as [Hin|Hin].
        -- left. by rewrite Harr.
        -- right. by apply elem_of_replicate in Hin as [-> _].
  - unfold ensure_capacity_for_one, cn_db_init in He. rewrite Hnotes in He.
    destruct (alloc_ok _); [|done].
    set (zs := replicate (Z.to_nat INITIAL_CAPACITY) zero_note) in He.
    assert (length zs = Z.to_nat INITIAL_CAPACITY) as Hzl
      by apply length_replicate.
    assert (forall n, n ∈ zs -> n = zero_note) as Hz.
    { intros n Hin. by apply elem_of_replicate in Hin as [-> _]. }
    clearbody zs. injection He as <- <-.
    unfold wf_db, live. cbn [notes count capacity next_id arr_of].
    unfold arr_of in *. rewrite Hnotes in *. cbn [length] in Hlen.
    rewrite Hzl.
    unfold INITIAL_CAPACITY, SIZE_MAX, UINT_MAX in *.
    repeat split; try done; try lia.
    + replace (count db) with 0 by lia. done.
    + intros n Hin. right. by apply Hz.
Qed.

Lemma wrap_uint_succ z :
  0 <= z <= UINT_MAX ->
  (if wrap_uint (z + 1) =? 0 then 1 else wrap_uint (z + 1))
  = if z =? UINT_MAX then 1 else z + 1.
Proof.
  unfold wrap_uint, UINT_MAX. intros H.
  destruct (z =? 2 ^ 32 - 1) eqn:E.
  - replace z with (2 ^ 32 - 1) by lia. vm_compute. reflexivity.
  - rewrite Z.mod_small by lia. destruct (z + 1 =? 0) eqn:E2; lia.
Qed.

Lemma write_note_fields old nid t c g0 now :
  let note := write_note old nid t c g0 now in
  id note = nid
  /\ title note =
       cn_strip_whitespace (cn_safe_strncpy (title old) (Some t) MAX_TITLE_LEN)
  /\ content note =
       cn_strip_whitespace
         (cn_safe_strncpy (content old) (Some c) MAX_CONTENT_LEN)
  /\ tags note =
       cn_strip_whitespace
         (match g0 with
          | Some g =>
              if negb (is_nul (char_at g 0))
              then cn_safe_strncpy (tags old) (Some g) MAX_TAGS_LEN
              else <[O := NUL]> (tags old)
          | None => <[O := NUL]> (tags old)
          end)
  /\ created_at note = now /\ modified_at note = now.
Proof.
  unfold write_note. destruct g0 as [g|]; [destruct (negb _)|];
    repeat split; reflexivity.
Qed.

Lemma write_note_id old nid t c g0 now :
  id (write_note old nid t c g0 now) = nid.
Proof. apply write_note_fields. Qed.

(** What a call of [cn_note_add] does: it refuses and changes nothing,
    or it appends one note carrying the counter's value. *)
Lemma cn_note_add_spec alloc_ok fresh t0 c0 g0 now db r db' :
  wf_db db ->
  cn_note_add alloc_ok fresh t0 c0 g0 now db = Ok (r, db') ->
  (r = 0 /\ db' = db)
  \/ exists db1 ok t c,
       t0 = Some t /\ c0 = Some c
       /\ ensure_capacity_for_one alloc_ok fresh db = Ok (ok, db1)
       /\ ok <> 0
       /\ count db < MAX_NOTES
       /\ let note :=
            write_note (slot (arr_of db1) (Z.to_nat (count db)))
              (next_id db1) t c g0 now in
          r = next_id db1
          /\ arr_of db' = <[Z.to_nat (count db) := note]> (arr_of db1)
          /\ live db' = live db ++ [note]
          /\ count db' = count db + 1
          /\ capacity db' = capacity db1
          /\ next_id db' =
               (if next_id db1 =? UINT_MAX then 1 else next_id db1 + 1)
          /\ wf_db db'.
Proof.
  intros Hwf Ha. unfold cn_note_add in Ha.
  destruct t0 as [t|]; [|injection Ha as <- <-; by left].
  destruct c0 as [c|]; [|injection Ha as <- <-; by left].
  destruct (_ || _) in Ha; [injection Ha as <- <-; by left|].
  destruct (_ || _) in Ha; [injection Ha as <- <-; by left|].
  destruct (match g0 with Some g => too_long g MAX_TAGS_LEN | None => false end)
    in Ha; [injection Ha as <- <-; by left|].
  destruct (count db >=? MAX_NOTES) eqn:Emax; [done|].
  destruct (ensure_capacity_for_one alloc_ok fresh db) as [[ok db1]|] eqn:He;
    [|done].
  destruct (ok =? 0) eqn:Eok; [done|].
  assert (ok <> 0) as Hok by lia.
  destruct (ensure_capacity_ok _ _ _ _ _ Hwf He Hok)
    as (Hwf1 & Hnn & Hlive & Hcount & Hroom & Hnid & _).
  pose proof Hwf1 as (Hlen1 & Hc1 & Hcap1 & Hn1).
  right. rewrite Hcount in *.
  rewrite wrap_size_t_small in Ha by lia. rewrite wrap_uint_succ in Ha by lia.
  exists db1, ok, t, c.
  split; [done|]. split; [done|]. split; [done|]. split; [done|].
  split; [lia|]. intros note.
  assert (id note = next_id db1) as Hid by apply write_note_id.
  fold note in Ha. clearbody note. injection Ha as <- <-.
  cbn [arr_of notes count capacity next_id].
  split; [done|]. split; [done|].
  split.
  { unfold live. cbn [count arr_of notes].
    replace (Z.to_nat (count db + 1)) with (S (Z.to_nat (count db))) by lia.
    erewrite take_S_r.
    2:{ apply list_lookup_insert_eq. lia. }
    rewrite take_insert_ge by lia. f_equal.
    unfold live in Hlive. by rewrite Hcount in Hlive. }
  split; [done|]. split; [done|]. split; [done|].
  unfold wf_db. cbn [count capacity next_id arr_of notes].
  rewrite length_insert. unfold UINT_MAX in *.
  repeat split; try lia; destruct (next_id db1 =? 2 ^ 32 - 1) eqn:E; lia.
Qed.

(** ** The id counter *)

Lemma edit_title_id n t0 n1 : edit_title n t0 = Some n1 -> id n1 = id n.
Proof.
  unfold edit_title. intros H.
  destruct t0 as [t|]; [destruct (negb _); [destruct (too_long _ _)|]|];
    by simplify_eq.
Qed.

Lemma edit_content_id n c0 n1 : edit_content n c0 = Some n1 -> id n1 = id n.
Proof.
  unfold edit_content. intros H.
  destruct c0 as [c|]; [destruct (negb _); [destruct (too_long _ _)|]|];
    by simplify_eq.
Qed.

Lemma edit_tags_id n g0 n1 : edit_tags n g0 = Some n1 -> id n1 = id n.
Proof.
  unfold edit_tags. intros H.
  destruct g0 as [g|]; [destruct (too_long _ _)|]; by simplify_eq.
Qed.

Lemma edit_found_id n t0 c0 g0 now :
  id (snd (edit_found n t0 c0 g0 now)) = id n.
Proof.
  unfold edit_found.
  destruct (edit_title n t0) as [n1|] eqn:E1; [|done].
  apply edit_title_id in E1.
  destruct (edit_content n1 c0) as [n2|] eqn:E2; [|done].
  apply edit_content_id in E2.
  destruct (edit_tags n2 g0) as [n3|] eqn:E3; cbn [snd]; [|congruence].
  apply edit_tags_id in E3. cbn [id set_modified_at]. congruence.
Qed.

(** An edit rewrites at most the slot found, and never its id. *)
Lemma cn_note_edit_spec key t0 c0 g0 now db :
  let db' := snd (cn_note_edit key t0 c0 g0 now db) in
  count db' = count db
  /\ capacity db' = capacity db
  /\ next_id db' = next_id db
  /\ (db' = db
      \/ exists i,
           find_id (live db) key = Some i
           /\ (i < length (arr_of db))%nat
           /\ arr_of db' =
                <[i := snd (edit_found (slot (arr_of db) i) t0 c0 g0 now)]>
                  (arr_of db)).
Proof.
  unfold cn_note_edit. destruct (key =? 0); [by repeat split; try left|].
  destruct (find_id (live db) key) as [i|] eqn:Hf;
    [|by repeat split; try left].
  destruct (edit_found _ _ _ _ _) as [r note] eqn:He.
  cbn [snd count capacity next_id arr_of notes].
  split; [done|]. split; [done|]. split; [done|].
  right. exists i. split; [done|]. split; [|by rewrite He].
  apply find_id_Some in Hf as (n & Hn & _).
  apply live_lookup in Hn as [Hn _]. by eapply lookup_lt_Some.
Qed.

Lemma cn_note_edit_ids key t0 c0 g0 now db :
  let db' := snd (cn_note_edit key t0 c0 g0 now db) in
  ids db' = ids db /\ length (arr_of db') = length (arr_of db).
Proof.
  intros db'.
  destruct (cn_note_edit_spec key t0 c0 g0 now db) as (Hc & _ & _ & H).
  fold db' in Hc, H. destruct H as [->|(i & Hf & Hi & Harr)]; [done|].
  unfold ids, live. rewrite Hc, Harr. split; [|by rewrite length_insert].
  rewrite !fmap_take. f_equal. rewrite list_fmap_insert.
  rewrite edit_found_id. apply list_insert_id.
  rewrite list_lookup_fmap. unfold slot.
  destruct (lookup_lt_is_Some_2 _ _ Hi) as [n ->]. done.
Qed.

Lemma store_inv_zero : store_inv db_zero.
Proof.
  split; [apply wf_db_zero|]. unfold ids, live, db_zero. simpl.
  split; [constructor|]. split; [|done].
  intros k Hk. by apply not_elem_of_nil in Hk.
Qed.

Lemma store_inv_add alloc_ok fresh t0 c0 g0 now db r db' :
  store_inv db ->
  cn_note_add alloc_ok fresh t0 c0 g0 now db = Ok (r, db') ->
  r <> UINT_MAX ->
  store_inv db'.
Proof.
  intros (Hwf & Hnd & Hlt & Hpos) Ha Hr.
  destruct (cn_note_add_spec _ _ _ _ _ _ _ _ _ Hwf Ha)
    as [[-> ->]|(db1 & ok & t & c & _ & _ & He & Hok & _ & H)]; [done|].
  destruct H as (-> & Harr & Hlive & Hc & Hcap & Hnid & Hwf').
  destruct (ensure_capacity_ok _ _ _ _ _ Hwf He Hok)
    as (_ & _ & _ & _ & _ & Hn1 & _).
  assert (1 <= next_id db1 /\ forall k, k ∈ ids db -> k < next_id db1)
    as [Hge Hbelow].
  { destruct (notes db) as [arr|] eqn:Hnotes.
    - rewrite Hn1. split; [by apply Hpos|]. intros k Hk. by apply Hlt.
    - split; [lia|]. intros k Hk. exfalso.
      unfold ids, live, arr_of in Hk. rewrite Hnotes, take_nil in Hk.
      by apply not_elem_of_nil in Hk. }
  destruct (next_id db1 =? UINT_MAX) eqn:E; [lia|].
  assert (ids db' = ids db ++ [next_id db1]) as Hids.
  { unfold ids. rewrite Hlive, fmap_app. f_equal.
    cbn [fmap list_fmap]. f_equal. apply write_note_id. }
  split; [done|]. rewrite Hids, Hnid. split; [|split].
  - apply NoDup_app. split; [done|]. split; [|apply NoDup_singleton].
    intros k Hk Hk'. apply list_elem_of_singleton in Hk'. subst k.
    specialize (Hbelow _ Hk). lia.
  - intros k Hk. apply elem_of_app in Hk as [Hk|Hk].
    + specialize (Hbelow _ Hk). specialize (Hlt _ Hk). lia.
    + apply list_elem_of_singleton in Hk. lia.
  - lia.
Qed.

Lemma store_inv_delete key db :
  store_inv db -> store_inv (snd (cn_note_delete key db)).
Proof.
  intros (Hwf & Hnd & Hlt & Hpos).
  destruct (decide (key = 0)) as [->|Hk]; [done|].
  destruct (find_id (live db) key) as [i|] eqn:Hf.
  - destruct (cn_note_delete_found key db i Hwf Hk Hf)
      as (db' & -> & Hc & Hcap & Hn & Hlen & Hperm).
    cbn [snd].
    assert (count db > 0).
    { apply find_id_Some in Hf as (x & Hx & _).
      apply live_lookup in Hx as [_ ?]. lia. }
    split.
    { destruct Hwf as (H1 & H2 & H3 & H4).
      unfold wf_db. rewrite Hlen, Hc, Hcap, Hn. repeat split; lia. }
    unfold ids. rewrite Hperm, Hn. split; [by apply NoDup_fmap_delete|].
    split.
    + intros k Hin. apply Hlt. unfold ids. rewrite Hperm in Hin.
      eapply elem_of_sublist; [exact Hin|].
      apply fmap_sublist, sublist_delete.
    + intros Hne. apply Hpos. intros Hnone.
      unfold live, arr_of in Hf. rewrite Hnone, take_nil in Hf. done.
  - unfold cn_note_delete. destruct (key =? 0); [done|]. by rewrite Hf.
Qed.

Lemma store_inv_edit key t0 c0 g0 now db :
  store_inv db -> store_inv (snd (cn_note_edit key t0 c0 g0 now db)).
Proof.
  intros (Hwf & Hnd & Hlt & Hpos).
  destruct (cn_note_edit_spec key t0 c0 g0 now db) as (Hc & Hcap & Hn & H).
  destruct (cn_note_edit_ids key t0 c0 g0 now db) as (Hids & Hlen).
  set (db' := snd _) in *.
  split.
  { destruct Hwf as (H1 & H2 & H3 & H4).
    unfold wf_db. rewrite Hlen, Hc, Hcap, Hn. done. }
  rewrite Hids, Hn. split; [done|]. split; [done|].
  intros Hne. apply Hpos. destruct H as [Heq|(i & Hf & _)].
  - by rewrite <- Heq.
  - intros Hnone. unfold live, arr_of in Hf. rewrite Hnone, take_nil in Hf.
    done.
Qed.

Lemma run_no_wrap_inv alloc_ok fresh ops db :
  store_inv db ->
  wraps alloc_ok fresh ops db = false ->
  match run alloc_ok fresh ops db with
  | Ok db' => store_inv db'
  | Fatal _ => True
  end.
Proof.
  revert db. induction ops as [|o ops IH]; intros db Hinv Hw; [done|].
  cbn [run wraps] in *.
  destruct (step alloc_ok fresh o db) as [[r db']|m] eqn:Hs; [|done].
  destruct o as [t c g now|k t c g now|k]; cbn [step] in Hs.
  - apply orb_false_elim in Hw as [Hr Hw]. apply IH; [|done].
    eapply store_inv_add; [done|done|lia].
  - injection Hs as Hs. apply IH; [|done].
    replace db' with (snd (cn_note_edit k t c g now db)) by (by rewrite Hs).
    by apply store_inv_edit.
  - injection Hs as Hs. apply IH; [|done].
    replace db' with (snd (cn_note_delete k db)) by (by rewrite Hs).
    by apply store_inv_delete.
Qed.

Lemma store_inv_fresh : store_inv db_fresh.
Proof.
  unfold store_inv, wf_db, ids, live, db_fresh.
  cbn [arr_of notes count capacity next_id].
  rewrite length_replicate. change (Z.to_nat 0) with O. rewrite take_0.
  unfold INITIAL_CAPACITY, SIZE_MAX, UINT_MAX.
  split_and!; try lia.
  - constructor.
  - intros k Hk. by apply not_elem_of_nil in Hk.
Qed.

(** C5: run any sequence of add and delete calls (edits may be mixed
    in) from the empty store, be it the zeroed store of a starting
    process or the store [cn_db_init] makes of it; if the run is not cut
    short by a fatal exit and the id counter did not wrap during it, the
    live notes of the final store have pairwise distinct ids. *)
Theorem ids_unique_until_wrap alloc_ok fresh ops d0 :
  d0 = db_zero \/ d0 = db_fresh ->
  wraps alloc_ok fresh ops d0 = false ->
  match run alloc_ok fresh ops d0 with
  | Ok db => NoDup (ids db)
  | Fatal _ => True
  end.
Proof.
  intros Hd Hw.
  assert (store_inv d0) as Hinv.
  { destruct Hd as [->| ->]; [apply store_inv_zero|apply store_inv_fresh]. }
  pose proof (run_no_wrap_inv alloc_ok fresh ops d0 Hinv Hw) as H.
  destruct (run alloc_ok fresh ops d0); [|done]. apply H.
Qed.

(** ** Loading *)

Lemma cn_db_init_fresh alloc_ok db :
  notes db = None ->
  alloc_ok (INITIAL_CAPACITY * sizeof_cn_note) = true ->
  cn_db_init alloc_ok db = Ok db_fresh.
Proof. intros Hn Ha. unfold cn_db_init. by rewrite Hn, Ha. Qed.

Lemma fread_item_length size f bs f' :
  0 <= size -> fread_item size f = Some (bs, f') ->
  Z.of_nat (length bs) = size
  /\ Z.of_nat (length f') = Z.of_nat (length f) - size
  /\ f = bs ++ f'.
Proof.
  unfold fread_item. intros Hs H. destruct (size <=? _) eqn:E; [|done].
  injection H as <- <-. rewrite length_take, length_drop, take_drop.
  repeat split; lia.
Qed.

Lemma le_value_bounds bs : 0 <= le_value bs < 256 ^ Z.of_nat (length bs).
Proof.
  induction bs as [|b bs IH]; [simpl; lia|].
  cbn [le_value length]. rewrite Nat2Z.inj_succ, Z.pow_succ_r by lia.
  assert (0 <= code b < 256) as Hb.
  { unfold code. pose proof (N_ascii_bounded b). lia. }
  lia.
Qed.

(** A file too short for [n] records yields fewer than [n] of them. *)
Lemma fread_notes_short n body :
  Z.of_nat (length body) < Z.of_nat n * sizeof_cn_note ->
  (length (fread_notes n body) < n)%nat.
Proof.
  revert body. induction n as [|n IH]; intros body H.
  - unfold sizeof_cn_note in H. lia.
  - cbn [fread_notes].
    destruct (fread_item sizeof_cn_note body) as [[bs f']|] eqn:E;
      [|simpl; lia].
    apply fread_item_length in E as (_ & Hl & _); [|by unfold sizeof_cn_note].
    cbn [length]. apply -> Nat.succ_lt_mono. apply IH. lia.
Qed.

Lemma length_fread_notes n body : (length (fread_notes n body) <= n)%nat.
Proof.
  revert body. induction n as [|n IH]; intros body; [done|].
  cbn [fread_notes]. destruct (fread_item _ _) as [[bs f']|]; simpl; [|lia].
  specialize (IH f'). lia.
Qed.


Lemma cn_db_init_result alloc_ok db :
  notes db = None ->
  cn_db_init alloc_ok db
  = if alloc_ok (INITIAL_CAPACITY * sizeof_cn_note) then Ok db_fresh
    else Fatal "Failed to allocate memory for database".
Proof. intros Hn. unfold cn_db_init. by rewrite Hn. Qed.

(** C9, as the code has it: a fresh process (no array yet) that finds
    no path, no file, or a malformed file returns from [cn_db_load]
    with the fresh empty store (count 0, next id 1) exactly when the
    allocations it asks for succeed: the initial array and, for a file
    whose header passes the checks and whose records fall short, the
    array sized from the header's count, requested before the records
    are read.  When one of them fails the load ends in the fatal exit
    of an allocation failure, and in no other. *)
Theorem cn_db_load_recovers alloc_ok path fs db :
  notes db = None ->
  match fs !! path with
  | None => True
  | Some f => malformed f
  end ->
  cn_db_load alloc_ok path fs db
  = (if load_allocs_ok alloc_ok
          (if String.eqb path "" then None else fs !! path)
     then Ok db_fresh
     else Fatal "Failed to allocate memory for database")
  /\ count db_fresh = 0 /\ next_id db_fresh = 1 /\ live db_fresh = [].
Proof.
  intros Hn Hm. split; [|done].
  pose proof (cn_db_init_result alloc_ok db Hn) as Hinit.
  unfold cn_db_load, load_allocs_ok.
  destruct (String.eqb path ""); [by rewrite Hinit, andb_true_r|].
  destruct (fs !! path) as [f|]; [|by rewrite Hinit, andb_true_r].
  unfold malformed in Hm. unfold read_header in *.
  destruct (fread_item 8 f) as [[b1 f1]|]; [|by rewrite Hinit, andb_true_r].
  destruct (fread_item 4 f1) as [[b2 f2]|]; [|by rewrite Hinit, andb_true_r].
  destruct ((le_value b1 >? MAX_NOTES) || (le_value b2 =? 0)) eqn:E;
    [by rewrite Hinit, andb_true_r|].
  apply orb_false_elim in E as [E1 E2].
  destruct Hm as [Hm|[Hm|Hm]]; [lia|lia|].
  pose proof (le_value_bounds b1) as [Hb _].
  destruct (le_value b1 =? 0) eqn:E3.
  { unfold sizeof_cn_note in Hm. lia. }
  unfold load_capacity. cbv zeta. cbn [orb].
  set (cap := if (_ <? _) && (_ <=? MAX_NOTES) then _ else _).
  destruct (alloc_ok (cap * sizeof_cn_note));
    cbn [negb]; [|by rewrite andb_false_r].
  pose proof (fread_notes_short (Z.to_nat (le_value b1)) f2) as Hs.
  rewrite Z2Nat.id in Hs by lia. specialize (Hs Hm).
  replace (Z.of_nat (length (fread_notes (Z.to_nat (le_value b1)) f2))
           =? le_value b1) with false by lia.
  cbn [negb]. by rewrite Hinit, andb_true_r.
Qed.

(** C9, the claim as worded fails: a snapshot that is only a header
    with the count [MAX_NOTES] is malformed (it holds no record), and
    with an allocator that grants the initial array but no block of a
    gigabyte the load does not return the fresh store: the array for a
    million notes is requested before the records are read, and the
    process exits. *)
Lemma cn_db_load_corrupt_count_exits :
  malformed corrupt_count_file
  /\ alloc_up_to (2 ^ 30) (INITIAL_CAPACITY * sizeof_cn_note) = true
  /\ cn_db_load (alloc_up_to (2 ^ 30)) example_path
       {[ example_path := corrupt_count_file ]} db_zero
     = Fatal "Failed to allocate memory for database".
Proof.
  split; [|split; vm_compute; reflexivity].
  unfold malformed.
  assert (read_header corrupt_count_file = Some (MAX_NOTES, 1, [])) as ->
    by (vm_compute; reflexivity).
  right. right. vm_compute. reflexivity.
Qed.

(** ** C strings in buffers *)

Lemma is_nul_false c : is_nul c = false <-> c <> NUL.
Proof. unfold is_nul. apply Ascii.eqb_neq. Qed.

Lemma isspace_NUL : isspace NUL = false.
Proof. reflexivity. Qed.

Lemma isspace_not_nul c : isspace c = true -> c <> NUL.
Proof. intros H ->. by rewrite isspace_NUL in H. Qed.

Lemma strlen_le s : (strlen s <= length s)%nat.
Proof.
  induction s as [|c s IH]; simpl; [lia|]. destruct (is_nul c); simpl; lia.
Qed.

Lemma strlen_no_nul v : NUL ∉ v -> strlen v = length v.
Proof.
  induction v as [|c v IH]; intros H; [done|]. simpl.
  apply not_elem_of_cons in H as [Hc Hv].
  destruct (is_nul c) eqn:E; [by apply is_nul_true in E|]. by rewrite IH.
Qed.

Lemma strlen_app_nul v R : NUL ∉ v -> strlen (v ++ NUL :: R) = length v.
Proof.
  induction v as [|c v IH]; intros H; [done|]. simpl.
  apply not_elem_of_cons in H as [Hc Hv].
  destruct (is_nul c) eqn:E; [by apply is_nul_true in E|]. by rewrite IH.
Qed.

Lemma cstr_app_nul v R : NUL ∉ v -> cstr (v ++ NUL :: R) = v.
Proof.
  intros H. unfold cstr. rewrite strlen_app_nul by done.
  by rewrite take_app_length.
Qed.

Lemma cstr_no_nul s : NUL ∉ cstr s.
Proof.
  unfold cstr. induction s as [|c s IH]; simpl; [apply not_elem_of_nil|].
  destruct (is_nul c) eqn:E; simpl; [apply not_elem_of_nil|].
  apply not_elem_of_cons. split; [|done].
  apply is_nul_false in E. congruence.
Qed.

(** A buffer that holds a NUL is its string, the NUL, and the rest. *)
Lemma cstr_split s :
  NUL ∈ s -> s = cstr s ++ NUL :: drop (S (strlen s)) s.
Proof.
  unfold cstr. induction s as [|c s IH]; intros H.
  - by apply not_elem_of_nil in H.
  - simpl. destruct (is_nul c) eqn:E.
    + apply is_nul_true in E. subst c. simpl. by rewrite drop_0.
    + apply elem_of_cons in H as [H|H].
      * apply is_nul_false in E. congruence.
      * simpl. f_equal. by apply IH.
Qed.

Lemma last_nul_elem s : last s = Some NUL -> NUL ∈ s.
Proof. apply last_Some_elem_of. Qed.

Lemma cstr_nil_iff s : cstr s = [] <-> char_at s 0 = NUL.
Proof.
  unfold cstr, char_at. destruct s as [|c s]; simpl; [done|].
  destruct (is_nul c) eqn:E; simpl.
  - apply is_nul_true in E. done.
  - apply is_nul_false in E. split; [done|]. intros ->; done.
Qed.

(** *** [lstrip], [rstrip] *)

Lemma lstrip_suffix v : exists p, v = p ++ lstrip v /\ Forall (fun c => isspace c = true) p.
Proof.
  induction v as [|c v (p & Hp & Hs)]; [by exists []|]. simpl.
  destruct (isspace c) eqn:E.
  - exists (c :: p). split; [by rewrite Hp at 1|]. by constructor.
  - by exists [].
Qed.

Lemma lstrip_no_nul v : NUL ∉ v -> NUL ∉ lstrip v.
Proof.
  intros H Hin. apply H. destruct (lstrip_suffix v) as (p & -> & _).
  apply elem_of_app. by right.
Qed.

Lemma rstrip_no_nul v : NUL ∉ v -> NUL ∉ rstrip v.
Proof.
  intros H. unfold rstrip. rewrite elem_of_reverse.
  apply lstrip_no_nul. by rewrite elem_of_reverse.
Qed.

Lemma trim_no_nul v : NUL ∉ v -> NUL ∉ trim v.
Proof. intros H. by apply lstrip_no_nul, rstrip_no_nul. Qed.

Lemma rstrip_snoc v c :
  rstrip (v ++ [c]) = if isspace c then rstrip v else v ++ [c].
Proof.
  unfold rstrip. rewrite reverse_snoc. simpl.
  destruct (isspace c); [done|]. by rewrite reverse_cons, reverse_involutive.
Qed.

Lemma lstrip_length v : (length (lstrip v) <= length v)%nat.
Proof.
  destruct (lstrip_suffix v) as (p & Hp & _).
  rewrite Hp at 2. rewrite length_app. lia.
Qed.

Lemma rstrip_length v : (length (rstrip v) <= length v)%nat.
Proof.
  unfold rstrip. rewrite length_reverse.
  pose proof (lstrip_length (reverse v)) as H. by rewrite length_reverse in H.
Qed.

Lemma leading_spaces_lstrip v R :
  NUL ∉ v -> drop (leading_spaces (v ++ NUL :: R)) v = lstrip v
  /\ (leading_spaces (v ++ NUL :: R) + length (lstrip v) = length v)%nat.
Proof.
  induction v as [|c v IH]; intros H; simpl.
  - done.
  - apply not_elem_of_cons in H as [Hc Hv].
    replace (is_nul c) with false by (symmetry; apply is_nul_false; congruence).
    cbn [negb andb]. destruct (isspace c) eqn:E; simpl; [|done].
    destruct (IH Hv) as [IH1 IH2]. split; [done|lia].
Qed.

(** *** [cn_strip_whitespace] on a buffer *)

Lemma replicate_nul_shift k (tl : list ascii) :
  replicate k NUL ++ NUL :: tl = NUL :: replicate k NUL ++ tl.
Proof. induction k as [|k IH]; simpl; [done|]. by rewrite IH. Qed.

Lemma strip_trailing_shape s len :
  (len <= length s)%nat ->
  let v := rstrip (take len s) in
  strip_trailing s len = v ++ replicate (len - length v) NUL ++ drop len s.
Proof.
  revert s. induction len as [|l IH]; intros s Hl v; subst v.
  - done.
  - cbn [strip_trailing].
    destruct (lookup_lt_is_Some_2 s l) as [c Hc]; [lia|].
    unfold char_at. rewrite Hc. rewrite (take_S_r _ _ _ Hc), rstrip_snoc.
    destruct (isspace c) eqn:E.
    + rewrite IH by (rewrite length_insert; lia).
      rewrite take_insert_ge by lia.
      rewrite drop_insert_ge, Nat.sub_diag by lia.
      rewrite (drop_S _ _ _ Hc). cbn [insert list_insert].
      pose proof (rstrip_length (take l s)) as Hr.
      rewrite length_take in Hr.
      rewrite replicate_nul_shift.
      replace (S l - length (rstrip (take l s)))%nat
        with (S (l - length (rstrip (take l s)))) by lia.
      done.
    + rewrite length_app, length_take. cbn [length].
      replace (S l - (l `min` length s + 1))%nat with O by lia.
      cbn [replicate app]. rewrite <- (take_S_r _ _ _ Hc).
      by rewrite take_drop.
Qed.

Lemma last_nul_cons_replicate k (tl : list ascii) :
  last (NUL :: tl) = Some NUL -> last (NUL :: replicate k NUL ++ tl) = Some NUL.
Proof.
  intros H. destruct tl as [|x tl].
  - rewrite app_nil_r. change (NUL :: replicate k NUL) with (replicate (S k) NUL).
    rewrite replicate_S_end. apply last_snoc.
  - rewrite last_cons_cons in H.
    change (NUL :: replicate k NUL ++ x :: tl)
      with ((NUL :: replicate k NUL) ++ x :: tl).
    by rewrite last_app_cons.
Qed.

(** The buffer after trimming: the trimmed string, its terminator, and
    bytes that do not matter; as long as before, and still ending in
    NUL when it did. *)
Lemma strip_whitespace_shape s :
  NUL ∈ s ->
  exists R,
    cn_strip_whitespace s = trim (cstr s) ++ NUL :: R
    /\ length (trim (cstr s) ++ NUL :: R) = length s
    /\ (last s = Some NUL -> last (NUL :: R) = Some NUL).
Proof.
  intros Hin. pose proof (cstr_split s Hin) as Hs.
  pose proof (cstr_no_nul s) as Hv.
  unfold cn_strip_whitespace. destruct (is_nul (char_at s 0)) eqn:E0.
  { apply is_nul_true, cstr_nil_iff in E0. rewrite E0 in *.
    exists (drop (S (strlen s)) s). cbn [trim rstrip lstrip reverse app].
    change (lstrip (rstrip [])) with (@nil ascii). cbn [app] in *.
    rewrite <- Hs. split; [done|]. split; [done|]. done. }
  set (v := cstr s) in *. set (tl := drop (S (strlen s)) s) in *.
  assert (strlen s = length v) as Hn.
  { rewrite Hs. by apply strlen_app_nul. }
  assert (take (strlen s) s = v) as Htake by done.
  assert (drop (strlen s) s = NUL :: tl) as Hdrop.
  { rewrite Hn. rewrite Hs at 1. by rewrite drop_app_length. }
  pose proof (strip_trailing_shape s (strlen s) (strlen_le s)) as Hshape.
  cbv zeta in Hshape. rewrite Htake, Hdrop, replicate_nul_shift in Hshape.
  set (v1 := rstrip v) in *. set (k := (strlen s - length v1)%nat) in *.
  set (R1 := replicate k NUL ++ tl) in *.
  assert (NUL ∉ v1) as Hv1 by by apply rstrip_no_nul.
  assert (length v1 <= length v)%nat as Hlv1 by apply rstrip_length.
  assert (length (v1 ++ NUL :: R1) = length s) as Hlen1.
  { rewrite Hs at 1. rewrite !length_app. cbn [length].
    subst R1. rewrite length_app, length_replicate. subst k. lia. }
  assert (last s = Some NUL -> last (NUL :: R1) = Some NUL) as Hlast1.
  { intros Hl. subst R1. apply last_nul_cons_replicate.
    rewrite Hs in Hl. by rewrite last_app_cons in Hl. }
  rewrite Hshape.
  destruct (leading_spaces_lstrip v1 R1 Hv1) as [Hd Hsum].
  change (lstrip v1) with (trim v) in Hd, Hsum.
  destruct (0 <? leading_spaces (v1 ++ NUL :: R1))%nat eqn:Ep.
  - apply Nat.ltb_lt in Ep.
    set (p := leading_spaces (v1 ++ NUL :: R1)) in *.
    assert (drop p (v1 ++ NUL :: R1) = trim v ++ NUL :: R1) as Hdp.
    { rewrite drop_app_le by lia. by rewrite Hd. }
    rewrite Hdp.
    rewrite strlen_app_nul by by apply trim_no_nul.
    unfold memmove_front. rewrite Hdp.
    replace (S (length (trim v))) with (length (trim v ++ [NUL]))
      by (rewrite length_app; simpl; lia).
    change (trim v ++ NUL :: R1) with (trim v ++ [NUL] ++ R1).
    rewrite app_assoc, take_app_length.
    rewrite length_app. cbn [length].
    rewrite drop_app_le by lia.
    exists (drop (length (trim v) + 1) v1 ++ [NUL] ++ R1).
    rewrite <- app_assoc. split; [done|]. split.
    + rewrite <- Hlen1.
      repeat (rewrite ?length_app, ?length_drop; cbn [length]). lia.
    + intros Hl. specialize (Hlast1 Hl).
      change (NUL :: drop (length (trim v) + 1) v1 ++ [NUL] ++ R1)
        with ((NUL :: drop (length (trim v) + 1) v1) ++ NUL :: R1).
      by rewrite last_app_cons.
  - apply Nat.ltb_ge in Ep.
    assert (leading_spaces (v1 ++ NUL :: R1) = O) as Hp0 by lia.
    rewrite Hp0 in Hd. rewrite drop_0 in Hd. rewrite <- Hd.
    exists R1. done.
Qed.

Lemma cstr_strip_whitespace s :
  NUL ∈ s -> cstr (cn_strip_whitespace s) = trim (cstr s).
Proof.
  intros H. destruct (strip_whitespace_shape s H) as (R & -> & _).
  apply cstr_app_nul, trim_no_nul, cstr_no_nul.
Qed.

(** ** Buffers stay within their bounds *)

Lemma length_safe_copy dest src room :
  length (safe_copy dest src room) = length dest.
Proof.
  revert src room. induction dest as [|d dest IH]; intros src room; [done|].
  cbn [safe_copy]. destruct room as [|room]; [done|].
  destruct src as [|c src]; [done|]. destruct (is_nul c); [done|].
  cbn [length]. by rewrite IH.
Qed.

Lemma last_cons_same_length {A} (x y : A) (l l' : list A) :
  length l = length l' -> last l = last l' ->
  last (x :: l) = Some y -> last (x :: l') = Some y \/ (l = [] /\ l' = []).
Proof.
  intros Hlen Hlast H. destruct l as [|a l]; destruct l' as [|a' l']; try done.
  - by right.
  - left. rewrite last_cons_cons in *. congruence.
Qed.

Lemma last_safe_copy dest src room :
  (room < length dest)%nat -> last dest = Some NUL ->
  last (safe_copy dest src room) = Some NUL.
Proof.
  revert src room. induction dest as [|d dest IH]; intros src room Hr Hl;
    [done|].
  cbn [safe_copy].
  assert (last (NUL :: dest) = Some NUL) as Hnul.
  { destruct dest; [done|]. by rewrite last_cons_cons in *. }
  destruct room as [|room]; [done|].
  destruct src as [|c src]; [done|]. destruct (is_nul c); [done|].
  cbn [length] in Hr. destruct dest as [|d' dest]; [simpl in Hr; lia|].
  rewrite last_cons_cons in Hl.
  specialize (IH src room ltac:(lia) Hl).
  pose proof (length_safe_copy (d' :: dest) src room) as Hlen.
  destruct (safe_copy (d' :: dest) src room) as [|x xs]; [done|].
  by rewrite last_cons_cons.
Qed.

Lemma buf_ok_strncpy N dest src :
  0 < N -> buf_ok N dest -> buf_ok N (cn_safe_strncpy dest src N).
Proof.
  intros HN [Hlen Hlast]. unfold cn_safe_strncpy.
  destruct src as [s|]; [|done]. destruct (N =? 0) eqn:E; [lia|].
  split; [by rewrite length_safe_copy|].
  apply last_safe_copy; [lia|done].
Qed.

Lemma buf_ok_strip N b : buf_ok N b -> buf_ok N (cn_strip_whitespace b).
Proof.
  intros [Hlen Hlast].
  destruct (strip_whitespace_shape b (last_nul_elem _ Hlast))
    as (R & -> & Hl & Hla).
  split; [by rewrite Hl|]. rewrite last_app_cons. by apply Hla.
Qed.

Lemma buf_ok_clear N b : buf_ok N b -> buf_ok N (<[O := NUL]> b).
Proof.
  intros [Hlen Hlast]. split; [by rewrite length_insert|].
  destruct b as [|x [|y b]]; [done|done|].
  cbn [insert list_insert]. by rewrite last_cons_cons in *.
Qed.

Lemma buf_ok_zero N : 0 < N -> buf_ok N (replicate (Z.to_nat N) NUL).
Proof.
  intros HN. split; [rewrite length_replicate; lia|].
  replace (Z.to_nat N) with (S (Z.to_nat (N - 1))) by lia.
  rewrite replicate_S_end. apply last_snoc.
Qed.

Lemma note_ok_zero : note_ok zero_note.
Proof.
  unfold note_ok, zero_note, time_ok, UINT_MAX. cbn [id title content tags created_at modified_at].
  repeat split; try lia; try (apply buf_ok_zero; done); by apply buf_ok_zero.
Qed.

Lemma note_ok_slot arr i : Forall note_ok arr -> note_ok (slot arr i).
Proof.
  intros H. unfold slot. destruct (arr !! i) as [n|] eqn:E.
  - by eapply Forall_lookup_1.
  - apply note_ok_zero.
Qed.

Lemma note_ok_write old nid t c g0 now :
  note_ok old -> 0 <= nid <= UINT_MAX -> time_ok now ->
  note_ok (write_note old nid t c g0 now).
Proof.
  intros (_ & Ht & Hc & Hg & _) Hnid Hnow.
  destruct (write_note_fields old nid t c g0 now)
    as (E1 & E2 & E3 & E4 & E5 & E6).
  unfold note_ok. rewrite E1, E2, E3, E4, E5, E6.
  split; [done|].
  split; [by apply buf_ok_strip, buf_ok_strncpy|].
  split; [by apply buf_ok_strip, buf_ok_strncpy|].
  split; [|done].
  apply buf_ok_strip. destruct g0 as [g|]; [destruct (negb _)|].
  - by apply buf_ok_strncpy.
  - by apply buf_ok_clear.
  - by apply buf_ok_clear.
Qed.

Lemma note_ok_edit_found n t0 c0 g0 now :
  note_ok n -> time_ok now -> note_ok (snd (edit_found n t0 c0 g0 now)).
Proof.
  intros Hn Hnow. unfold edit_found.
  assert (forall m, edit_title n t0 = Some m -> note_ok m) as H1.
  { intros m. unfold edit_title. destruct Hn as (? & ? & ? & ? & ? & ?).
    destruct t0 as [t|]; [destruct (negb _); [destruct (too_long _ _)|]|];
      intros; simplify_eq; try done.
    note_ok_fields; by apply buf_ok_strip, buf_ok_strncpy. }
  destruct (edit_title n t0) as [n1|]; [|done]. specialize (H1 n1 eq_refl).
  assert (forall m, edit_content n1 c0 = Some m -> note_ok m) as H2.
  { intros m. unfold edit_content. destruct H1 as (? & ? & ? & ? & ? & ?).
    destruct c0 as [c|]; [destruct (negb _); [destruct (too_long _ _)|]|];
      intros; simplify_eq; try done.
    note_ok_fields; by apply buf_ok_strip, buf_ok_strncpy. }
  destruct (edit_content n1 c0) as [n2|]; [|done]. specialize (H2 n2 eq_refl).
  assert (forall m, edit_tags n2 g0 = Some m -> note_ok m) as H3.
  { intros m. unfold edit_tags. destruct H2 as (? & ? & ? & ? & ? & ?).
    destruct g0 as [g|]; [destruct (too_long _ _)|];
      intros; simplify_eq; try done.
    note_ok_fields; by apply buf_ok_strip, buf_ok_strncpy. }
  destruct (edit_tags n2 g0) as [n3|]; [|done]. specialize (H3 n3 eq_refl).
  destruct H3 as (? & ? & ? & ? & ? & ?). note_ok_fields.
Qed.

Lemma snap_inv_fresh : snap_inv db_fresh.
Proof.
  unfold snap_inv, wf_db, db_fresh.
  cbn [arr_of notes count capacity next_id].
  rewrite length_replicate.
  unfold INITIAL_CAPACITY, SIZE_MAX, UINT_MAX, MAX_NOTES.
  repeat split; try lia.
  apply Forall_replicate, note_ok_zero.
Qed.

Lemma snap_inv_add alloc_ok fresh t0 c0 g0 now db r db' :
  snap_inv db -> time_ok now ->
  cn_note_add alloc_ok fresh t0 c0 g0 now db = Ok (r, db') ->
  snap_inv db'.
Proof.
  intros (Hwf & Hn & Hmax & Hall) Hnow Ha.
  destruct (cn_note_add_spec _ _ _ _ _ _ _ _ _ Hwf Ha)
    as [[-> ->]|(db1 & ok & t & c & _ & _ & He & Hok & Hlim & H)]; [done|].
  destruct H as (-> & Harr & Hlive & Hc & Hcap & Hnid & Hwf').
  destruct (ensure_capacity_ok _ _ _ _ _ Hwf He Hok)
    as (Hwf1 & _ & _ & _ & _ & Hn1 & Hslots).
  assert (Forall note_ok (arr_of db1)) as Hall1.
  { apply Forall_forall. intros n Hin.
    destruct (Hslots n Hin) as [Hin'| ->]; [|apply note_ok_zero].
    by eapply Forall_forall in Hall. }
  pose proof Hwf1 as (_ & _ & _ & Hr1).
  split; [done|]. split; [|split].
  - rewrite Hnid. destruct (next_id db1 =? UINT_MAX); lia.
  - lia.
  - rewrite Harr. apply Forall_insert; [done|].
    apply note_ok_write; [by apply note_ok_slot|done|done].
Qed.

Lemma snap_inv_edit key t0 c0 g0 now db :
  snap_inv db -> time_ok now ->
  snap_inv (snd (cn_note_edit key t0 c0 g0 now db)).
Proof.
  intros (Hwf & Hn & Hmax & Hall) Hnow.
  destruct (cn_note_edit_spec key t0 c0 g0 now db) as (Hc & Hcap & Hnid & H).
  destruct (cn_note_edit_ids key t0 c0 g0 now db) as (_ & Hlen).
  set (db' := snd _) in *.
  split.
  { destruct Hwf as (H1 & H2 & H3 & H4).
    unfold wf_db. rewrite Hlen, Hc, Hcap, Hnid. done. }
  rewrite Hnid, Hc. split; [done|]. split; [done|].
  destruct H as [->|(i & _ & _ & ->)]; [done|].
  apply Forall_insert; [done|].
  apply note_ok_edit_found; [by apply note_ok_slot|done].
Qed.

Lemma snap_inv_delete key db :
  snap_inv db -> snap_inv (snd (cn_note_delete key db)).
Proof.
  intros (Hwf & Hn & Hmax & Hall).
  destruct (decide (key = 0)) as [->|Hk]; [done|].
  destruct (find_id (live db) key) as [i|] eqn:Hf.
  - assert (Forall note_ok (arr_of (snd (cn_note_delete key db)))) as Hall'.
    { unfold cn_note_delete. destruct (key =? 0); [done|]. rewrite Hf.
      cbn [snd arr_of notes]. apply Forall_insert; [|apply note_ok_zero].
      destruct (_ <? _); [|done].
      apply Forall_insert; [done|]. by apply note_ok_slot. }
    destruct (cn_note_delete_found key db i Hwf Hk Hf)
      as (db' & Heq & Hc & Hcap & Hnid & Hlen & _).
    rewrite Heq in *. cbn [snd] in *.
    assert (count db > 0).
    { apply find_id_Some in Hf as (x & Hx & _).
      apply live_lookup in Hx as [_ ?]. lia. }
    split.
    { destruct Hwf as (H1 & H2 & H3 & H4).
      unfold wf_db. rewrite Hlen, Hc, Hcap, Hnid. repeat split; lia. }
    rewrite Hnid, Hc. split; [done|]. split; [lia|done].
  - unfold cn_note_delete. destruct (key =? 0); [done|]. by rewrite Hf.
Qed.

Lemma run_snap_inv alloc_ok fresh ops db db' :
  snap_inv db -> Forall op_time_ok ops ->
  run alloc_ok fresh ops db = Ok db' -> snap_inv db'.
Proof.
  revert db. induction ops as [|o ops IH]; intros db Hinv Ht Hr.
  - cbn [run] in Hr. by injection Hr as <-.
  - cbn [run] in Hr. apply Forall_cons in Ht as [Ho Ht].
    destruct (step alloc_ok fresh o db) as [[r d1]|m] eqn:Hs; [|done].
    apply (IH d1); [|done|done].
    destruct o as [t c g now|k t c g now|k]; cbn [step op_time_ok] in Hs, Ho.
    + by eapply snap_inv_add.
    + injection Hs as Hs.
      replace d1 with (snd (cn_note_edit k t c g now db)) by (by rewrite Hs).
      by apply snap_inv_edit.
    + injection Hs as Hs.
      replace d1 with (snd (cn_note_delete k db)) by (by rewrite Hs).
      by apply snap_inv_delete.
Qed.

(** ** The snapshot format *)

Lemma length_le_bytes n z : length (le_bytes n z) = n.
Proof. revert z. induction n as [|n IH]; intros z; simpl; [done|]. by rewrite IH. Qed.

Lemma code_ascii_of_N z :
  0 <= z < 256 -> code (ascii_of_N (Z.to_N z)) = z.
Proof.
  intros H. unfold code. rewrite N_ascii_embedding by lia. lia.
Qed.

Lemma le_value_le_bytes n z :
  le_value (le_bytes n z) = z mod 256 ^ Z.of_nat n.
Proof.
  revert z. induction n as [|n IH]; intros z.
  - simpl. by rewrite Z.mod_1_r.
  - cbn [le_bytes le_value]. rewrite IH.
    rewrite code_ascii_of_N by (apply Z.mod_pos_bound; lia).
    rewrite Nat2Z.inj_succ, Z.pow_succ_r by lia.
    rewrite Z.rem_mul_r by lia. done.
Qed.

Lemma le_value_unsigned n z :
  0 <= z < 256 ^ Z.of_nat n -> le_value (le_bytes n z) = z.
Proof. intros H. rewrite le_value_le_bytes. by apply Z.mod_small. Qed.

Lemma le_signed64_le_bytes z : time_ok z -> le_signed64 (le_bytes 8 z) = z.
Proof.
  unfold time_ok, le_signed64. intros H. rewrite le_value_le_bytes.
  change (256 ^ Z.of_nat 8) with (2 ^ 64).
  destruct (decide (0 <= z)) as [Hz|Hz].
  - rewrite Z.mod_small by lia. destruct (z <? 2 ^ 63) eqn:E; lia.
  - replace (z mod 2 ^ 64) with (z + 2 ^ 64).
    + destruct (z + 2 ^ 64 <? 2 ^ 63) eqn:E; lia.
    + symmetry. rewrite <- (Z.mod_add z 1) by lia.
      apply Z.mod_small. lia.
Qed.

Lemma sub_bytes_here a b len :
  Z.of_nat (length a) = len -> sub_bytes 0 len (a ++ b) = a.
Proof.
  intros H. unfold sub_bytes. simpl. rewrite drop_0.
  apply take_app_length'. lia.
Qed.

Lemma sub_bytes_skip a b off len :
  Z.of_nat (length a) <= off ->
  sub_bytes off len (a ++ b) = sub_bytes (off - Z.of_nat (length a)) len b.
Proof.
  intros H. unfold sub_bytes. rewrite drop_app.
  rewrite (drop_ge a) by lia. cbn [app]. do 2 f_equal. lia.
Qed.

Lemma sub_bytes_all a len :
  Z.of_nat (length a) = len -> sub_bytes 0 len a = a.
Proof.
  intros H. unfold sub_bytes. simpl. rewrite drop_0. apply take_ge. lia.
Qed.

Lemma length_note_bytes pad n :
  note_ok n -> Z.of_nat (length (note_bytes pad n)) = sizeof_cn_note.
Proof.
  intros (_ & [Ht _] & [Hc _] & [Hg _] & _). unfold note_bytes.
  rewrite !length_app, !length_le_bytes.
  unfold MAX_TITLE_LEN, MAX_CONTENT_LEN, MAX_TAGS_LEN, sizeof_cn_note in *.
  lia.
Qed.

(** Reading back the bytes of a slot within its bounds gives the slot. *)
Lemma note_of_bytes_note_bytes pad n :
  note_ok n -> note_of_bytes (note_bytes pad n) = n.
Proof.
  intros (Hid & [Ht _] & [Hc _] & [Hg _] & Hca & Hma).
  destruct n as [i t c g ca ma].
  cbn [id title content tags created_at modified_at] in *.
  unfold note_of_bytes, note_bytes.
  cbn [id title content tags created_at modified_at].
  unfold MAX_TITLE_LEN, MAX_CONTENT_LEN, MAX_TAGS_LEN, UINT_MAX in *.
  f_equal.
  - rewrite sub_bytes_here by by rewrite length_le_bytes.
    apply le_value_unsigned. change (256 ^ Z.of_nat 4) with (2 ^ 32). lia.
  - rewrite sub_bytes_skip by (rewrite length_le_bytes; lia).
    rewrite length_le_bytes. by apply sub_bytes_here.
  - rewrite sub_bytes_skip by (rewrite length_le_bytes; lia).
    rewrite length_le_bytes.
    rewrite sub_bytes_skip by lia. rewrite Ht. by apply sub_bytes_here.
  - rewrite sub_bytes_skip by (rewrite length_le_bytes; lia).
    rewrite length_le_bytes.
    rewrite sub_bytes_skip by lia. rewrite Ht.
    rewrite sub_bytes_skip by lia. rewrite Hc. by apply sub_bytes_here.
  - rewrite sub_bytes_skip by (rewrite length_le_bytes; lia).
    rewrite length_le_bytes.
    rewrite sub_bytes_skip by lia. rewrite Ht.
    rewrite sub_bytes_skip by lia. rewrite Hc.
    rewrite sub_bytes_skip by lia. rewrite Hg.
    rewrite sub_bytes_skip by (rewrite length_le_bytes; lia).
    rewrite length_le_bytes.
    rewrite sub_bytes_here by by rewrite length_le_bytes.
    by apply le_signed64_le_bytes.
  - rewrite sub_bytes_skip by (rewrite length_le_bytes; lia).
    rewrite length_le_bytes.
    rewrite sub_bytes_skip by lia. rewrite Ht.
    rewrite sub_bytes_skip by lia. rewrite Hc.
    rewrite sub_bytes_skip by lia. rewrite Hg.
    rewrite sub_bytes_skip by (rewrite length_le_bytes; lia).
    rewrite length_le_bytes.
    rewrite sub_bytes_skip by (rewrite length_le_bytes; lia).
    rewrite length_le_bytes.
    rewrite sub_bytes_all by by rewrite length_le_bytes.
    by apply le_signed64_le_bytes.
Qed.

Lemma sanitize_note_ok n : note_ok n -> sanitize_note n = n.
Proof.
  intros (_ & [Ht Ht'] & [Hc Hc'] & [Hg Hg'] & _).
  destruct n as [i t c g ca ma].
  unfold sanitize_note, set_title, set_content, set_tags.
  cbn [id title content tags created_at modified_at] in *.
  rewrite last_lookup in Ht', Hc', Hg'.
  f_equal; apply list_insert_id.
  - rewrite <- Ht'. f_equal. lia.
  - rewrite <- Hc'. f_equal. lia.
  - rewrite <- Hg'. f_equal. lia.
Qed.

Lemma fread_item_app size a b :
  Z.of_nat (length a) = size ->
  fread_item size (a ++ b) = Some (a, b).
Proof.
  intros H. unfold fread_item. rewrite length_app.
  rewrite (proj2 (Z.leb_le _ _)) by lia.
  rewrite take_app_length', drop_app_length' by lia. done.
Qed.

(** The records of a snapshot are read back as they were written. *)
Lemma fread_notes_written padding l rest :
  Forall note_ok l ->
  forall i,
    fread_notes (length l) (slots_bytes padding i l ++ rest) = l.
Proof.
  induction 1 as [|n l Hn Hl IH]; intros i; [done|].
  cbn [length slots_bytes fread_notes]. rewrite <- app_assoc.
  rewrite fread_item_app by by apply length_note_bytes.
  rewrite IH. f_equal. by apply note_of_bytes_note_bytes.
Qed.

Lemma string_length_app (s1 s2 : string) :
  String.length (s1 ++ s2) = (String.length s1 + String.length s2)%nat.
Proof. induction s1 as [|c s1 IH]; simpl; [done|]. by rewrite IH. Qed.

Lemma map_sanitize_ok l : Forall note_ok l -> map sanitize_note l = l.
Proof.
  induction 1 as [|n l Hn Hl IH]; [done|]. cbn [map].
  by rewrite IH, sanitize_note_ok.
Qed.

(** A fresh process reads back what was saved. *)
Lemma load_saved alloc_ok padding path fs db d0 :
  snap_inv db ->
  (forall z, alloc_ok z = true) ->
  notes d0 = None ->
  path <> ""%string ->
  exists db',
    cn_db_load alloc_ok path (<[path := snapshot_bytes padding db]> fs) d0
    = Ok db'
    /\ count db' = count db
    /\ next_id db' = next_id db
    /\ live db' = live db.
Proof.
  intros (Hwf & Hn & Hmax & Hall) Ha Hd0 Hp.
  pose proof Hwf as (Hlen & Hc & Hcap & Hnid).
  unfold cn_db_load. apply String.eqb_neq in Hp. rewrite Hp.
  rewrite lookup_insert_eq. unfold snapshot_bytes.
  rewrite fread_item_app by by rewrite length_le_bytes.
  rewrite fread_item_app by by rewrite length_le_bytes.
  rewrite !le_value_unsigned.
  2:{ change (256 ^ Z.of_nat 4) with (2 ^ 32). unfold UINT_MAX in Hnid. lia. }
  2:{ change (256 ^ Z.of_nat 8) with (2 ^ 64). unfold SIZE_MAX in Hcap. lia. }
  replace (count db >? MAX_NOTES) with false by lia.
  replace (next_id db =? 0) with false by lia. cbn [orb].
  destruct (count db =? 0) eqn:E0.
  - rewrite cn_db_init_fresh by done. eexists. split; [done|].
    unfold live. cbn [count next_id with_next_id db_fresh].
    replace (count db) with 0 by lia. done.
  - rewrite Ha. cbn [negb].
    replace (count db >? 0) with true by lia.
    assert (length (live db) = Z.to_nat (count db)) as Hll
      by by apply length_live.
    assert (Forall note_ok (live db)) as Hlive by by apply Forall_take.
    rewrite <- Hll.
    rewrite <- (app_nil_r (slots_bytes _ _ _)), fread_notes_written by done.
    rewrite Hll, Z2Nat.id, Z.eqb_refl by lia. cbn [negb].
    rewrite map_sanitize_ok by done.
    eexists. split; [done|]. cbn [count next_id].
    split; [done|]. split; [done|].
    unfold live at 1. cbn [count arr_of notes].
    by rewrite take_app_length'.
Qed.

(** C1: take the store a fresh process starts with when there is no
    snapshot, apply any sequence of add, edit and delete calls (clock
    values in the range of [time_t]) that does not end in a fatal exit,
    and save; when every I/O step succeeds the save returns, and a
    fresh process whose allocations succeed loads from the saved file a
    store with the same count, the same next id and the same live notes
    slot by slot (id, the three buffers, both timestamps), whatever
    the padding bytes of the slots hold. *)
Theorem save_load_round_trip alloc_ok fresh alloc_ok' padding ops path fs
    d0 :
  Forall op_time_ok ops ->
  path <> ""%string ->
  Z.of_nat (String.length path) + 4 < PATH_MAX ->
  (forall z, alloc_ok' z = true) ->
  notes d0 = None ->
  match run alloc_ok fresh ops db_fresh with
  | Fatal _ => True
  | Ok db =>
      let (fs', r) := cn_db_save io_all_ok padding path fs db in
      r = Ok tt
      /\ exists db',
           cn_db_load alloc_ok' path fs' d0 = Ok db'
           /\ count db' = count db
           /\ next_id db' = next_id db
           /\ live db' = live db
  end.
Proof.
  intros Ht Hp Hlen Ha Hd0.
  destruct (run alloc_ok fresh ops db_fresh) as [db|] eqn:Hr; [|done].
  pose proof (run_snap_inv _ _ _ _ _ snap_inv_fresh Ht Hr) as Hinv.
  unfold cn_db_save. pose proof Hp as Hp'. apply String.eqb_neq in Hp'.
  rewrite Hp'. cbn [io_all_ok dirs_ok fopen_ok fwrite_count_ok
    fwrite_next_id_ok fwrite_notes_ok fclose_ok rename_ok negb orb].
  rewrite string_length_app. cbn [String.length].
  rewrite Z.geb_leb, (proj2 (Z.leb_gt _ _)) by lia.
  rewrite andb_false_r. split; [done|].
  by apply load_saved.
Qed.

(** ** Tag matching *)

Lemma has_prefix_spec needle s :
  has_prefix needle s = true <-> exists post, s = needle ++ post.
Proof.
  revert s. induction needle as [|c needle IH]; intros s.
  - simpl. split; [by exists s|done].
  - destruct s as [|d s]; simpl.
    + split; [done|]. by intros (post & ?).
    + rewrite andb_true_iff, IH, Ascii.eqb_eq. split.
      * intros (-> & post & ->). by exists post.
      * intros (post & H). injection H as -> ->. split; [done|by exists post].
Qed.

Lemma strstr_spec haystack needle :
  strstr haystack needle = true <-> is_substring needle haystack.
Proof.
  unfold is_substring. induction haystack as [|d hay IH]; cbn [strstr].
  - rewrite orb_false_r, has_prefix_spec. split.
    + intros (post & ->). by exists [], post.
    + intros (pre & post & H). destruct pre; [by exists post|done].
  - rewrite orb_true_iff, has_prefix_spec, IH. split.
    + intros [(post & ->)|(pre & post & ->)].
      * by exists [], post.
      * by exists (d :: pre), post.
    + intros (pre & post & H). destruct pre as [|x pre].
      * left. by exists post.
      * right. injection H as -> ->. by exists pre, post.
Qed.

Lemma tolower_not_nul c : c <> NUL -> tolower c <> NUL.
Proof.
  intros Hc. unfold tolower.
  destruct ((65 <=? code c) && (code c <=? 90)) eqn:E; [|done].
  intros H. apply andb_prop in E as [E1 E2].
  assert (code (ascii_of_N (Z.to_N (code c + 32))) = code c + 32) as Hcode.
  { apply code_ascii_of_N. lia. }
  rewrite H in Hcode. change (code NUL) with 0 in Hcode. lia.
Qed.

Lemma lower_no_nul v : NUL ∉ v -> NUL ∉ lower v.
Proof.
  unfold lower. intros H Hin. apply list_elem_of_fmap in Hin as (c & Hc & Hin).
  destruct (decide (c = NUL)) as [->|Hne]; [done|].
  by apply (tolower_not_nul c).
Qed.

Lemma char_at_0_nul_iff t : NUL ∉ t -> char_at t 0 = NUL <-> t = [].
Proof.
  intros H. destruct t as [|c t]; [done|]. unfold char_at. simpl.
  split; [|done]. intros ->. exfalso. apply H. left.
Qed.

Lemma tok_ok_nil note_copy : tok_ok note_copy [] = true.
Proof. reflexivity. Qed.

Lemma tok_ok_spec note_copy tok :
  NUL ∉ tok ->
  tok_ok note_copy tok = true
  <-> (trim tok <> [] -> is_substring (trim tok) note_copy).
Proof.
  intros H. unfold tok_ok.
  rewrite orb_true_iff, is_nul_true, strstr_spec.
  rewrite (char_at_0_nul_iff _ (trim_no_nul _ H)).
  destruct (decide (trim tok = [])) as [Hnil|Hne].
  - split; [done|]. intros _. by left.
  - split; [|intros H'; right; by apply H'].
    intros [Hnil|Hsub] _; done.
Qed.

(** *** [strtok_r] against [split_commas] *)

Lemma skip_delims_suffix s : exists p, s = p ++ skip_delims s.
Proof.
  induction s as [|c s (p & Hp)]; [by exists []|]. simpl.
  destruct (is_comma c); [|by exists []].
  exists (c :: p). by rewrite Hp at 1.
Qed.

Lemma skip_delims_toks P s :
  P [] = true ->
  forallb P (split_commas s) = forallb P (split_commas (skip_delims s)).
Proof.
  intros HP. induction s as [|c s IH]; [done|]. simpl.
  destruct (is_comma c) eqn:E; simpl; [|by rewrite E].
  by rewrite HP, IH.
Qed.

Lemma split_scan s :
  exists toks,
    split_commas s = fst (scan_token s) :: toks
    /\ (toks = split_commas (snd (scan_token s))
        \/ (toks = [] /\ snd (scan_token s) = [])).
Proof.
  induction s as [|c s (toks & Hs & Ht)]; simpl.
  - exists []. split; [done|]. by right.
  - destruct (is_comma c).
    + exists (split_commas s). split; [done|]. by left.
    + rewrite Hs. destruct (scan_token s) as [tok rest]. simpl in *.
      by exists toks.
Qed.

Lemma scan_token_toks P s :
  P [] = true ->
  forallb P (split_commas s)
  = P (fst (scan_token s)) && forallb P (split_commas (snd (scan_token s))).
Proof.
  intros HP. destruct (split_scan s) as (toks & -> & [->|[-> ->]]); simpl.
  - done.
  - by rewrite HP.
Qed.

Lemma scan_token_parts s :
  exists sep, s = fst (scan_token s) ++ sep ++ snd (scan_token s)
              /\ (length sep <= 1)%nat.
Proof.
  induction s as [|c s (sep & Hs & Hl)]; simpl.
  - exists []. split; [done|]. simpl. lia.
  - destruct (is_comma c).
    + exists [c]. split; [done|]. simpl. lia.
    + destruct (scan_token s) as [tok rest]. simpl in *.
      exists sep. split; [by rewrite Hs at 1|done].
Qed.

Lemma scan_token_shorter c s :
  is_comma c = false ->
  (length (snd (scan_token (c :: s))) < length (c :: s))%nat.
Proof.
  intros Hc. simpl. rewrite Hc.
  destruct (scan_token_parts s) as (sep & Hs & _).
  destruct (scan_token s) as [tok rest]. simpl in *.
  rewrite Hs. rewrite !length_app. lia.
Qed.

Lemma skip_delims_head c s :
  skip_delims s = c :: drop 1 (skip_delims s) -> is_comma c = false.
Proof.
  induction s as [|d s IH]; simpl; [done|].
  destruct (is_comma d) eqn:E; [done|]. intros H. by injection H as <-.
Qed.

Lemma match_loop_spec note_copy fuel saveptr :
  NUL ∉ saveptr ->
  (length saveptr < fuel)%nat ->
  match_loop fuel note_copy saveptr
  = forallb (tok_ok note_copy) (split_commas saveptr).
Proof.
  revert saveptr. induction fuel as [|fuel IH]; intros sp Hnul Hlen; [lia|].
  cbn [match_loop]. unfold strtok_r.
  rewrite (skip_delims_toks _ sp (tok_ok_nil note_copy)).
  destruct (skip_delims_suffix sp) as (p & Hp).
  destruct (skip_delims sp) as [|c s1] eqn:Hskip; [done|].
  assert (is_comma c = false) as Hc.
  { apply (skip_delims_head c sp). by rewrite Hskip. }
  assert (NUL ∉ c :: s1) as Hnul1.
  { intros Hin. apply Hnul. rewrite Hp. apply elem_of_app. by right. }
  assert (length (c :: s1) <= length sp)%nat as Hlen1.
  { rewrite Hp, length_app. lia. }
  rewrite (scan_token_toks _ (c :: s1) (tok_ok_nil note_copy)).
  pose proof (scan_token_shorter c s1 Hc) as Hshort.
  destruct (scan_token_parts (c :: s1)) as (sep & Hparts & _).
  destruct (scan_token (c :: s1)) as [tok rest]. cbn [fst snd] in *.
  assert (NUL ∉ tok) as Htok.
  { intros Hin. apply Hnul1. rewrite Hparts. apply elem_of_app. by left. }
  assert (NUL ∉ rest) as Hrest.
  { intros Hin. apply Hnul1. rewrite Hparts.
    apply elem_of_app. right. apply elem_of_app. by right. }
  rewrite cstr_strip_whitespace
    by (apply elem_of_app; right; apply list_elem_of_singleton; done).
  change (tok ++ [NUL]) with (tok ++ NUL :: []).
  rewrite cstr_app_nul by done.
  rewrite IH by (done || lia). unfold tok_ok.
  by destruct (is_nul (char_at (trim tok) 0)), (strstr note_copy (trim tok)).
Qed.

Lemma split_commas_chars s tok c :
  tok ∈ split_commas s -> c ∈ tok -> c ∈ s.
Proof.
  revert tok. induction s as [|d s IH]; intros tok Ht Hc; simpl in Ht.
  - apply list_elem_of_singleton in Ht. subst tok.
    by apply not_elem_of_nil in Hc.
  - destruct (is_comma d).
    + apply elem_of_cons in Ht as [->|Ht];
        [by apply not_elem_of_nil in Hc|].
      right. by eapply IH.
    + destruct (split_commas s) as [|t ts] eqn:E.
      * apply list_elem_of_singleton in Ht. subst tok.
        apply list_elem_of_singleton in Hc. subst c. left.
      * apply elem_of_cons in Ht as [->|Ht].
        -- apply elem_of_cons in Hc as [->|Hc]; [left|].
           right. apply (IH t); [left|done].
        -- right. apply (IH tok); [by right|done].
Qed.

(** The loop agrees with the specification's wording of the filter. *)
Lemma match_loop_tags n s :
  match_loop (S (length (lower (cstr s)))) (lower (cstr n)) (lower (cstr s))
    = true
  <-> tags_match_spec (cstr n) (cstr s).
Proof.
  assert (NUL ∉ lower (cstr s)) as Hnul by apply lower_no_nul, cstr_no_nul.
  rewrite match_loop_spec by (done || lia).
  rewrite forallb_forall. unfold tags_match_spec. split.
  - intros H tok Hin. apply tok_ok_spec.
    + intros Hc. apply Hnul. by eapply split_commas_chars.
    + apply H. by apply list_elem_of_In.
  - intros H tok Hin. apply list_elem_of_In in Hin. apply tok_ok_spec.
    + intros Hc. apply Hnul. by eapply split_commas_chars.
    + by apply H.
Qed.

(** C7, as the code has it: the filter holds exactly when the query is
    NULL or empty, or else when the note has tags, both strings are
    shorter than [MAX_TAGS_LEN], the two copies can be allocated, and
    every non-empty trimmed comma-separated sub-token of the lower-cased
    query occurs in the lower-cased tags of the note.  A note without
    tags matches no non-empty query. *)
Theorem cn_note_match_tags_spec alloc_ok note_tags search_tags :
  cn_note_match_tags alloc_ok note_tags search_tags = true
  <-> absent search_tags
      \/ exists n s,
           note_tags = Some n /\ search_tags = Some s
           /\ cstr n <> []
           /\ Z.of_nat (strlen n) < MAX_TAGS_LEN
           /\ Z.of_nat (strlen s) < MAX_TAGS_LEN
           /\ alloc_ok (Z.of_nat (strlen n) + 1) = true
           /\ alloc_ok (Z.of_nat (strlen s) + 1) = true
           /\ tags_match_spec (cstr n) (cstr s).
Proof.
  unfold cn_note_match_tags.
  destruct search_tags as [s|]; [|by split; [left|]].
  destruct (is_nul (char_at s 0)) eqn:Es.
  { apply is_nul_true in Es. by split; [left|]. }
  apply is_nul_false in Es.
  destruct note_tags as [n|].
  2:{ split; [done|]. intros [H|(n & s' & H & _)]; done. }
  destruct (is_nul (char_at n 0)) eqn:En.
  { apply is_nul_true in En. split; [done|].
    intros [H|(n' & s' & H1 & H2 & H3 & _)]; [done|].
    injection H1 as <-. by apply cstr_nil_iff in En. }
  apply is_nul_false in En.
  destruct ((Z.of_nat (strlen n) >=? MAX_TAGS_LEN)
            || (Z.of_nat (strlen s) >=? MAX_TAGS_LEN)) eqn:El.
  { split; [done|]. intros [H|(n' & s' & H1 & H2 & _ & H3 & H4 & _)]; [done|].
    injection H1 as <-. injection H2 as <-.
    apply orb_prop in El as [El|El]; rewrite Z.geb_leb in El;
      apply Z.leb_le in El; lia. }
  apply orb_false_elim in El as [El1 El2].
  rewrite Z.geb_leb in El1, El2. apply Z.leb_gt in El1, El2.
  destruct (negb (alloc_ok (Z.of_nat (strlen n) + 1))
            || negb (alloc_ok (Z.of_nat (strlen s) + 1))) eqn:Ea.
  { split; [done|].
    intros [H|(n' & s' & H1 & H2 & _ & _ & _ & H3 & H4 & _)]; [done|].
    injection H1 as <-. injection H2 as <-. by rewrite H3, H4 in Ea. }
  apply orb_false_elim in Ea as [Ea1 Ea2].
  apply negb_false_iff in Ea1, Ea2.
  change (map tolower (cstr n)) with (lower (cstr n)).
  change (map tolower (cstr s)) with (lower (cstr s)).
  rewrite match_loop_tags. split.
  - intros H. right. exists n, s. split_and!; try done.
    by rewrite cstr_nil_iff.
  - intros [H|(n' & s' & H1 & H2 & _ & _ & _ & _ & _ & H)]; [done|].
    injection H1 as <-. by injection H2 as <-.
Qed.

(** C7, the claim as worded fails: the query [","] has only empty
    sub-tokens, so the worded condition holds for a note without tags,
    and yet the filter returns false for that note. *)
Lemma cn_note_match_tags_no_tags :
  cn_note_match_tags always (Some (lit "")) (Some (lit ",")) = false
  /\ cn_note_match_tags always None (Some (lit ",")) = false
  /\ tags_match_spec (lit "") (lit ",").
Proof.
  split; [reflexivity|]. split; [reflexivity|].
  intros tok Hin Hne. exfalso. apply Hne.
  change (split_commas (lower (lit ","))) with [@nil ascii; []] in Hin.
  apply elem_of_cons in Hin as [->|Hin]; [done|].
  apply list_elem_of_singleton in Hin. by subst tok.
Qed.

(** ** The properties on concrete inputs *)

(** The edit without fields, on the store with one note. *)
Lemma cn_note_edit_no_fields_witness :
  let r := cn_note_edit 1 (Some (lit "")) None None 200 store_one in
  fst r = 1
  /\ modified_at (slot (arr_of (snd r)) 0) = 200
  /\ title (slot (arr_of (snd r)) 0) = title (slot (arr_of store_one) 0).
Proof.
  assert (1 <> 0) as Hk by lia.
  assert (find_id (live store_one) 1 = Some O) as Hf
    by (vm_compute; reflexivity).
  assert (absent (Some (lit ""))) as Ht by (vm_compute; reflexivity).
  pose proof (cn_note_edit_no_fields 1 (Some (lit "")) None 200 store_one O
                Hk Hf Ht I) as H.
  cbv zeta in H |- *.
  destruct (cn_note_edit 1 (Some (lit "")) None None 200 store_one) as [r db'].
  destruct H as (H1 & H2 & _ & H3 & _).
  cbn [fst snd]. split; [exact H1|]. split; [exact H2|exact H3].
Defined.

(** Deleting the only note of the store with one note. *)
Lemma cn_note_delete_live_witness :
  fst (cn_note_delete 1 store_one) = 1
  /\ count (snd (cn_note_delete 1 store_one)) = 0.
Proof.
  assert (wf_db store_one) as Hwf
    by (unfold wf_db; vm_compute; split_and!; congruence).
  assert (NoDup (ids store_one)) as Hnd
    by (vm_compute; apply NoDup_singleton).
  assert (1 <> 0) as Hk by lia.
  assert (1 ∈ ids store_one) as Hin by (vm_compute; left).
  pose proof (cn_note_delete_live 1 store_one Hwf Hnd Hk Hin) as H.
  destruct (cn_note_delete 1 store_one) as [r db'].
  destruct H as (H1 & H2 & _).
  cbn [fst snd]. split; [exact H1|]. rewrite H2. vm_compute. reflexivity.
Defined.

(** The example run returns, and its live ids are distinct. *)
Lemma ids_unique_until_wrap_witness :
  is_ok (run always zero_note example_ops db_zero) = true
  /\ match run always zero_note example_ops db_zero with
     | Ok db => NoDup (ids db)
     | Fatal _ => True
     end.
Proof.
  split; [vm_compute; reflexivity|].
  apply (ids_unique_until_wrap always zero_note example_ops db_zero).
  - left. reflexivity.
  - vm_compute. reflexivity.
Defined.

(** Growth of the store whose 64 slots are in use. *)
Lemma ensure_capacity_for_one_full_witness :
  match ensure_capacity_for_one always zero_note store_full with
  | Ok (r, db') => r = 1 /\ capacity db' = 128 /\ count db' = 64
  | Fatal _ => False
  end.
Proof.
  assert (0 <= capacity store_full <= SIZE_MAX) as Hcap
    by (vm_compute; split; congruence).
  destruct (ensure_capacity_for_one_full always zero_note store_full
              (replicate (Z.to_nat INITIAL_CAPACITY) zero_note)
              eq_refl eq_refl Hcap)
    as [H _].
  rewrite H. vm_compute. split_and!; reflexivity.
Defined.


(** Loading a snapshot whose only record is missing, and one cut off
    in its header. *)
Lemma cn_db_load_recovers_witness :
  cn_db_load always example_path fs_short_read db_zero = Ok db_fresh
  /\ cn_db_load always example_path fs_truncated db_zero = Ok db_fresh.
Proof.
  assert (fs_short_read !! example_path = Some (le_bytes 8 1 ++ le_bytes 4 5))
    as Hf by (vm_compute; reflexivity).
  destruct (cn_db_load_recovers always example_path fs_short_read db_zero)
    as [H1 _].
  - reflexivity.
  - rewrite Hf. right. right. vm_compute. reflexivity.
  - destruct (cn_db_load_recovers always example_path fs_truncated db_zero)
      as [H2 _].
    + reflexivity.
    + vm_compute. exact I.
    + split; [rewrite H1|rewrite H2]; vm_compute; reflexivity.
Defined.

(** The example run returns, and its store survives save and load. *)
Lemma save_load_round_trip_witness :
  is_ok (run always zero_note example_ops db_fresh) = true
  /\ match run always zero_note example_ops db_fresh with
     | Fatal _ => True
     | Ok db =>
         let (fs', r) :=
           cn_db_save io_all_ok (fun _ => 0) example_path ∅ db in
         r = Ok tt
         /\ exists db',
              cn_db_load always example_path fs' db_zero = Ok db'
              /\ count db' = count db
              /\ next_id db' = next_id db
              /\ live db' = live db
     end.
Proof.
  split; [vm_compute; reflexivity|].
  apply (save_load_round_trip always zero_note always (fun _ => 0)
           example_ops example_path ∅ db_zero).
  - unfold example_ops.
    repeat (apply Forall_cons; split;
            [cbn [op_time_ok]; unfold time_ok; try exact I; lia|]).
    constructor.
  - vm_compute. congruence.
  - vm_compute. reflexivity.
  - intros z. reflexivity.
  - reflexivity.
Defined.

(** * Further properties of the code *)

(** ** src/utils.c : the bounded copy *)

Lemma safe_copy_shape dest src room :
  (room < length dest)%nat ->
  safe_copy dest src room
  = take (room `min` strlen src) src
      ++ NUL :: drop (S (room `min` strlen src)) dest.
Proof.
  revert src room. induction dest as [|d dest IH]; intros src room Hr;
    [simpl in Hr; lia|].
  cbn [safe_copy]. destruct room as [|room]; [done|].
  destruct src as [|c src]; [done|]. cbn [strlen].
  destruct (is_nul c) eqn:E; [done|].
  cbn [length] in Hr. rewrite IH by lia.
  replace (S room `min` S (strlen src))%nat
    with (S (room `min` strlen src)) by lia.
  done.
Qed.

Lemma take_strlen_no_nul k s : (k <= strlen s)%nat -> NUL ∉ take k s.
Proof.
  intros Hk Hin. apply (cstr_no_nul s). unfold cstr.
  apply elem_of_take in Hin as (i & Hi & Hlt).
  apply elem_of_take. exists i. split; [done|lia].
Qed.

(** X1: the bounded copy stores the source string cut to [dest_size - 1]
    characters, terminates it, keeps the size of the buffer and leaves
    the bytes after the terminator alone; a source that fits is copied
    whole. *)
Theorem cn_safe_strncpy_string dest s N :
  Z.of_nat (length dest) = N -> 0 < N ->
  let r := cn_safe_strncpy dest (Some s) N in
  length r = length dest
  /\ cstr r = take (Z.to_nat (N - 1)) (cstr s)
  /\ (Z.of_nat (strlen s) < N -> cstr r = cstr s)
  /\ drop (S (strlen r)) r = drop (S (strlen r)) dest.
Proof.
  intros Hlen HN r. subst r. unfold cn_safe_strncpy.
  destruct (N =? 0) eqn:E; [lia|].
  rewrite safe_copy_shape by lia.
  set (k := (Z.to_nat (N - 1) `min` strlen s)%nat).
  assert (NUL ∉ take k s) as Hnn by (apply take_strlen_no_nul; lia).
  assert (length (take k s) = k) as Hk.
  { rewrite length_take. pose proof (strlen_le s). lia. }
  assert (cstr (take k s ++ NUL :: drop (S k) dest) = take k s) as Hc
    by by apply cstr_app_nul.
  split_and!.
  - rewrite length_app, Hk. cbn [length]. rewrite length_drop. lia.
  - rewrite Hc. unfold cstr. rewrite take_take. done.
  - intros Hfit. rewrite Hc. unfold cstr. f_equal. lia.
  - rewrite strlen_app_nul, Hk by done.
    change (take k s ++ NUL :: drop (S k) dest)
      with (take k s ++ [NUL] ++ drop (S k) dest).
    rewrite app_assoc. rewrite drop_app_length'
      by (rewrite length_app, Hk; simpl; lia).
    done.
Qed.

(** The string a fitting source leaves in a buffer (shared form). *)
Lemma cstr_strncpy_fits dest s N :
  Z.of_nat (length dest) = N -> Z.of_nat (strlen s) < N ->
  cstr (cn_safe_strncpy dest (Some s) N) = cstr s.
Proof.
  intros Hlen Hfit. unfold cn_safe_strncpy.
  destruct (N =? 0) eqn:E; [lia|].
  rewrite safe_copy_shape by lia.
  replace (Z.to_nat (N - 1) `min` strlen s)%nat with (strlen s) by lia.
  apply cstr_app_nul, take_strlen_no_nul. lia.
Qed.

(** ** src/utils.c : trimming *)

Lemma lstrip_head v c : head (lstrip v) = Some c -> isspace c = false.
Proof.
  induction v as [|d v IH]; simpl; [done|].
  destruct (isspace d) eqn:E; [done|]. simpl. by intros [= <-].
Qed.

Lemma rstrip_prefix v :
  exists q, v = rstrip v ++ q /\ Forall (fun c => isspace c = true) q.
Proof.
  destruct (lstrip_suffix (reverse v)) as (p & Hp & Hs).
  exists (reverse p). split.
  - unfold rstrip. rewrite <- reverse_app, <- Hp. by rewrite reverse_involutive.
  - by apply Forall_reverse.
Qed.

Lemma rstrip_last v c : last (rstrip v) = Some c -> isspace c = false.
Proof. unfold rstrip. rewrite last_reverse. apply lstrip_head. Qed.

Lemma trim_parts v :
  exists p q,
    v = p ++ trim v ++ q
    /\ Forall (fun c => isspace c = true) p
    /\ Forall (fun c => isspace c = true) q.
Proof.
  destruct (rstrip_prefix v) as (q & Hq & Hsq).
  destruct (lstrip_suffix (rstrip v)) as (p & Hp & Hsp).
  exists p, q. split; [|done]. unfold trim.
  rewrite app_assoc, <- Hp. done.
Qed.

Lemma trim_head v c : head (trim v) = Some c -> isspace c = false.
Proof. apply lstrip_head. Qed.

Lemma trim_last v c : last (trim v) = Some c -> isspace c = false.
Proof.
  unfold trim. intros H.
  destruct (lstrip_suffix (rstrip v)) as (p & Hp & _).
  apply (rstrip_last v). rewrite Hp.
  destruct (lstrip (rstrip v)) as [|x l] eqn:E; [done|].
  by rewrite last_app_cons.
Qed.

(** X2: in a buffer that holds a string, trimming keeps the size of the
    buffer and leaves the string without its leading and trailing white
    space: what was removed on either side is white space only, and the
    result neither starts nor ends with white space. *)
Theorem cn_strip_whitespace_trims s :
  NUL ∈ s ->
  let r := cn_strip_whitespace s in
  length r = length s
  /\ (exists p q,
        cstr s = p ++ cstr r ++ q
        /\ Forall (fun c => isspace c = true) p
        /\ Forall (fun c => isspace c = true) q)
  /\ (forall c, head (cstr r) = Some c -> isspace c = false)
  /\ (forall c, last (cstr r) = Some c -> isspace c = false).
Proof.
  intros Hin r. subst r.
  pose proof (cstr_strip_whitespace s Hin) as Hc.
  destruct (strip_whitespace_shape s Hin) as (R & HR & Hl & _).
  rewrite Hc. split_and!.
  - by rewrite HR.
  - apply trim_parts.
  - apply trim_head.
  - apply trim_last.
Qed.

Lemma strip_trailing_stop s len :
  (forall c, last (take len s) = Some c -> isspace c = false) ->
  strip_trailing s len = s.
Proof.
  intros H. destruct len as [|l]; [done|]. cbn [strip_trailing].
  unfold char_at. destruct (s !! l) as [c|] eqn:E; [|done].
  rewrite (take_S_r _ _ _ E), last_snoc in H. by rewrite (H c eq_refl).
Qed.

Lemma leading_spaces_stop s :
  (forall c, head s = Some c -> isspace c = false) -> leading_spaces s = O.
Proof.
  intros H. destruct s as [|c s]; [done|]. simpl.
  rewrite (H c eq_refl). by rewrite andb_false_r.
Qed.

(** X3: trimming a trimmed buffer changes nothing, byte for byte. *)
Theorem cn_strip_whitespace_idempotent s :
  NUL ∈ s ->
  cn_strip_whitespace (cn_strip_whitespace s) = cn_strip_whitespace s.
Proof.
  intros Hin. destruct (strip_whitespace_shape s Hin) as (R & -> & _).
  set (t := trim (cstr s)).
  assert (NUL ∉ t) as Ht by apply trim_no_nul, cstr_no_nul.
  unfold cn_strip_whitespace at 1.
  destruct (is_nul (char_at (t ++ NUL :: R) 0)); [done|].
  rewrite strlen_app_nul by done.
  rewrite strip_trailing_stop.
  2:{ rewrite take_app_length. apply trim_last. }
  rewrite leading_spaces_stop; [done|].
  intros c Hc. destruct t as [|x t'] eqn:Et.
  - simpl in Hc. injection Hc as <-. apply isspace_NUL.
  - apply (trim_head (cstr s)). fold t. by rewrite Et.
Qed.

(** ** src/notes_io.c : the store stays well formed *)

Lemma store_ok_fresh : store_ok db_fresh.
Proof.
  split; [apply snap_inv_fresh|]. split; [done|]. split.
  - unfold db_fresh, INITIAL_CAPACITY, MAX_NOTES. simpl. lia.
  - intros i n _ Hn. unfold db_fresh in Hn. cbn [arr_of notes] in Hn.
    by apply lookup_replicate in Hn as [-> _].
Qed.

Lemma ensure_capacity_store_ok alloc_ok fresh db ok db1 :
  store_ok db ->
  ensure_capacity_for_one alloc_ok fresh db = Ok (ok, db1) ->
  ok <> 0 ->
  store_ok db1
  /\ count db1 = count db /\ next_id db1 = next_id db
  /\ live db1 = live db /\ count db1 < capacity db1.
Proof.
  intros Hstore He Hok. pose proof Hstore as (Hinv & Hnn & Hcap & Hfree).
  pose proof Hinv as (Hwf & Hn & Hmax & Hall).
  pose proof Hwf as (Hlen & Hc & Hsz & Hnid).
  destruct (notes db) as [arr|] eqn:Hnotes; [|done].
  assert (arr_of db = arr) as Harr by (unfold arr_of; by rewrite Hnotes).
  destruct (count db <? capacity db) eqn:E1.
  - unfold ensure_capacity_for_one in He. rewrite Hnotes, E1 in He.
    injection He as <- <-.
    split_and!; try done; try lia.
  - destruct (growth_full alloc_ok fresh db arr Hnotes) as (Heq & _ & Hfit);
      [lia|lia|].
    rewrite He in Heq. clear He.
    destruct (_ && _ && _) eqn:G; [|injection Heq as -> _; done].
    injection Heq as -> ->. specialize (Hfit eq_refl).
    apply andb_prop in G as [G _]. apply andb_prop in G as [_ G].
    set (nc := Z.min (capacity db * GROWTH_FACTOR) MAX_NOTES) in *.
    assert (capacity db < nc <= MAX_NOTES) as Hnc.
    { split; [lia|]. subst nc. lia. }
    assert (nc <= SIZE_MAX).
    { unfold sizeof_cn_note in Hfit. lia. }
    rewrite Harr in *.
    assert (wf_db {| notes := Some (arr ++ replicate (Z.to_nat (nc - capacity db)) zero_note);
                     count := count db; capacity := nc; next_id := next_id db |})
      as Hwf'.
    { unfold wf_db. cbn [arr_of notes count capacity next_id].
      rewrite length_app, length_replicate. split_and!; lia. }
    split.
    { split; [|split; [done|split; [cbn [capacity]; lia|]]].
      - split; [exact Hwf'|]. cbn [arr_of notes count capacity next_id].
        split; [done|]. split; [done|].
        apply Forall_app_2; [done|]. apply Forall_replicate, note_ok_zero.
      - intros i n Hi Hlook. cbn [arr_of notes count] in *.
        apply lookup_app_Some in Hlook as [Hl|[_ Hl]].
        + apply (Hfree i n); [done|]. unfold arr_of. by rewrite Hnotes.
        + by apply lookup_replicate in Hl as [-> _]. }
    cbn [count capacity next_id]. split; [done|]. split; [done|].
    split; [|lia].
    unfold live. cbn [count arr_of notes]. rewrite Harr.
    by rewrite take_app_le by lia.
Qed.

Lemma ensure_capacity_succeeds alloc_ok fresh db :
  store_ok db -> count db < MAX_NOTES ->
  (forall z, alloc_ok z = true) ->
  exists db1, ensure_capacity_for_one alloc_ok fresh db = Ok (1, db1).
Proof.
  intros (Hinv & Hnn & Hcap & Hfree) Hlim Ha.
  pose proof Hinv as (Hwf & _). pose proof Hwf as (Hlen & Hc & Hsz & Hnid).
  destruct (notes db) as [arr|] eqn:Hnotes; [|done].
  destruct (count db <? capacity db) eqn:E1.
  - exists db. unfold ensure_capacity_for_one. by rewrite Hnotes, E1.
  - destruct (growth_full alloc_ok fresh db arr Hnotes) as (Heq & _);
      [lia|lia|].
    rewrite Heq. rewrite Ha, andb_true_r.
    rewrite growth_guard_value.
    unfold INITIAL_CAPACITY, MAX_NOTES, GROWTH_FACTOR in *.
    replace (capacity db <=? 1026644260558189) with true by lia.
    replace (capacity db <? (capacity db * 2) `min` 1000000) with true by lia.
    eexists. reflexivity.
Qed.

Lemma store_ok_add alloc_ok fresh t0 c0 g0 now db r db' :
  store_ok db -> time_ok now ->
  cn_note_add alloc_ok fresh t0 c0 g0 now db = Ok (r, db') ->
  store_ok db'.
Proof.
  intros Hok Hnow Ha. pose proof Hok as (Hinv & Hnn & Hcap & Hfree).
  pose proof (snap_inv_add _ _ _ _ _ _ _ _ _ Hinv Hnow Ha) as Hinv'.
  destruct Hinv as (Hwf & _).
  destruct (cn_note_add_spec _ _ _ _ _ _ _ _ _ Hwf Ha)
    as [[-> ->]|(db1 & ok & t & c & _ & _ & He & Hne & _ & H)]; [done|].
  destruct H as (_ & Harr & _ & Hc & Hcap' & _ & _).
  destruct (ensure_capacity_store_ok _ _ _ _ _ Hok He Hne)
    as ((_ & Hnn1 & Hcap1 & Hfree1) & Hc1 & _ & _ & _).
  split; [done|]. split_and!.
  - intros Hnone. destruct Hinv' as ((Hlen' & _) & _).
    unfold arr_of in Hlen'. rewrite Hnone in Hlen'. simpl in Hlen'.
    change (Z.of_nat 0) with 0 in Hlen'. destruct Hcap1 as [Hcap1 _].
    unfold INITIAL_CAPACITY in Hcap1. clear -Hlen' Hcap' Hcap1. lia.
  - lia.
  - lia.
  - intros i n Hi Hlook. rewrite Harr in Hlook. rewrite Hc in Hi.
    destruct Hwf as (_ & Hcnt & _).
    rewrite list_lookup_insert_ne in Hlook by lia.
    apply (Hfree1 i n); [lia|done].
Qed.

Lemma not_none_of_capacity db :
  wf_db db -> 0 < capacity db -> notes db <> None.
Proof.
  intros (Hlen & _) Hc Hnone. unfold arr_of in Hlen. rewrite Hnone in Hlen.
  change (Z.of_nat (length [])) with 0 in Hlen. lia.
Qed.

Lemma store_ok_edit key t0 c0 g0 now db :
  store_ok db -> time_ok now ->
  store_ok (snd (cn_note_edit key t0 c0 g0 now db)).
Proof.
  intros (Hinv & Hnn & Hcap & Hfree) Hnow.
  pose proof (snap_inv_edit key t0 c0 g0 now db Hinv Hnow) as Hinv'.
  destruct (cn_note_edit_spec key t0 c0 g0 now db) as (Hc & Hcap' & _ & H).
  set (db' := snd _) in *.
  split; [done|]. split.
  { apply not_none_of_capacity; [apply Hinv'|].
    rewrite Hcap'. unfold INITIAL_CAPACITY in Hcap. lia. }
  split; [by rewrite Hcap'|].
  destruct H as [->|(i & Hf & _ & Harr)]; [done|].
  intros j n Hj Hlook. rewrite Harr in Hlook. rewrite Hc in Hj.
  apply find_id_lt in Hf. destruct Hinv as (Hwf & _).
  rewrite length_live in Hf by done.
  rewrite list_lookup_insert_ne in Hlook by lia.
  by apply (Hfree j n).
Qed.

Lemma cn_note_delete_arr key db i :
  wf_db db -> key <> 0 -> find_id (live db) key = Some i ->
  let last := Z.to_nat (count db - 1) in
  (i <= last)%nat /\ 0 < count db
  /\ arr_of (snd (cn_note_delete key db))
     = <[last := zero_note]>
         (if Z.of_nat i <? count db - 1
          then <[i := slot (arr_of db) last]> (arr_of db) else arr_of db).
Proof.
  intros Hwf Hk Hf last. pose proof Hwf as (Hlen & Hc & Hcap & Hn).
  pose proof (find_id_lt _ _ _ Hf) as Hi.
  rewrite length_live in Hi by done.
  unfold cn_note_delete. destruct (key =? 0) eqn:E; [lia|]. rewrite Hf.
  rewrite wrap_size_t_small by lia. cbn [snd arr_of notes].
  split; [lia|]. split; [lia|]. done.
Qed.

Lemma store_ok_delete key db :
  store_ok db -> store_ok (snd (cn_note_delete key db)).
Proof.
  intros (Hinv & Hnn & Hcap & Hfree).
  pose proof (snap_inv_delete key db Hinv) as Hinv'.
  pose proof Hinv as (Hwf & _).
  destruct (decide (key = 0)) as [->|Hk]; [done|].
  destruct (find_id (live db) key) as [i|] eqn:Hf.
  2:{ unfold cn_note_delete. destruct (key =? 0); [done|]. by rewrite Hf. }
  destruct (cn_note_delete_arr key db i Hwf Hk Hf) as (Hi & Hpos & Harr).
  destruct (cn_note_delete_found key db i Hwf Hk Hf)
    as (db' & Heq & Hc & Hcap' & _).
  rewrite Heq in *. cbn [snd] in *.
  split; [done|]. split.
  { apply not_none_of_capacity; [apply Hinv'|].
    rewrite Hcap'. unfold INITIAL_CAPACITY in Hcap. lia. }
  split; [by rewrite Hcap'|].
  intros j n Hj Hlook. rewrite Harr in Hlook. rewrite Hc in Hj.
  destruct (decide (j = Z.to_nat (count db - 1))) as [->|Hne].
  - apply list_lookup_insert_Some in Hlook as [(_ & Hz & _)|(Hne & _)];
      [done|done].
  - rewrite list_lookup_insert_ne in Hlook by done.
    assert (arr_of db !! j = Some n) as Hold.
    { destruct (Z.of_nat i <? count db - 1); [|done].
      rewrite list_lookup_insert_ne in Hlook by lia. done. }
    apply (Hfree j n); [lia|done].
Qed.

Lemma run_store_ok alloc_ok fresh ops db db' :
  store_ok db -> Forall op_time_ok ops ->
  run alloc_ok fresh ops db = Ok db' -> store_ok db'.
Proof.
  revert db. induction ops as [|o ops IH]; intros db Hinv Ht Hr.
  - cbn [run] in Hr. by injection Hr as <-.
  - cbn [run] in Hr. apply Forall_cons in Ht as [Ho Ht].
    destruct (step alloc_ok fresh o db) as [[r d1]|m] eqn:Hs; [|done].
    apply (IH d1); [|done|done].
    destruct o as [t c g now|k t c g now|k]; cbn [step op_time_ok] in Hs, Ho.
    + by eapply store_ok_add.
    + injection Hs as Hs.
      replace d1 with (snd (cn_note_edit k t c g now db)) by (by rewrite Hs).
      by apply store_ok_edit.
    + injection Hs as Hs.
      replace d1 with (snd (cn_note_delete k db)) by (by rewrite Hs).
      by apply store_ok_delete.
Qed.

(** X4: whatever calls are made on a well-formed store, with clock values
    in the range of [time_t], the store stays well formed: allocated,
    [count <= capacity], [64 <= capacity <= MAX_NOTES], every buffer of
    its declared size and ending in NUL, ids and timestamps in range,
    [next_id >= 1], and every unused slot zero. *)
Theorem store_stays_well_formed alloc_ok fresh ops db :
  store_ok db -> Forall op_time_ok ops ->
  match run alloc_ok fresh ops db with
  | Ok db' => store_ok db'
  | Fatal _ => True
  end.
Proof.
  intros Hok Ht.
  destruct (run alloc_ok fresh ops db) as [db'|] eqn:Hr; [|done].
  by eapply run_store_ok.
Qed.

(** ** src/notes_io.c : what the calls store *)

Lemma cstr_strip_strncpy buf s N :
  0 < N -> buf_ok N buf -> Z.of_nat (strlen s) < N ->
  cstr (cn_strip_whitespace (cn_safe_strncpy buf (Some s) N)) = trim (cstr s).
Proof.
  intros HN Hb Hfit.
  rewrite cstr_strip_whitespace.
  - destruct Hb as [Hlen _]. by rewrite cstr_strncpy_fits.
  - apply last_nul_elem. by apply (buf_ok_strncpy N buf (Some s)).
Qed.

Lemma cstr_strip_clear buf :
  buf <> [] -> cstr (cn_strip_whitespace (<[O := NUL]> buf)) = [].
Proof.
  intros Hb. destruct buf as [|x buf]; [done|]. reflexivity.
Qed.

Lemma buf_ok_nonempty N b : 0 < N -> buf_ok N b -> b <> [].
Proof. intros HN [Hlen _] ->. simpl in Hlen. lia. Qed.

Lemma trim_nil : trim [] = [].
Proof. reflexivity. Qed.

Lemma write_note_strings old nid t c g0 now :
  note_ok old ->
  Z.of_nat (strlen t) < MAX_TITLE_LEN ->
  Z.of_nat (strlen c) < MAX_CONTENT_LEN ->
  fits MAX_TAGS_LEN g0 ->
  note_strings (write_note old nid t c g0 now)
  = (trim (cstr t), trim (cstr c), trim (arg_str g0)).
Proof.
  intros (_ & Ht & Hc & Hg & _) Hft Hfc Hfg.
  destruct (write_note_fields old nid t c g0 now)
    as (_ & E2 & E3 & E4 & _).
  unfold note_strings. rewrite E2, E3, E4.
  rewrite !cstr_strip_strncpy by done. f_equal.
  destruct g0 as [g|]; cbn [arg_str fits] in *.
  - destruct (is_nul (char_at g 0)) eqn:E; cbn [negb].
    + apply is_nul_true, cstr_nil_iff in E. rewrite E, trim_nil.
      apply cstr_strip_clear. by apply (buf_ok_nonempty MAX_TAGS_LEN).
    + by apply cstr_strip_strncpy.
  - rewrite trim_nil. apply cstr_strip_clear.
    by apply (buf_ok_nonempty MAX_TAGS_LEN).
Qed.

Lemma valid_text_Some bound a :
  valid_text bound a ->
  exists s, a = Some s /\ is_nul (char_at s 0) = false
            /\ too_long s bound = false /\ arg_str a = cstr s.
Proof.
  destruct a as [s|]; [|done]. intros [Hne Hlt]. exists s.
  split; [done|]. split; [by apply is_nul_false|]. split; [|done].
  unfold too_long. rewrite Z.geb_leb. apply Z.leb_gt. lia.
Qed.

Lemma fits_not_too_long bound g :
  Z.of_nat (strlen g) < bound -> too_long g bound = false.
Proof. intros H. unfold too_long. rewrite Z.geb_leb. apply Z.leb_gt. lia. Qed.

(** A valid add on a store with room left (shared form). *)
Lemma add_valid alloc_ok fresh t0 c0 g0 now db :
  store_ok db ->
  (forall z, alloc_ok z = true) ->
  valid_text MAX_TITLE_LEN t0 -> valid_text MAX_CONTENT_LEN c0 ->
  fits MAX_TAGS_LEN g0 ->
  count db < MAX_NOTES ->
  exists db' n,
    cn_note_add alloc_ok fresh t0 c0 g0 now db = Ok (next_id db, db')
    /\ live db' = live db ++ [n]
    /\ count db' = count db + 1
    /\ next_id db' = (if next_id db =? UINT_MAX then 1 else next_id db + 1)
    /\ id n = next_id db
    /\ note_strings n = (trim (arg_str t0), trim (arg_str c0), trim (arg_str g0))
    /\ created_at n = now /\ modified_at n = now.
Proof.
  intros Hok Ha Ht Hc Hg Hlim.
  destruct (valid_text_Some _ _ Ht) as (t & -> & Ht0 & Htl & Hts).
  destruct (valid_text_Some _ _ Hc) as (c & -> & Hc0 & Hcl & Hcs).
  destruct (ensure_capacity_succeeds alloc_ok fresh db Hok Hlim Ha)
    as (db1 & He).
  destruct (ensure_capacity_store_ok _ _ _ _ _ Hok He ltac:(lia))
    as (Hok1 & Hc1 & Hn1 & Hlive1 & Hroom).
  pose proof Hok as ((Hwf & Hnid & _) & _).
  assert (exists db',
            cn_note_add alloc_ok fresh (Some t) (Some c) g0 now db
            = Ok (next_id db1, db'))
    as (db' & Hadd).
  { unfold cn_note_add. rewrite Ht0, Hc0, Htl, Hcl. cbn [orb].
    replace (match g0 with Some g => too_long g MAX_TAGS_LEN | None => false end)
      with false.
    2:{ destruct g0 as [g|]; [|done]. symmetry. by apply fits_not_too_long. }
    rewrite Z.geb_leb, (proj2 (Z.leb_gt _ _)) by lia.
    rewrite He. replace (1 =? 0) with false by done. cbv zeta.
    rewrite write_note_id. by eexists. }
  destruct (cn_note_add_spec _ _ _ _ _ _ _ _ _ Hwf Hadd)
    as [[Hz _]|(db1' & ok & t' & c' & [= <-] & [= <-] & He' & _ & _ & H)];
    [lia|].
  rewrite He in He'. injection He' as <- <-.
  destruct H as (_ & _ & Hlive & Hcnt & _ & Hnext & _).
  rewrite Hn1 in *. rewrite Hadd.
  eexists db', _. split; [done|]. split; [exact Hlive|].
  split; [done|]. split; [done|].
  split; [apply write_note_id|].
  destruct Hok1 as ((_ & _ & _ & Hall1) & _).
  split.
  - rewrite Hts, Hcs. apply write_note_strings; try done.
    + by apply note_ok_slot.
    + unfold too_long in Htl. rewrite Z.geb_leb in Htl.
      by apply Z.leb_gt in Htl.
    + unfold too_long in Hcl. rewrite Z.geb_leb in Hcl.
      by apply Z.leb_gt in Hcl.
  - split; apply write_note_fields.
Qed.

(** X5: on a well-formed store with fewer than [MAX_NOTES] notes and an
    allocator that does not fail, an add with a valid title, content and
    tags returns the current [next_id], appends one note after the live
    ones, and that note carries that id, the three strings trimmed (no
    tags when none or empty ones are given) and [now] in both
    timestamps; the counter moves on by one, back to 1 after
    [UINT_MAX]. *)
Theorem cn_note_add_stores alloc_ok fresh t0 c0 g0 now db :
  store_ok db ->
  (forall z, alloc_ok z = true) ->
  valid_text MAX_TITLE_LEN t0 -> valid_text MAX_CONTENT_LEN c0 ->
  fits MAX_TAGS_LEN g0 ->
  count db < MAX_NOTES ->
  exists db' n,
    cn_note_add alloc_ok fresh t0 c0 g0 now db = Ok (next_id db, db')
    /\ live db' = live db ++ [n]
    /\ count db' = count db + 1
    /\ next_id db' = (if next_id db =? UINT_MAX then 1 else next_id db + 1)
    /\ id n = next_id db
    /\ note_strings n = (trim (arg_str t0), trim (arg_str c0), trim (arg_str g0))
    /\ created_at n = now /\ modified_at n = now.
Proof. apply add_valid. Qed.

(** X6: an add whose title or content is NULL, empty or too long, or whose
    tags are too long, returns 0 and leaves the store as it is, whatever
    the store and the allocator. *)
Theorem cn_note_add_rejects alloc_ok fresh t0 c0 g0 now db :
  ~ valid_text MAX_TITLE_LEN t0 \/ ~ valid_text MAX_CONTENT_LEN c0
  \/ ~ fits MAX_TAGS_LEN g0 ->
  cn_note_add alloc_ok fresh t0 c0 g0 now db = Ok (0, db).
Proof.
  intros H. unfold cn_note_add.
  destruct t0 as [t|]; [|done]. destruct c0 as [c|]; [|done].
  destruct (is_nul (char_at t 0)) eqn:Et0; [done|].
  destruct (is_nul (char_at c 0)) eqn:Ec0; [done|]. cbn [orb].
  apply is_nul_false in Et0, Ec0.
  destruct (too_long t MAX_TITLE_LEN) eqn:Etl; [done|].
  destruct (too_long c MAX_CONTENT_LEN) eqn:Ecl; [done|]. cbn [orb].
  unfold too_long in *. rewrite Z.geb_leb in Etl, Ecl.
  apply Z.leb_gt in Etl, Ecl.
  destruct H as [H|[H|H]]; [by destruct H|by destruct H|].
  destruct g0 as [g|]; [|by destruct H]. cbn [fits] in H.
  rewrite Z.geb_leb, (proj2 (Z.leb_le _ _)) by lia. done.
Qed.

Lemma find_id_absent l key : key ∉ (id <$> l) -> find_id l key = None.
Proof.
  intros H. destruct (find_id l key) as [i|] eqn:E; [|done].
  apply find_id_Some in E as (n & Hn & Hid & _). exfalso. apply H.
  apply list_elem_of_fmap. exists n. split; [done|].
  by eapply list_elem_of_lookup_2.
Qed.

(** X7: an edit or a delete of id 0, or of an id no live note has, returns
    0 and leaves the store as it is. *)
Theorem crud_missing_id key t0 c0 g0 now db :
  key = 0 \/ key ∉ ids db ->
  cn_note_edit key t0 c0 g0 now db = (0, db)
  /\ cn_note_delete key db = (0, db).
Proof.
  intros H. unfold cn_note_edit, cn_note_delete.
  destruct (key =? 0) eqn:E; [done|].
  destruct H as [->|H]; [done|].
  by rewrite (find_id_absent _ _ H).
Qed.

Lemma find_id_app_last l n key :
  key ∉ (id <$> l) -> id n = key -> find_id (l ++ [n]) key = Some (length l).
Proof.
  intros Hl Hn. induction l as [|m l IH]; simpl.
  - by rewrite Hn, Z.eqb_refl.
  - rewrite fmap_cons in Hl. apply not_elem_of_cons in Hl as [Hm Hl].
    replace (id m =? key) with false by lia. by rewrite IH.
Qed.

(** X8: deleting the note an add has just made, when its id was not in use
    before (as is the case until the counter wraps), returns 1 and puts
    the live notes and the count back to what they were before the add;
    the id counter is not set back. *)
Theorem add_then_delete alloc_ok fresh t0 c0 g0 now db r db1 :
  wf_db db ->
  cn_note_add alloc_ok fresh t0 c0 g0 now db = Ok (r, db1) ->
  r <> 0 -> r ∉ ids db ->
  let (r2, db2) := cn_note_delete r db1 in
  r2 = 1 /\ live db2 = live db /\ count db2 = count db
  /\ next_id db2 = next_id db1.
Proof.
  intros Hwf Ha Hr Hfresh.
  destruct (cn_note_add_spec _ _ _ _ _ _ _ _ _ Hwf Ha)
    as [[-> _]|(d & ok & t & c & _ & _ & _ & _ & _ & H)]; [done|].
  destruct H as (Hrid & _ & Hlive & Hc & _ & _ & Hwf1).
  assert (find_id (live db1) r = Some (Z.to_nat (count db))) as Hf.
  { rewrite Hlive, <- (length_live db) by done.
    apply find_id_app_last; [done|]. rewrite write_note_id. done. }
  destruct (cn_note_delete_arr r db1 _ Hwf1 Hr Hf) as (_ & _ & Harr).
  destruct (cn_note_delete_found r db1 _ Hwf1 Hr Hf)
    as (db2 & Heq & Hc2 & _ & Hn2 & _).
  rewrite Heq in *. cbn [snd] in Harr.
  pose proof Hwf as (_ & Hcnt & _).
  split; [done|]. split; [|split; [lia|done]].
  unfold live at 1. rewrite Hc2, Harr, Hc.
  replace (count db + 1 - 1) with (count db) by lia.
  rewrite (proj2 (Z.ltb_ge _ _)) by lia.
  rewrite take_insert_ge by lia.
  assert (take (Z.to_nat (count db)) (live db1) = live db) as Ht.
  { rewrite Hlive, <- (length_live db) by done.
    by rewrite take_app_length. }
  rewrite <- Ht. unfold live. rewrite take_take, Hc. f_equal. lia.
Qed.

Lemma edit_title_fits note t0 :
  buf_ok MAX_TITLE_LEN (title note) -> fits MAX_TITLE_LEN t0 ->
  exists X,
    edit_title note t0 = Some (set_title note X)
    /\ cstr X = edited_text t0 (cstr (title note)).
Proof.
  intros Hb Hf. unfold edit_title, edited_text.
  destruct t0 as [t|]; [|by exists (title note); destruct note].
  cbn [fits] in Hf. destruct (is_nul (char_at t 0)); cbn [negb].
  - by exists (title note); destruct note.
  - rewrite fits_not_too_long by done. eexists. split; [done|].
    by apply cstr_strip_strncpy.
Qed.

Lemma edit_content_fits note c0 :
  buf_ok MAX_CONTENT_LEN (content note) -> fits MAX_CONTENT_LEN c0 ->
  exists Y,
    edit_content note c0 = Some (set_content note Y)
    /\ cstr Y = edited_text c0 (cstr (content note)).
Proof.
  intros Hb Hf. unfold edit_content, edited_text.
  destruct c0 as [c|]; [|by exists (content note); destruct note].
  cbn [fits] in Hf. destruct (is_nul (char_at c 0)); cbn [negb].
  - by exists (content note); destruct note.
  - rewrite fits_not_too_long by done. eexists. split; [done|].
    by apply cstr_strip_strncpy.
Qed.

Lemma edit_tags_fits note g0 :
  buf_ok MAX_TAGS_LEN (tags note) -> fits MAX_TAGS_LEN g0 ->
  exists W,
    edit_tags note g0 = Some (set_tags note W)
    /\ cstr W = edited_tags g0 (cstr (tags note)).
Proof.
  intros Hb Hf. unfold edit_tags, edited_tags.
  destruct g0 as [g|]; [|by exists (tags note); destruct note].
  cbn [fits] in Hf. rewrite fits_not_too_long by done.
  eexists. split; [done|]. by apply cstr_strip_strncpy.
Qed.

(** X9: an edit of an existing note whose supplied fields fit their
    buffers returns 1; the note keeps its id and [created_at], gets
    [now] as [modified_at], and its strings are: the trimmed new title
    and content where a non-empty one is given (the old ones otherwise),
    the trimmed new tags where tags are given, so that empty tags clear
    them (the old ones for NULL).  No other slot and no counter
    changes. *)
Theorem cn_note_edit_applies key t0 c0 g0 now db i :
  key <> 0 ->
  find_id (live db) key = Some i ->
  note_ok (slot (arr_of db) i) ->
  fits MAX_TITLE_LEN t0 -> fits MAX_CONTENT_LEN c0 -> fits MAX_TAGS_LEN g0 ->
  let old := slot (arr_of db) i in
  let (r, db') := cn_note_edit key t0 c0 g0 now db in
  let new := slot (arr_of db') i in
  r = 1
  /\ id new = id old /\ created_at new = created_at old
  /\ modified_at new = now
  /\ note_strings new
     = (edited_text t0 (cstr (title old)),
        edited_text c0 (cstr (content old)),
        edited_tags g0 (cstr (tags old)))
  /\ (forall j, j <> i -> arr_of db' !! j = arr_of db !! j)
  /\ count db' = count db /\ next_id db' = next_id db.
Proof.
  intros Hk Hf (_ & Hbt & Hbc & Hbg & _) Hft Hfc Hfg old. subst old.
  unfold cn_note_edit. destruct (key =? 0) eqn:E; [lia|]. rewrite Hf.
  set (old := slot (arr_of db) i) in *.
  destruct (edit_title_fits old t0 Hbt Hft) as (X & HX & HcX).
  destruct (edit_content_fits (set_title old X) c0 Hbc Hfc) as (Y & HY & HcY).
  destruct (edit_tags_fits (set_content (set_title old X) Y) g0 Hbg Hfg)
    as (W & HW & HcW).
  unfold edit_found. rewrite HX, HY, HW.
  cbn [arr_of notes count next_id].
  assert (i < length (arr_of db))%nat as Hi.
  { apply find_id_Some in Hf as (n & Hn & _).
    apply live_lookup in Hn as [Hn _]. by eapply lookup_lt_Some. }
  rewrite slot_insert_eq by done.
  unfold note_strings.
  cbn [id title content tags created_at modified_at set_title set_content
       set_tags set_modified_at] in *.
  split_and!; try done.
  - by rewrite HcX, HcY, HcW.
  - intros j Hj. by rewrite list_lookup_insert_ne.
Qed.

(** ** src/notes_io.c : adding many notes *)

Lemma adds_run alloc_ok fresh ops db :
  store_ok db ->
  (forall z, alloc_ok z = true) ->
  Forall valid_add ops ->
  count db + Z.of_nat (length ops) <= MAX_NOTES ->
  next_id db + Z.of_nat (length ops) <= UINT_MAX ->
  exists db' new,
    run alloc_ok fresh ops db = Ok db'
    /\ count db' = count db + Z.of_nat (length ops)
    /\ live db' = live db ++ new
    /\ id <$> new = seqZ (next_id db) (Z.of_nat (length ops))
    /\ note_strings <$> new = op_strings <$> ops.
Proof.
  intros Hok Ha Hv. revert db Hok.
  induction Hv as [|o ops Ho Hv IH]; intros db Hok Hlim Hid.
  - exists db, []. cbn [run length]. rewrite app_nil_r.
    change (Z.of_nat 0) with 0. rewrite Z.add_0_r. done.
  - destruct o as [t c g now| |]; [|done|done].
    destruct Ho as (Ht & Hc & Hg & Hnow). cbn [length] in Hlim, Hid.
    destruct (add_valid alloc_ok fresh t c g now db Hok Ha Ht Hc Hg ltac:(lia))
      as (db1 & n & Hadd & Hlive & Hcnt & Hnext & Hnid & Hstr & _).
    pose proof (store_ok_add _ _ _ _ _ _ _ _ _ Hok Hnow Hadd) as Hok1.
    assert (next_id db1 = next_id db + 1) as Hn1.
    { rewrite Hnext. destruct (next_id db =? UINT_MAX) eqn:E; lia. }
    destruct (IH db1 Hok1 ltac:(lia) ltac:(lia))
      as (db' & new & Hrun & Hc' & Hl' & Hids & Hstrs).
    exists db', (n :: new). cbn [run step length]. rewrite Hadd.
    split; [done|]. split; [lia|]. split.
    { rewrite Hl', Hlive, <- app_assoc. done. }
    split.
    + rewrite fmap_cons, Hnid, Hids, Hn1.
      rewrite (seqZ_cons (next_id db)) by lia. do 2 f_equal; lia.
    + by rewrite !fmap_cons, Hstr, Hstrs.
Qed.

(** X10: starting from the fresh store, with an allocator that does not
    fail, any sequence of at most [MAX_NOTES] valid adds returns, and
    the store then holds exactly one note per add, in the order of the
    adds, with the ids 1, 2, 3, ... and the trimmed strings of the
    arguments: growth of the array never loses or alters a note. *)
Theorem adds_from_fresh alloc_ok fresh ops :
  (forall z, alloc_ok z = true) ->
  Forall valid_add ops ->
  Z.of_nat (length ops) <= MAX_NOTES ->
  exists db,
    run alloc_ok fresh ops db_fresh = Ok db
    /\ count db = Z.of_nat (length ops)
    /\ ids db = seqZ 1 (Z.of_nat (length ops))
    /\ note_strings <$> live db = op_strings <$> ops.
Proof.
  intros Ha Hv Hlen.
  destruct (adds_run alloc_ok fresh ops db_fresh store_ok_fresh Ha Hv)
    as (db & new & Hrun & Hc & Hl & Hids & Hstr).
  - cbn [db_fresh count]. lia.
  - cbn [db_fresh next_id]. unfold MAX_NOTES, UINT_MAX in *. lia.
  - exists db. unfold ids. rewrite Hl.
    change (live db_fresh) with (@nil cn_note). cbn [app].
    split_and!; try done.
Qed.

(** ** src/db.c : what a load yields *)

Lemma length_sub_bytes off len bs :
  0 <= off -> 0 <= len -> off + len <= Z.of_nat (length bs) ->
  Z.of_nat (length (sub_bytes off len bs)) = len.
Proof.
  intros Ho Hl Hb. unfold sub_bytes. rewrite length_take, length_drop. lia.
Qed.

Lemma le_value_range len bs :
  Z.of_nat (length bs) = len -> 0 <= le_value bs < 256 ^ len.
Proof. intros <-. apply le_value_bounds. Qed.

Lemma le_signed64_range bs :
  Z.of_nat (length bs) = 8 -> time_ok (le_signed64 bs).
Proof.
  intros H. pose proof (le_value_range 8 bs H) as Hr.
  change (256 ^ 8) with (2 ^ 64) in Hr.
  unfold le_signed64, time_ok. destruct (le_value bs <? 2 ^ 63) eqn:E; lia.
Qed.

Lemma buf_ok_terminate N b :
  0 < N -> Z.of_nat (length b) = N ->
  buf_ok N (<[Z.to_nat (N - 1) := NUL]> b).
Proof.
  intros HN Hlen. split; [by rewrite length_insert|].
  rewrite last_lookup, length_insert.
  replace (pred (length b)) with (Z.to_nat (N - 1)) by lia.
  apply list_lookup_insert_eq. lia.
Qed.

(** Whatever the bytes of a record, the sanitized slot is within its
    bounds. *)
Lemma note_ok_loaded bs :
  Z.of_nat (length bs) = sizeof_cn_note ->
  note_ok (sanitize_note (note_of_bytes bs)).
Proof.
  intros Hlen. unfold sizeof_cn_note in Hlen.
  unfold sanitize_note, note_of_bytes, note_ok.
  cbn [id title content tags created_at modified_at set_title set_content
       set_tags].
  unfold MAX_TITLE_LEN, MAX_CONTENT_LEN, MAX_TAGS_LEN, UINT_MAX.
  split_and!.
  - apply (le_value_range 4). apply length_sub_bytes; lia.
  - pose proof (le_value_range 4 (sub_bytes 0 4 bs)) as H.
    change (256 ^ 4) with (2 ^ 32) in H.
    rewrite length_sub_bytes in H by lia. specialize (H eq_refl). lia.
  - apply buf_ok_terminate; [lia|]. apply length_sub_bytes; lia.
  - apply buf_ok_terminate; [lia|]. apply length_sub_bytes; lia.
  - apply buf_ok_terminate; [lia|]. apply length_sub_bytes; lia.
  - apply le_signed64_range. apply length_sub_bytes; lia.
  - apply le_signed64_range. apply length_sub_bytes; lia.
Qed.

Lemma fread_notes_loaded n f :
  Forall note_ok (map sanitize_note (fread_notes n f)).
Proof.
  revert f. induction n as [|n IH]; intros f; [constructor|].
  cbn [fread_notes].
  destruct (fread_item sizeof_cn_note f) as [[bs f']|] eqn:E; [|constructor].
  apply fread_item_length in E as (Hl & _); [|by unfold sizeof_cn_note].
  cbn [map]. constructor; [by apply note_ok_loaded|apply IH].
Qed.

Lemma store_ok_with_next_id v :
  1 <= v <= UINT_MAX -> store_ok (with_next_id db_fresh v).
Proof.
  intros Hv.
  destruct store_ok_fresh as ((Hwf & _ & Hmax & Hall) & Hnn & Hcap & Hfree).
  destruct Hwf as (H1 & H2 & H3 & _).
  unfold store_ok, snap_inv, wf_db, free_zero, with_next_id.
  cbn [arr_of notes count capacity next_id].
  split_and!; try done; lia.
Qed.

(** What [cn_db_load] returns to a fresh process is a well-formed store,
    whatever the file holds (shared form). *)
Lemma load_store_ok alloc_ok path fs db db' :
  notes db = None ->
  cn_db_load alloc_ok path fs db = Ok db' -> store_ok db'.
Proof.
  intros Hn Hl.
  assert (forall d, cn_db_init alloc_ok db = Ok d -> store_ok d) as Hinit.
  { intros d. unfold cn_db_init. rewrite Hn.
    destruct (alloc_ok _); [|done]. intros [= <-]. apply store_ok_fresh. }
  unfold cn_db_load in Hl. destruct (String.eqb path ""); [by apply Hinit|].
  destruct (fs !! path) as [f|]; [|by apply Hinit].
  destruct (fread_item 8 f) as [[b1 f1]|] eqn:E1; [|by apply Hinit].
  destruct (fread_item 4 f1) as [[b2 f2]|] eqn:E2; [|by apply Hinit].
  apply fread_item_length in E1 as (Hb1 & _); [|lia].
  apply fread_item_length in E2 as (Hb2 & _); [|lia].
  pose proof (le_value_range 8 b1 Hb1) as Hc.
  pose proof (le_value_range 4 b2 Hb2) as Hi.
  change (256 ^ 8) with (2 ^ 64) in Hc. change (256 ^ 4) with (2 ^ 32) in Hi.
  set (file_count := le_value b1) in *. set (file_next_id := le_value b2) in *.
  destruct ((file_count >? MAX_NOTES) || (file_next_id =? 0)) eqn:E;
    [by apply Hinit|].
  apply orb_false_elim in E as [Ec Ei].
  destruct (file_count =? 0) eqn:E0.
  { unfold cn_db_init in Hl. rewrite Hn in Hl.
    destruct (alloc_ok _); [|done]. injection Hl as <-.
    apply store_ok_with_next_id. unfold UINT_MAX. lia. }
  set (cap0 := if file_count <? INITIAL_CAPACITY then INITIAL_CAPACITY
               else file_count) in *.
  set (doubled := wrap_size_t (file_count * GROWTH_FACTOR)) in *.
  set (cap := if (cap0 <? doubled) && (doubled <=? MAX_NOTES)
              then doubled else cap0) in *.
  assert (INITIAL_CAPACITY <= cap <= MAX_NOTES /\ file_count <= cap) as Hcap.
  { subst cap cap0. unfold INITIAL_CAPACITY, MAX_NOTES in *.
    destruct (file_count <? 64) eqn:Ea;
      destruct (_ && _) eqn:Eb; try lia;
      apply andb_prop in Eb as [Eb1 Eb2]; lia. }
  destruct (alloc_ok _); [|done]. cbn [negb] in Hl.
  destruct (Z.of_nat (length (fread_notes (Z.to_nat file_count) f2))
            =? file_count) eqn:Er; cbn [negb] in Hl; [|by apply Hinit].
  injection Hl as <-. apply Z.eqb_eq in Er.
  set (read := fread_notes (Z.to_nat file_count) f2) in *.
  unfold store_ok, snap_inv, wf_db, free_zero.
  cbn [arr_of notes count capacity next_id].
  rewrite length_app, length_map, length_replicate.
  unfold SIZE_MAX, UINT_MAX, MAX_NOTES, INITIAL_CAPACITY in *.
  split_and!; try done; try lia.
  - apply Forall_app_2; [apply fread_notes_loaded|].
    apply Forall_replicate, note_ok_zero.
  - intros i n Hge Hlook.
    apply lookup_app_Some in Hlook as [Hl|[_ Hl]].
    + apply lookup_lt_Some in Hl. rewrite length_map in Hl. lia.
    + by apply lookup_replicate in Hl as [-> _].
Qed.


(** X12: a whole session round-trips: load any snapshot file (or none) in a
    fresh process, make any calls, save; a fresh process then loads a
    store with the same count, next id and live notes. *)
Theorem session_round_trip alloc_ok fresh alloc_ok' padding ops
    path0 fs0 d0 path fs d1 :
  notes d0 = None -> notes d1 = None ->
  Forall op_time_ok ops ->
  path <> ""%string ->
  Z.of_nat (String.length path) + 4 < PATH_MAX ->
  (forall z, alloc_ok' z = true) ->
  match cn_db_load alloc_ok path0 fs0 d0 with
  | Fatal _ => True
  | Ok loaded =>
      match run alloc_ok fresh ops loaded with
      | Fatal _ => True
      | Ok db =>
          let (fs', r) := cn_db_save io_all_ok padding path fs db in
          r = Ok tt
          /\ exists db',
               cn_db_load alloc_ok' path fs' d1 = Ok db'
               /\ count db' = count db
               /\ next_id db' = next_id db
               /\ live db' = live db
      end
  end.
Proof.
  intros Hd0 Hd1 Ht Hp Hlen Ha.
  destruct (cn_db_load alloc_ok path0 fs0 d0) as [loaded|] eqn:Hload; [|done].
  apply load_store_ok in Hload as (Hinv0 & _); [|done].
  destruct (run alloc_ok fresh ops loaded) as [db|] eqn:Hr; [|done].
  pose proof (run_snap_inv _ _ _ _ _ Hinv0 Ht Hr) as Hinv.
  unfold cn_db_save. pose proof Hp as Hp'. apply String.eqb_neq in Hp'.
  rewrite Hp'. cbn [io_all_ok dirs_ok fopen_ok fwrite_count_ok
    fwrite_next_id_ok fwrite_notes_ok fclose_ok rename_ok negb orb].
  rewrite string_length_app. cbn [String.length].
  rewrite Z.geb_leb, (proj2 (Z.leb_gt _ _)) by lia.
  rewrite andb_false_r. split; [done|].
  by apply load_saved.
Qed.

(** ** src/db.c : what a save writes *)

Lemma tmp_path_ne (path : string) : (path ++ ".tmp")%string <> path.
Proof.
  intros H. apply (f_equal String.length) in H.
  rewrite string_length_app in H. simpl in H. lia.
Qed.

(** X13: a save touches no file but the snapshot and its temporary file.
    When it fails, the snapshot file is what it was before the call;
    when it returns, the snapshot file is exactly the header and the
    bytes of the live slots as they stand in memory (their padding
    bytes included, whatever they hold), and no temporary file is
    left. *)
Theorem cn_db_save_atomic io padding path fs db :
  let tmp := (path ++ ".tmp")%string in
  let (fs', r) := cn_db_save io padding path fs db in
  (forall p, p <> path -> p <> tmp -> fs' !! p = fs !! p)
  /\ match r with
     | Fatal _ => fs' !! path = fs !! path
     | Ok _ =>
         fs' !! path
         = Some (le_bytes 8 (count db) ++ le_bytes 4 (next_id db)
                 ++ (if count db >? 0 then slots_bytes padding 0 (live db)
                     else []))
         /\ fs' !! tmp = None
     end.
Proof.
  intros tmp. pose proof (tmp_path_ne path) as Hne. fold tmp in Hne.
  unfold cn_db_save, snapshot_bytes. fold tmp.
  repeat (match goal with
          | |- context [if ?b then _ else _] => destruct b
          end;
          try (split; [intros p Hp1 Hp2; by rewrite ?lookup_delete_ne|];
               by rewrite ?lookup_delete_ne)).
  all: split;
    [intros p Hp1 Hp2; by rewrite lookup_insert_ne, lookup_delete_ne|].
  all: rewrite lookup_insert_eq; split; [reflexivity|].
  all: by rewrite lookup_insert_ne, lookup_delete_eq.
Qed.

Lemma length_records padding l :
  Forall note_ok l ->
  forall i,
    Z.of_nat (length (slots_bytes padding i l))
    = Z.of_nat (length l) * sizeof_cn_note.
Proof.
  induction 1 as [|n l Hn Hl IH]; intros i; [done|].
  cbn [slots_bytes length]. rewrite length_app, Nat2Z.inj_add, IH.
  rewrite (length_note_bytes _ n Hn). lia.
Qed.

(** X14: the snapshot of a store within its bounds is 12 bytes of header
    and [sizeof(cn_note)] bytes per live note, and its header reads back
    the count and the next id, whatever the padding bytes hold. *)
Theorem snapshot_layout padding db :
  snap_inv db ->
  Z.of_nat (length (snapshot_bytes padding db))
  = 12 + count db * sizeof_cn_note
  /\ exists body,
       read_header (snapshot_bytes padding db)
       = Some (count db, next_id db, body)
       /\ Z.of_nat (length body) = count db * sizeof_cn_note.
Proof.
  intros (Hwf & Hn & Hmax & Hall).
  pose proof Hwf as (Hlen & Hc & Hcap & Hnid).
  assert (Z.of_nat (length (if count db >? 0
                            then slots_bytes padding 0 (live db) else []))
          = count db * sizeof_cn_note) as Hbody.
  { destruct (count db >? 0) eqn:E.
    - rewrite length_records by by apply Forall_take.
      rewrite length_live by done. lia.
    - rewrite Z.gtb_ltb in E. apply Z.ltb_ge in E.
      replace (count db) with 0 by lia. reflexivity. }
  unfold snapshot_bytes. split.
  - rewrite !length_app, !length_le_bytes, !Nat2Z.inj_add, Hbody. lia.
  - eexists. unfold read_header.
    rewrite (fread_item_app 8) by (rewrite length_le_bytes; reflexivity).
    rewrite (fread_item_app 4) by (rewrite length_le_bytes; reflexivity).
    rewrite !le_value_unsigned.
    + split; [done|exact Hbody].
    + change (256 ^ Z.of_nat 4) with (2 ^ 32). unfold UINT_MAX in Hnid. lia.
    + change (256 ^ Z.of_nat 8) with (2 ^ 64). unfold SIZE_MAX in Hcap. lia.
Qed.

(** ** src/search.c : content matching *)

Lemma code_zero_iff c : code c = 0 <-> c = NUL.
Proof.
  unfold code, NUL. split; [|by intros ->].
  intros H. rewrite <- (ascii_N_embedding c).
  replace (N_of_ascii c) with 0%N by lia. reflexivity.
Qed.

Lemma strcmp_eq a b :
  NUL ∉ a -> NUL ∉ b -> strcmp a b = 0 <-> a = b.
Proof.
  revert b. induction a as [|c a IH]; intros [|d b] Ha Hb; cbn [strcmp].
  - done.
  - apply not_elem_of_cons in Hb as [Hd _]. split; [|done].
    intros H. exfalso. apply Hd. symmetry. apply code_zero_iff. lia.
  - apply not_elem_of_cons in Ha as [Hc _]. split; [|done].
    intros H. exfalso. apply Hc. symmetry. by apply code_zero_iff.
  - apply not_elem_of_cons in Ha as [Hc Ha].
    apply not_elem_of_cons in Hb as [Hd Hb].
    destruct (Ascii.eqb c d) eqn:E.
    + apply Ascii.eqb_eq in E as ->. rewrite IH by done.
      split; [by intros ->|by intros [= ->]].
    + apply Ascii.eqb_neq in E. split; [|by intros [= -> ->]].
      intros H. exfalso. apply E.
      rewrite <- (ascii_N_embedding c), <- (ascii_N_embedding d).
      f_equal. unfold code in H. lia.
Qed.

Lemma strlen_buf_ok N b : buf_ok N b -> Z.of_nat (strlen b) < N.
Proof.
  intros [Hlen Hlast]. pose proof (last_nul_elem _ Hlast) as Hin.
  pose proof (cstr_split b Hin) as Hs.
  apply (f_equal length) in Hs. rewrite length_app in Hs.
  unfold cstr in Hs. rewrite length_take in Hs. cbn [length] in Hs.
  pose proof (strlen_le b). lia.
Qed.

Lemma is_substring_refl v : is_substring v v.
Proof. exists [], []. by rewrite app_nil_r. Qed.

Lemma is_substring_lower q v :
  is_substring q v -> is_substring (lower q) (lower v).
Proof.
  intros (pre & post & ->). exists (lower pre), (lower post).
  unfold lower. by rewrite !map_app.
Qed.

(** The literal search on a stored note, by cases on its two flags. *)
Lemma match_content_literal alloc_ok regcomp n o pat :
  (forall z, alloc_ok z = true) ->
  note_ok n ->
  pattern o = Some pat -> cstr pat <> [] -> regex_mode o = false ->
  (case_insensitive o = true -> Z.of_nat (strlen pat) <= MAX_SEARCH_LEN) ->
  let f := if case_insensitive o then lower else (fun v => v) in
  cn_note_match_content alloc_ok regcomp (Some n) (Some o) = true
  <-> exists v, v ∈ field_values n
        /\ if exact_match o then f v = f (cstr pat)
           else is_substring (f (cstr pat)) (f v).
Proof.
  intros Ha (_ & Ht & Hc & Hg & _) Hp Hne Hre Hlen f.
  apply strlen_buf_ok in Ht, Hc, Hg.
  unfold cn_note_match_content. rewrite Hp, Hre.
  destruct (is_nul (char_at pat 0)) eqn:E0.
  { apply is_nul_true in E0. by apply cstr_nil_iff in E0. }
  rewrite !Ha. cbn [negb orb]. rewrite andb_false_r.
  assert (case_insensitive o
          && ((Z.of_nat (strlen (title n)) >? MAX_CONTENT_LEN)
              || (Z.of_nat (strlen (content n)) >? MAX_CONTENT_LEN)
              || (Z.of_nat (strlen (tags n)) >? MAX_TAGS_LEN)
              || (Z.of_nat (strlen pat) >? MAX_SEARCH_LEN)) = false) as ->.
  { destruct (case_insensitive o); [|done]. specialize (Hlen eq_refl).
    unfold MAX_TITLE_LEN, MAX_CONTENT_LEN, MAX_TAGS_LEN, MAX_SEARCH_LEN in *.
    rewrite !Z.gtb_ltb, !(proj2 (Z.ltb_ge _ _)) by lia. done. }
  assert (forall s, NUL ∉ f (cstr s)) as Hnn.
  { intros s. subst f. destruct (case_insensitive o);
      [apply lower_no_nul|]; apply cstr_no_nul. }
  change (fun s => if case_insensitive o then map tolower (cstr s)
                   else cstr s)
    with (fun s => (if case_insensitive o then map tolower (cstr s)
                    else cstr s)).
  assert (forall s, (if case_insensitive o then map tolower (cstr s)
                     else cstr s) = f (cstr s)) as Hf.
  { intros s. subst f. by destruct (case_insensitive o). }
  cbv zeta. rewrite !Hf. unfold field_values.
  destruct (exact_match o).
  - rewrite !orb_true_iff, !Z.eqb_eq, !strcmp_eq by apply Hnn. split.
    + intros [[H|H]|H]; eexists; (split; [|exact H]); set_solver.
    + intros (v & Hv & H).
      apply elem_of_cons in Hv as [->|Hv]; [by left; left|].
      apply elem_of_cons in Hv as [->|Hv]; [by left; right|].
      apply list_elem_of_singleton in Hv as ->. by right.
  - rewrite !orb_true_iff, !strstr_spec. split.
    + intros [[H|H]|H]; eexists; (split; [|exact H]); set_solver.
    + intros (v & Hv & H).
      apply elem_of_cons in Hv as [->|Hv]; [by left; left|].
      apply elem_of_cons in Hv as [->|Hv]; [by left; right|].
      apply list_elem_of_singleton in Hv as ->. by right.
Qed.

(** X15: a literal search (no regex) on a stored note, with a pattern of at
    most [MAX_SEARCH_LEN] characters when case is ignored: the note
    matches exactly when one of its title, content and tags contains
    the pattern (is equal to it, with [exact_match]), both sides
    lower-cased when [case_insensitive] is set. *)
Theorem cn_note_match_content_literal alloc_ok regcomp n o pat :
  (forall z, alloc_ok z = true) ->
  note_ok n ->
  pattern o = Some pat -> cstr pat <> [] -> regex_mode o = false ->
  (case_insensitive o = true -> Z.of_nat (strlen pat) <= MAX_SEARCH_LEN) ->
  let f := if case_insensitive o then lower else (fun v => v) in
  cn_note_match_content alloc_ok regcomp (Some n) (Some o) = true
  <-> exists v, v ∈ field_values n
        /\ if exact_match o then f v = f (cstr pat)
           else is_substring (f (cstr pat)) (f v).
Proof. apply match_content_literal. Qed.

(** X16: in a literal search, a note that matches with [exact_match] also
    matches without it, whatever the note and the other options. *)
Theorem exact_match_is_substring_match alloc_ok regcomp note o :
  regex_mode o = false ->
  cn_note_match_content alloc_ok regcomp note
    (Some (set_exact_match o true)) = true ->
  cn_note_match_content alloc_ok regcomp note
    (Some (set_exact_match o false)) = true.
Proof.
  intros Hre. destruct note as [n|]; [|done].
  unfold cn_note_match_content, set_exact_match.
  cbn [pattern regex_mode case_insensitive exact_match].
  rewrite Hre. destruct (pattern o) as [pat|]; [|done].
  destruct (is_nul (char_at pat 0)); [done|].
  destruct (_ && _); [done|]. destruct (_ && _); [done|].
  cbv zeta.
  assert (forall a b, NUL ∉ a -> NUL ∉ b ->
            (strcmp a b =? 0) = true -> strstr a b = true) as Hs.
  { intros a b Ha Hb H. apply Z.eqb_eq, strcmp_eq in H as ->; [|done..].
    apply strstr_spec, is_substring_refl. }
  assert (forall s, NUL ∉ (if case_insensitive o then map tolower (cstr s)
                           else cstr s)) as Hnn.
  { intros s. destruct (case_insensitive o);
      [apply (lower_no_nul (cstr s))|]; apply cstr_no_nul. }
  rewrite !orb_true_iff. intros [[H|H]|H]; apply Hs in H; auto.
Qed.

(** X17: on a stored note, with a pattern of at most [MAX_SEARCH_LEN]
    characters, ignoring case never loses a literal match. *)
Theorem case_insensitive_keeps_matches alloc_ok regcomp n o pat :
  (forall z, alloc_ok z = true) ->
  note_ok n ->
  pattern o = Some pat ->
  Z.of_nat (strlen pat) <= MAX_SEARCH_LEN ->
  regex_mode o = false ->
  cn_note_match_content alloc_ok regcomp (Some n)
    (Some (set_case_insensitive o false)) = true ->
  cn_note_match_content alloc_ok regcomp (Some n)
    (Some (set_case_insensitive o true)) = true.
Proof.
  intros Ha Hn Hp Hlen Hre H.
  destruct (is_nul (char_at pat 0)) eqn:E0.
  { unfold cn_note_match_content, set_case_insensitive. cbn [pattern].
    by rewrite Hp, E0. }
  assert (cstr pat <> []) as Hne.
  { intros Hnil. apply cstr_nil_iff in Hnil. apply is_nul_false in E0. done. }
  apply (match_content_literal alloc_ok regcomp n _ pat) in H;
    [|done..|by intros [=]].
  apply (match_content_literal alloc_ok regcomp n _ pat); [done..|].
  cbn [set_case_insensitive case_insensitive exact_match] in *.
  destruct H as (v & Hv & H). exists v. split; [done|].
  destruct (exact_match o); [by rewrite H|by apply is_substring_lower].
Qed.

(** X18: a regex search: a pattern of more than 1008 characters matches no
    note; for a shorter one (and a successful allocation) the note
    matches exactly when the pattern, wrapped in [\b] when
    [word_boundary] is set, compiles and is found in the title, the
    content or the tags.  The two checks after the allocation never
    fire.  (The pattern is a string in memory: its length is far from
    [SIZE_MAX].) *)
Theorem cn_note_match_content_regex alloc_ok regcomp n o pat :
  (forall z, alloc_ok z = true) ->
  pattern o = Some pat -> cstr pat <> [] -> regex_mode o = true ->
  Z.of_nat (strlen pat) + 16 <= SIZE_MAX ->
  cn_note_match_content alloc_ok regcomp (Some n) (Some o)
  = if Z.of_nat (strlen pat) >? 4 * MAX_SEARCH_LEN - 16 then false
    else
      let re := if word_boundary o then lit "\b" ++ cstr pat ++ lit "\b"
                else cstr pat in
      match regcomp (multiline_mode o) (case_insensitive o) re with
      | None => false
      | Some regexec =>
          regexec (cstr (title n)) || regexec (cstr (content n))
          || regexec (cstr (tags n))
      end.
Proof.
  intros Ha Hp Hne Hre Hmem. unfold cn_note_match_content. rewrite Hp, Hre.
  destruct (is_nul (char_at pat 0)) eqn:E0.
  { apply is_nul_true in E0. by apply cstr_nil_iff in E0. }
  rewrite Ha. cbn [negb]. unfold MAX_SEARCH_LEN, SIZE_MAX in *.
  set (patlen := Z.of_nat (strlen pat)) in *.
  assert (0 <= patlen) as H0 by lia.
  destruct (patlen >? 4 * 256 - 16) eqn:E.
  - rewrite (wrap_size_t_small (patlen + 16)) by (unfold SIZE_MAX; lia).
    rewrite (proj2 (Z.gtb_gt _ _)); [done|]. apply Z.gtb_gt in E. lia.
  - rewrite Z.gtb_ltb in E. apply Z.ltb_ge in E.
    rewrite (wrap_size_t_small (patlen + 16)),
      (wrap_size_t_small (patlen + 1)) by (unfold SIZE_MAX; lia).
    rewrite Z.gtb_ltb, (proj2 (Z.ltb_ge _ _)) by lia.
    rewrite Z.geb_leb, (proj2 (Z.leb_gt _ _)) by lia.
    rewrite Z.gtb_ltb, (proj2 (Z.ltb_ge _ _)) by lia.
    cbv zeta. destruct (word_boundary o);
      (destruct (regcomp _ _ _) as [regexec|]; [|done]);
      by destruct (regexec (cstr (title n))), (regexec (cstr (content n))).
Qed.

(** ** src/search.c : more on tag matching *)

Lemma tolower_nul_iff c : tolower c = NUL <-> c = NUL.
Proof.
  split; [|by intros ->].
  intros H. destruct (decide (c = NUL)) as [|Hne]; [done|].
  by apply tolower_not_nul in Hne.
Qed.

Lemma tolower_idem c : tolower (tolower c) = tolower c.
Proof.
  unfold tolower at 2 3.
  destruct ((65 <=? code c) && (code c <=? 90)) eqn:E.
  - apply andb_prop in E as [E1 E2].
    apply Z.leb_le in E1. apply Z.leb_le in E2.
    unfold tolower. rewrite code_ascii_of_N by lia.
    by rewrite (proj2 (Z.leb_gt (code c + 32) 90)), andb_false_r by lia.
  - unfold tolower. by rewrite E.
Qed.

Lemma lower_idem s : lower (lower s) = lower s.
Proof.
  unfold lower. rewrite map_map. apply map_ext. intros c. apply tolower_idem.
Qed.

Lemma is_nul_tolower c : is_nul (tolower c) = is_nul c.
Proof.
  destruct (is_nul c) eqn:E.
  - apply is_nul_true in E as ->. done.
  - apply is_nul_false. apply is_nul_false in E. by apply tolower_not_nul.
Qed.

Lemma strlen_lower s : strlen (lower s) = strlen s.
Proof.
  induction s as [|c s IH]; [done|]. cbn [lower map strlen].
  rewrite is_nul_tolower. destruct (is_nul c); [done|].
  f_equal. exact IH.
Qed.

Lemma cstr_lower s : cstr (lower s) = lower (cstr s).
Proof.
  unfold cstr. rewrite strlen_lower. unfold lower.
  by rewrite <- fmap_take.
Qed.

Lemma head_nul_lower s : is_nul (char_at (lower s) 0) = is_nul (char_at s 0).
Proof. destruct s as [|c s]; [done|]. apply is_nul_tolower. Qed.

(** The tag filter depends on its arguments through their lower-cased
    forms only. *)
Lemma match_tags_lower alloc_ok n s :
  cn_note_match_tags alloc_ok (Some n) (Some s)
  = cn_note_match_tags alloc_ok (Some (lower n)) (Some (lower s)).
Proof.
  unfold cn_note_match_tags.
  rewrite !head_nul_lower, !strlen_lower, !cstr_lower.
  change (map tolower) with lower. by rewrite !lower_idem.
Qed.

(** X19: the tag filter ignores the case of letters, in the note's tags and
    in the query alike: strings that agree once lower-cased get the
    same answer. *)
Theorem cn_note_match_tags_ignores_case alloc_ok n s n' s' :
  lower n = lower n' -> lower s = lower s' ->
  cn_note_match_tags alloc_ok (Some n) (Some s)
  = cn_note_match_tags alloc_ok (Some n') (Some s').
Proof.
  intros Hn Hs.
  rewrite (match_tags_lower _ n s), (match_tags_lower _ n' s').
  by rewrite Hn, Hs.
Qed.

Lemma strlen_app_le n e : (strlen n <= strlen (n ++ e))%nat.
Proof.
  induction n as [|c n IH]; cbn [app strlen]; [lia|].
  destruct (is_nul c); lia.
Qed.

Lemma cstr_app_prefix n e : exists r, cstr (n ++ e) = cstr n ++ r.
Proof.
  unfold cstr. induction n as [|c n IH]; cbn [app strlen].
  - by eexists.
  - destruct (is_nul c); [by exists []|].
    destruct IH as (r & IH). exists r. cbn [take app]. by rewrite IH.
Qed.

(** X20: tags appended to a note's tag string never lose a match, as long
    as the string stays below [MAX_TAGS_LEN]. *)
Theorem cn_note_match_tags_more_tags alloc_ok n extra s :
  (forall z, alloc_ok z = true) ->
  Z.of_nat (strlen (n ++ extra)) < MAX_TAGS_LEN ->
  cn_note_match_tags alloc_ok (Some n) s = true ->
  cn_note_match_tags alloc_ok (Some (n ++ extra)) s = true.
Proof.
  intros Ha Hlen. unfold cn_note_match_tags.
  destruct s as [s|]; [|done].
  destruct (is_nul (char_at s 0)); [done|].
  destruct n as [|c n]; [done|].
  change (char_at ((c :: n) ++ extra) 0) with (char_at (c :: n) 0).
  destruct (is_nul (char_at (c :: n) 0)); [done|].
  pose proof (strlen_app_le (c :: n) extra) as Hle.
  rewrite !Ha. cbn [negb orb].
  rewrite (Z.geb_leb (Z.of_nat (strlen ((c :: n) ++ extra)))),
    (proj2 (Z.leb_gt _ _)) by lia.
  rewrite (Z.geb_leb (Z.of_nat (strlen (c :: n)))),
    (proj2 (Z.leb_gt _ _)) by lia.
  cbn [orb]. destruct (_ >=? _); [done|].
  cbv zeta. change (map tolower) with lower. rewrite !match_loop_tags.
  intros H tok Htok Hne. specialize (H tok Htok Hne).
  destruct H as (pre & post & H).
  destruct (cstr_app_prefix (c :: n) extra) as (r & ->).
  exists pre, (post ++ lower r). unfold lower in *.
  rewrite map_app, H. by rewrite <- !app_assoc.
Qed.

(** ** src/utils.c : CSV fields *)

Lemma out_inv_put max_len out0 c st :
  out_inv max_len out0 st -> out_inv max_len out0 (put max_len c st).
Proof.
  destruct st as [w out]. intros (Hw & Hlen & Hdrop). unfold put.
  destruct (w + 1 <? max_len) eqn:E; [|done].
  apply Z.ltb_lt in E. unfold out_inv. cbn [fst snd] in *.
  split; [lia|]. split; [by rewrite length_insert|].
  rewrite drop_insert_lt by lia. done.
Qed.

Lemma field_loop_inv max_len out0 n :
  forall p b st q st',
    (length p <= n)%nat ->
    field_loop b max_len p st = (q, st') ->
    out_inv max_len out0 st ->
    out_inv max_len out0 st' /\ q `suffix_of` p.
Proof.
  induction n as [|n IH]; intros p b st q st' Hn H Hinv.
  - destruct p; [|simpl in Hn; lia]. injection H as <- <-. done.
  - destruct p as [|c p1]; [injection H as <- <-; done|].
    cbn [length] in Hn. cbn [field_loop] in H. destruct b.
    + destruct (is_quote c).
      * destruct p1 as [|d p2].
        { injection H as <- <-. split; [done|]. by apply suffix_cons_r. }
        destruct (is_quote d).
        -- cbn [length] in Hn.
           apply IH in H as [H1 H2]; [|lia|by apply out_inv_put].
           split; [done|]. by do 2 apply suffix_cons_r.
        -- injection H as <- <-. split; [done|]. by apply suffix_cons_r.
      * apply IH in H as [H1 H2]; [|lia|by apply out_inv_put].
        split; [done|]. by apply suffix_cons_r.
    + destruct (is_comma c).
      * injection H as <- <-. done.
      * apply IH in H as [H1 H2]; [|lia|by apply out_inv_put].
        split; [done|]. by apply suffix_cons_r.
Qed.

Lemma skip_spaces_suffix p : skip_spaces p `suffix_of` p.
Proof.
  induction p as [|c p IH]; [done|]. cbn [skip_spaces].
  destruct (isspace c); [by apply suffix_cons_r|done].
Qed.

Lemma skip_to_comma_suffix p : skip_to_comma p `suffix_of` p.
Proof.
  induction p as [|c p IH]; [done|]. cbn [skip_to_comma].
  destruct (is_comma c); [done|by apply suffix_cons_r].
Qed.

Lemma strlen_insert_nul out i :
  (i < length out)%nat -> (strlen (<[i := NUL]> out) <= i)%nat.
Proof.
  revert i. induction out as [|c out IH]; intros i Hi; [simpl in Hi; lia|].
  destruct i as [|i]; [done|]. cbn [strlen].
  change (<[S i := NUL]> (c :: out)) with (c :: <[i := NUL]> out).
  cbn [strlen]. destruct (is_nul c); [lia|].
  cbn [length] in Hi. specialize (IH i). lia.
Qed.

(** X21: for non-NULL arguments and a buffer of at least [max_len > 0]
    bytes, [cn_parse_csv_field] returns 1 whatever the input; the
    output holds a string of fewer than [max_len] characters, no byte at
    [max_len] or beyond is touched, and the new position lies within
    the string the old one pointed at. *)
Theorem cn_parse_csv_field_safe s out max_len :
  0 < max_len <= Z.of_nat (length out) ->
  exists p' out',
    cn_parse_csv_field (Some s) (Some out) max_len = (1, Some p', Some out')
    /\ p' `suffix_of` cstr s
    /\ length out' = length out
    /\ Z.of_nat (strlen out') < max_len
    /\ drop (Z.to_nat max_len) out' = drop (Z.to_nat max_len) out.
Proof.
  intros Hm. unfold cn_parse_csv_field.
  rewrite (proj2 (Z.eqb_neq _ _)) by lia.
  assert (out_inv max_len out (0, out)) as H0.
  { unfold out_inv. cbn [fst snd]. split; [lia|done]. }
  pose proof (skip_spaces_suffix (cstr s)) as Hs0.
  set (p0 := skip_spaces (cstr s)) in *.
  assert (exists q st', (match p0 with
            | c :: p1 =>
                if is_quote c then field_loop true max_len p1 (0, out)
                else field_loop false max_len p0 (0, out)
            | [] => field_loop false max_len p0 (0, out)
            end) = (q, st') /\ out_inv max_len out st' /\ q `suffix_of` p0)
    as (q & [w o] & -> & (Hw & Hlen & Hdrop) & Hq).
  { destruct p0 as [|c p1] eqn:Ep.
    - eexists _, _. split; [reflexivity|]. done.
    - destruct (is_quote c).
      + destruct (field_loop true max_len p1 (0, out)) as [q st'] eqn:E.
        exists q, st'. split; [done|].
        eapply field_loop_inv in E as [H1 H2]; [|reflexivity|exact H0].
        split; [done|]. by apply suffix_cons_r.
      + destruct (field_loop false max_len (c :: p1) (0, out))
          as [q st'] eqn:E.
        exists q, st'. split; [done|].
        eapply field_loop_inv in E as [H1 H2]; [|reflexivity|exact H0].
        done. }
  cbn [fst snd] in *. eexists _, _. split; [reflexivity|].
  split_and!.
  - etrans; [apply skip_spaces_suffix|].
    etrans; [|exact Hs0]. etrans; [|exact Hq].
    pose proof (skip_to_comma_suffix q) as Hc.
    destruct (skip_to_comma q) as [|c p1]; [done|].
    destruct (is_comma c); [|done].
    etrans; [|exact Hc]. by apply suffix_cons_r.
  - by rewrite length_insert.
  - pose proof (strlen_insert_nul o (Z.to_nat w)). lia.
  - rewrite drop_insert_lt by lia. done.
Qed.

Lemma is_quote_true c : is_quote c = true <-> c = DQUOTE.
Proof. unfold is_quote. apply Ascii.eqb_eq. Qed.

Lemma cstr_app_no_nul a b : NUL ∉ a -> cstr (a ++ b) = a ++ cstr b.
Proof.
  unfold cstr. induction a as [|c a IH]; intros H; [done|].
  apply not_elem_of_cons in H as [Hc Ha].
  cbn [app strlen]. rewrite (proj2 (is_nul_false c)) by done.
  cbn [take app]. by rewrite IH.
Qed.

Lemma csv_escape_no_nul v : NUL ∉ v -> NUL ∉ csv_escape v.
Proof.
  induction v as [|c v IH]; intros H; [done|].
  apply not_elem_of_cons in H as [Hc Hv]. cbn [csv_escape].
  destruct (is_quote c); repeat (apply not_elem_of_cons; split; [done|]);
    by apply IH.
Qed.

(** A run of [put]s from a buffer whose first [written] bytes are
    [pre]: the characters are stored one after the other until
    [max_len - 1] bytes are in use. *)
Lemma puts_from max_len v :
  forall pre post w,
    Z.of_nat (length pre) = w -> w < max_len ->
    max_len <= Z.of_nat (length (pre ++ post)) ->
    let k := (length v `min` Z.to_nat (max_len - 1 - w))%nat in
    puts max_len v (w, pre ++ post)
    = (w + Z.of_nat k, pre ++ take k v ++ drop k post).
Proof.
  induction v as [|c v IH]; intros pre post w Hpre Hw Hlen k.
  - subst k. cbn. by rewrite Z.add_0_r.
  - unfold puts. cbn [fold_left put].
    rewrite length_app in Hlen.
    destruct (w + 1 <? max_len) eqn:E.
    + apply Z.ltb_lt in E.
      destruct post as [|x post]; [simpl in Hlen; lia|].
      replace (<[Z.to_nat w := c]> (pre ++ x :: post))
        with ((pre ++ [c]) ++ post).
      2:{ rewrite insert_app_r_alt by lia.
          replace (Z.to_nat w - length pre)%nat with O by lia.
          by rewrite <- app_assoc. }
      fold (puts max_len v (w + 1, (pre ++ [c]) ++ post)).
      rewrite IH; [|rewrite length_app; simpl; lia|lia
                   |rewrite !length_app in *; simpl in *; lia].
      subst k. cbn [length].
      replace (S (length v) `min` Z.to_nat (max_len - 1 - w))%nat
        with (S (length v `min` Z.to_nat (max_len - 1 - (w + 1))))%nat by lia.
      cbn [take drop]. rewrite <- !app_assoc. cbn [app].
      f_equal. lia.
    + apply Z.ltb_ge in E.
      fold (puts max_len v (w, pre ++ post)).
      rewrite IH by (rewrite ?length_app; lia).
      subst k.
      replace (Z.to_nat (max_len - 1 - w)) with O by lia.
      by rewrite !Nat.min_0_r.
Qed.

(** The quoted loop reads back what [csv_escape] wrote, up to the
    closing quote. *)
Lemma field_loop_escaped max_len v tail :
  match tail with d :: _ => is_quote d = false | [] => True end ->
  forall st,
    field_loop true max_len (csv_escape v ++ DQUOTE :: tail) st
    = (tail, puts max_len v st).
Proof.
  intros Htail. induction v as [|c v IH]; intros st.
  - cbn [csv_escape app field_loop].
    rewrite (proj2 (is_quote_true DQUOTE)) by done.
    destruct tail as [|d tail]; [done|]. by rewrite Htail.
  - cbn [csv_escape]. destruct (is_quote c) eqn:E.
    + apply is_quote_true in E as ->.
      cbn [app field_loop]. rewrite (proj2 (is_quote_true DQUOTE)) by done.
      by rewrite IH.
    + cbn [app field_loop]. rewrite E. by rewrite IH.
Qed.

(** The plain loop copies up to the next comma. *)
Lemma field_loop_plain max_len d tail :
  Forall (fun c => is_comma c = false) d ->
  match tail with c :: _ => is_comma c = true | [] => True end ->
  forall st,
    field_loop false max_len (d ++ tail) st = (tail, puts max_len d st).
Proof.
  intros Hd Htail. induction Hd as [|c d Hc Hd IH]; intros st.
  - cbn [app]. destruct tail as [|c tail]; [done|].
    cbn [field_loop]. by rewrite Htail.
  - cbn [app field_loop]. rewrite Hc. by rewrite IH.
Qed.

Lemma take_min_length {A} (l : list A) n :
  take (length l `min` n) l = take n l.
Proof.
  destruct (decide (n <= length l)%nat).
  - by rewrite Nat.min_r by lia.
  - rewrite Nat.min_l by lia. by rewrite !take_ge by lia.
Qed.

(** The output of a field whose characters are [v]. *)
Lemma puts_output max_len v out :
  NUL ∉ v -> 0 < max_len <= Z.of_nat (length out) ->
  forall w o, puts max_len v (0, out) = (w, o) ->
    cstr (<[Z.to_nat w := NUL]> o) = take (Z.to_nat (max_len - 1)) v
    /\ length (<[Z.to_nat w := NUL]> o) = length out.
Proof.
  intros Hv Hm w o H.
  pose proof (puts_from max_len v [] out 0 eq_refl ltac:(lia) ltac:(simpl; lia))
    as Hp.
  cbv zeta in Hp. cbn [app] in Hp. rewrite Hp in H. clear Hp.
  rewrite Z.sub_0_r in H.
  set (k := (length v `min` Z.to_nat (max_len - 1))%nat) in *.
  injection H as <- <-.
  assert (length (take k v) = k) as Hk by (rewrite length_take; lia).
  replace (Z.to_nat (0 + Z.of_nat k)) with (length (take k v) + 0)%nat by lia.
  rewrite insert_app_r.
  destruct (drop k out) as [|x post] eqn:Ed.
  { apply (f_equal length) in Ed. rewrite length_drop in Ed.
    simpl in Ed. lia. }
  cbn [insert list_insert]. split.
  - rewrite cstr_app_nul by (intros Hin; apply Hv; by apply (subseteq_take k v)).
    apply take_min_length.
  - rewrite length_app. cbn [length].
    apply (f_equal length) in Ed. rewrite length_drop in Ed.
    cbn [length] in Ed. lia.
Qed.

Lemma isspace_DQUOTE : isspace DQUOTE = false.
Proof. reflexivity. Qed.

Lemma DQUOTE_not_nul : DQUOTE <> NUL.
Proof. done. Qed.

Lemma parse_quoted field rest out max_len :
  0 < max_len <= Z.of_nat (length out) ->
  exists out',
    cn_parse_csv_field (Some (csv_quoted field ++ lit "," ++ rest))
      (Some out) max_len
    = (1, Some (skip_spaces (cstr rest)), Some out')
    /\ cstr out' = take (Z.to_nat (max_len - 1)) (cstr field)
    /\ length out' = length out.
Proof.
  intros Hm. unfold cn_parse_csv_field, csv_quoted.
  rewrite (proj2 (Z.eqb_neq _ _)) by lia.
  pose proof (cstr_no_nul field) as Hv.
  replace (cstr ((DQUOTE :: csv_escape (cstr field) ++ [DQUOTE])
                 ++ lit "," ++ rest))
    with (DQUOTE :: csv_escape (cstr field)
            ++ DQUOTE :: ","%char :: cstr rest).
  2:{ symmetry.
      replace ((DQUOTE :: csv_escape (cstr field) ++ [DQUOTE])
               ++ lit "," ++ rest)
        with ((DQUOTE :: csv_escape (cstr field) ++ [DQUOTE; ","%char])
              ++ rest)
        by (cbn [app]; rewrite <- !app_assoc; done).
      rewrite cstr_app_no_nul.
      - cbn [app]. by rewrite <- !app_assoc.
      - apply not_elem_of_cons. split; [done|].
        apply not_elem_of_app. split; [by apply csv_escape_no_nul|].
        apply not_elem_of_cons. split; [done|].
        apply not_elem_of_cons. split; [done|apply not_elem_of_nil]. }
  cbn [skip_spaces]. rewrite isspace_DQUOTE.
  rewrite (proj2 (is_quote_true DQUOTE)) by done.
  rewrite field_loop_escaped by done.
  destruct (puts max_len (cstr field) (0, out)) as [w o] eqn:E.
  apply puts_output in E as [H1 H2]; [|done..].
  cbn [skip_to_comma]. change (is_comma ","%char) with true. cbv iota.
  eexists. split; [reflexivity|]. done.
Qed.

(** X22: a field written by [cn_cmd_export] and followed by a comma is read
    back by [cn_parse_csv_field]: the output holds the field's string,
    cut to [max_len - 1] characters, and the position moves past the
    comma and the white space after it. *)
Theorem csv_field_round_trip field rest out max_len :
  0 < max_len <= Z.of_nat (length out) ->
  exists out',
    cn_parse_csv_field (Some (csv_quoted field ++ lit "," ++ rest))
      (Some out) max_len
    = (1, Some (skip_spaces (cstr rest)), Some out')
    /\ cstr out' = take (Z.to_nat (max_len - 1)) (cstr field)
    /\ length out' = length out.
Proof. apply parse_quoted. Qed.

(** ** src/commands.c : export, then import *)

Lemma digits_chars fuel :
  forall z acc, 0 <= z ->
    Forall is_num_char acc -> Forall is_num_char (digits fuel z acc).
Proof.
  induction fuel as [|fuel IH]; intros z acc Hz Hacc; [done|].
  cbn [digits].
  assert (Forall is_num_char
            (ascii_of_N (Z.to_N (48 + z mod 10)) :: acc)) as Hacc'.
  { constructor; [|done]. right.
    pose proof (Z.mod_pos_bound z 10 ltac:(lia)).
    rewrite code_ascii_of_N by lia. lia. }
  destruct (z / 10 =? 0); [done|].
  apply IH; [|done]. apply Z.div_pos; lia.
Qed.

Lemma digits_nonempty fuel z acc :
  acc <> [] \/ fuel <> O -> digits fuel z acc <> [].
Proof.
  revert z acc. induction fuel as [|fuel IH]; intros z acc H.
  - by destruct H.
  - cbn [digits]. destruct (z / 10 =? 0); [done|]. apply IH. by left.
Qed.

Lemma fmt_u_chars z : 0 <= z -> Forall is_num_char (fmt_u z).
Proof. intros Hz. by apply digits_chars. Qed.

Lemma fmt_ld_chars z : Forall is_num_char (fmt_ld z).
Proof.
  unfold fmt_ld. destruct (z <? 0) eqn:E.
  - apply Z.ltb_lt in E. constructor; [by left|].
    apply digits_chars; [lia|done].
  - apply Z.ltb_ge in E. by apply digits_chars.
Qed.

Lemma fmt_u_nonempty z : fmt_u z <> [].
Proof. apply digits_nonempty. by right. Qed.

(** A character of a printed number is no comma, quote, white space,
    line break or NUL. *)
Lemma num_char_plain c :
  is_num_char c ->
  is_comma c = false /\ is_quote c = false /\ isspace c = false
  /\ is_newline c = false /\ c <> NUL.
Proof.
  intros H.
  assert (forall d, code d <> code c -> Ascii.eqb c d = false) as Hne.
  { intros d Hd. apply Ascii.eqb_neq. by intros ->. }
  split_and!.
  - apply Hne. change (code ","%char) with 44. destruct H; lia.
  - apply Hne. change (code DQUOTE) with 34. destruct H; lia.
  - unfold isspace. rewrite (proj2 (Z.eqb_neq _ _)) by (destruct H; lia).
    rewrite (proj2 (Z.leb_gt (code c) 13)) by (destruct H; lia).
    by rewrite andb_false_r.
  - apply Hne. change (code NEWLINE) with 10. destruct H; lia.
  - intros ->. unfold is_num_char in H. change (code NUL) with 0 in H. lia.
Qed.

Lemma cstr_id v : NUL ∉ v -> cstr v = v.
Proof.
  intros H. unfold cstr. rewrite strlen_no_nul by done. apply firstn_all.
Qed.

Lemma cstr_idem s : cstr (cstr s) = cstr s.
Proof. apply cstr_id, cstr_no_nul. Qed.

Lemma csv_quoted_no_nul field : NUL ∉ csv_quoted field.
Proof.
  unfold csv_quoted. apply not_elem_of_cons. split; [done|].
  apply not_elem_of_app. split; [apply csv_escape_no_nul, cstr_no_nul|].
  apply not_elem_of_cons. split; [done|apply not_elem_of_nil].
Qed.

Lemma cstr_quoted field r :
  cstr (csv_quoted field ++ lit "," ++ r)
  = csv_quoted field ++ lit "," ++ cstr r.
Proof.
  assert (NUL ∉ lit ",") as Hc.
  { apply not_elem_of_cons. split; [done|apply not_elem_of_nil]. }
  rewrite cstr_app_no_nul by apply csv_quoted_no_nul.
  by rewrite (cstr_app_no_nul (lit ",")).
Qed.

Lemma quoted_start field r :
  skip_spaces (cstr (csv_quoted field ++ lit "," ++ r))
  = csv_quoted field ++ lit "," ++ cstr r.
Proof. rewrite cstr_quoted. reflexivity. Qed.

(** A printed number followed by a comma is read as a plain field. *)
Lemma parse_plain d rest out max_len :
  0 < max_len -> d <> [] -> Forall is_num_char d ->
  exists out',
    cn_parse_csv_field (Some (d ++ lit "," ++ rest)) (Some out) max_len
    = (1, Some (skip_spaces (cstr rest)), Some out').
Proof.
  intros Hm Hne Hd. unfold cn_parse_csv_field.
  rewrite (proj2 (Z.eqb_neq _ _)) by lia.
  assert (NUL ∉ d) as Hnul.
  { intros Hin. rewrite Forall_forall in Hd.
    by destruct (num_char_plain _ (Hd _ Hin)) as (_ & _ & _ & _ & ?). }
  rewrite cstr_app_no_nul by done.
  replace (cstr (lit "," ++ rest)) with (","%char :: cstr rest).
  2:{ symmetry. apply (cstr_app_no_nul (lit ",")).
      apply not_elem_of_cons. split; [done|apply not_elem_of_nil]. }
  destruct d as [|c d]; [done|]. pose proof Hd as Hd'.
  apply Forall_cons in Hd' as [Hc _].
  destruct (num_char_plain c Hc) as (_ & Hq & Hs & _).
  cbn [app skip_spaces]. rewrite Hs, Hq.
  change (c :: d ++ ","%char :: cstr rest)
    with ((c :: d) ++ ","%char :: cstr rest).
  rewrite field_loop_plain; [| |done].
  2:{ eapply Forall_impl; [exact Hd|]. intros x Hx.
      by destruct (num_char_plain x Hx). }
  destruct (puts max_len (c :: d) (0, out)) as [w o].
  cbn [skip_to_comma]. change (is_comma ","%char) with true. cbv iota.
  by eexists.
Qed.

Lemma csv_quoted_chars (P : ascii -> Prop) field :
  P DQUOTE -> Forall P (cstr field) -> Forall P (csv_quoted field).
Proof.
  intros Hq Hf. unfold csv_quoted. constructor; [done|].
  apply Forall_app_2; [|by constructor].
  induction Hf as [|c v Hc Hv IH]; [constructor|].
  cbn [csv_escape]. destruct (is_quote c); repeat (constructor; [done|]); done.
Qed.

Lemma record_chars (P : ascii -> Prop) n :
  P ","%char -> P DQUOTE -> (forall c, is_num_char c -> P c) ->
  0 <= id n ->
  Forall P (cstr (title n)) -> Forall P (cstr (content n)) ->
  Forall P (cstr (tags n)) ->
  Forall P (record_body n).
Proof.
  intros Hc Hq Hn Hid Ht Hco Hg. unfold record_body.
  assert (Forall P (lit ",")) as Hcomma by by constructor.
  assert (forall z, Forall P (fmt_ld z)) as Hld.
  { intros z. eapply Forall_impl; [apply fmt_ld_chars|done]. }
  assert (Forall P (fmt_u (id n))) as Hu.
  { eapply Forall_impl; [by apply fmt_u_chars|done]. }
  repeat (apply Forall_app_2;
          [first [done|by apply csv_quoted_chars|apply Hld]|]).
  apply Hld.
Qed.

Lemma export_record_body n : export_record n = record_body n ++ [NEWLINE].
Proof. unfold export_record, record_body. by rewrite <- !app_assoc. Qed.

Lemma Forall_ne_not_elem (x : ascii) l :
  Forall (fun c => c <> x) l <-> x ∉ l.
Proof.
  rewrite Forall_forall. split.
  - intros H Hin. by apply (H x).
  - intros H c Hin ->. done.
Qed.

Lemma record_body_no_nul n : 0 <= id n -> NUL ∉ record_body n.
Proof.
  intros Hid. apply Forall_ne_not_elem. apply record_chars; try done.
  - intros c Hc. by destruct (num_char_plain c Hc) as (_ & _ & _ & _ & ?).
  - apply Forall_ne_not_elem, cstr_no_nul.
  - apply Forall_ne_not_elem, cstr_no_nul.
  - apply Forall_ne_not_elem, cstr_no_nul.
Qed.

Lemma is_newline_false c : is_newline c = false <-> c <> NEWLINE.
Proof. unfold is_newline. apply Ascii.eqb_neq. Qed.

Lemma record_body_one_line n :
  0 <= id n ->
  NEWLINE ∉ cstr (title n) -> NEWLINE ∉ cstr (content n) ->
  NEWLINE ∉ cstr (tags n) ->
  Forall (fun c => is_newline c = false) (record_body n).
Proof.
  intros Hid Ht Hc Hg. apply record_chars; try done.
  - intros c Hc'. by destruct (num_char_plain c Hc') as (_ & _ & _ & ? & _).
  - eapply Forall_impl; [by apply Forall_ne_not_elem|].
    intros c. apply is_newline_false.
  - eapply Forall_impl; [by apply Forall_ne_not_elem|].
    intros c. apply is_newline_false.
  - eapply Forall_impl; [by apply Forall_ne_not_elem|].
    intros c. apply is_newline_false.
Qed.

Lemma strlen_line x : NUL ∉ x -> strlen (x ++ [NEWLINE]) = S (length x).
Proof.
  intros Hx. rewrite strlen_no_nul; [rewrite length_app; simpl; lia|].
  apply not_elem_of_app. split; [done|].
  apply not_elem_of_cons. split; [done|apply not_elem_of_nil].
Qed.

Lemma last_of_line x : char_at (x ++ [NEWLINE]) (length x) = NEWLINE.
Proof. unfold char_at. by rewrite list_lookup_middle. Qed.

Lemma length_cstr s : length (cstr s) = strlen s.
Proof. unfold cstr. rewrite length_take. pose proof (strlen_le s). lia. Qed.

Lemma strlen_cstr s : strlen (cstr s) = strlen s.
Proof. rewrite strlen_no_nul by apply cstr_no_nul. apply length_cstr. Qed.

(** The loop body on the record of a note: the three quoted fields
    are handed to [cn_note_add] as they were exported. *)
Lemma import_line_record alloc_ok fresh clock line_num n db :
  line_num <> 1 -> note_ok n ->
  cstr (title n) <> [] -> cstr (content n) <> [] ->
  exists t c g,
    import_line alloc_ok fresh clock line_num (export_record n) db
    = match cn_note_add alloc_ok fresh (Some t) (Some c) g (clock line_num) db
      with
      | Fatal m => Fatal m
      | Ok (nid, db') =>
          if nid =? 0 then Ok (Failed, db') else Ok (Imported, db')
      end
    /\ valid_text MAX_TITLE_LEN (Some t)
    /\ valid_text MAX_CONTENT_LEN (Some c)
    /\ fits MAX_TAGS_LEN g
    /\ cstr t = cstr (title n) /\ cstr c = cstr (content n)
    /\ arg_str g = cstr (tags n).
Proof.
  intros Hln Hok Ht Hc. pose proof Hok as (Hid & Hbt & Hbc & Hbg & _).
  apply strlen_buf_ok in Hbt, Hbc, Hbg.
  pose proof (record_body_no_nul n (proj1 Hid)) as Hnul.
  unfold import_line. rewrite (proj2 (Z.eqb_neq _ _)) by done. cbn [andb].
  rewrite export_record_body, strlen_line by done.
  replace (S (length (record_body n)) - 1)%nat
    with (length (record_body n)) by lia.
  rewrite last_of_line. change (is_newline NEWLINE) with true.
  change ((0 <? S (length (record_body n)))%nat && true) with true. cbv iota.
  rewrite insert_app_r_alt by lia.
  replace (length (record_body n) - length (record_body n))%nat with O by lia.
  cbn [insert list_insert].
  (* the first character is a digit *)
  pose proof (fmt_u_nonempty (id n)) as Hne.
  pose proof (fmt_u_chars (id n) (proj1 Hid)) as Hd.
  assert (is_nul (char_at (record_body n ++ [NUL]) 0) = false) as ->.
  { unfold record_body. destruct (fmt_u (id n)) as [|c0 d]; [done|].
    apply Forall_cons in Hd as [Hc0 _]. apply is_nul_false.
    by destruct (num_char_plain c0 Hc0) as (_ & _ & _ & _ & ?). }
  (* the four fields *)
  unfold record_body. rewrite <- !app_assoc.
  destruct (parse_plain (fmt_u (id n))
              (csv_quoted (title n) ++ lit "," ++ csv_quoted (content n)
               ++ lit "," ++ csv_quoted (tags n) ++ lit ","
               ++ fmt_ld (created_at n) ++ lit ","
               ++ fmt_ld (modified_at n) ++ [NUL])
              (replicate 32 NUL) 32 ltac:(lia) Hne Hd) as (o1 & ->).
  change (1 =? 0) with false. cbv iota.
  rewrite quoted_start.
  destruct (parse_quoted (title n)
              (cstr (csv_quoted (content n) ++ lit ","
                     ++ csv_quoted (tags n) ++ lit ","
                     ++ fmt_ld (created_at n) ++ lit ","
                     ++ fmt_ld (modified_at n) ++ [NUL]))
              (replicate (Z.to_nat MAX_TITLE_LEN) NUL) MAX_TITLE_LEN)
    as (ot & -> & Hot & _).
  { rewrite length_replicate. unfold MAX_TITLE_LEN. lia. }
  change (1 =? 0) with false. cbv iota.
  rewrite cstr_idem, quoted_start.
  destruct (parse_quoted (content n)
              (cstr (csv_quoted (tags n) ++ lit ","
                     ++ fmt_ld (created_at n) ++ lit ","
                     ++ fmt_ld (modified_at n) ++ [NUL]))
              (replicate (Z.to_nat MAX_CONTENT_LEN) NUL) MAX_CONTENT_LEN)
    as (oc & -> & Hoc & _).
  { rewrite length_replicate. unfold MAX_CONTENT_LEN. lia. }
  change (1 =? 0) with false. cbv iota.
  rewrite cstr_idem, quoted_start.
  destruct (parse_quoted (tags n)
              (cstr (fmt_ld (created_at n) ++ lit ","
                     ++ fmt_ld (modified_at n) ++ [NUL]))
              (replicate (Z.to_nat MAX_TAGS_LEN) NUL) MAX_TAGS_LEN)
    as (og & -> & Hog & _).
  { rewrite length_replicate. unfold MAX_TAGS_LEN. lia. }
  (* nothing was cut *)
  rewrite take_ge in Hot by (rewrite length_cstr; lia).
  rewrite take_ge in Hoc by (rewrite length_cstr; lia).
  rewrite take_ge in Hog by (rewrite length_cstr; lia).
  assert (forall o f, cstr o = cstr f -> strlen o = strlen f) as Hlen.
  { intros o f H. by rewrite <- (strlen_cstr o), H, strlen_cstr. }
  assert (forall o, cstr o <> [] -> is_nul (char_at o 0) = false) as Hhead.
  { intros o H. apply is_nul_false. intros Hn. by apply cstr_nil_iff in Hn. }
  rewrite (Hhead ot), (Hhead oc) by congruence. cbn [orb].
  exists ot, oc, (if is_nul (char_at og 0) then None else Some og).
  split; [done|]. split_and!; try done.
  - split; [apply is_nul_false, Hhead; congruence|].
    rewrite (Hlen _ _ Hot). lia.
  - split; [apply is_nul_false, Hhead; congruence|].
    rewrite (Hlen _ _ Hoc). lia.
  - destruct (is_nul (char_at og 0)); [done|].
    cbn [fits]. rewrite (Hlen _ _ Hog). lia.
  - destruct (is_nul (char_at og 0)) eqn:E; [|done].
    cbn [arg_str]. rewrite <- Hog. symmetry.
    apply cstr_nil_iff. by apply is_nul_true.
Qed.

Lemma fgets_loop_line x rest :
  Forall (fun c => is_newline c = false) x ->
  forall room, (length x < room)%nat ->
    fgets_loop room (x ++ NEWLINE :: rest) = (x ++ [NEWLINE], rest, false).
Proof.
  induction 1 as [|c x Hc Hx IH]; intros room Hr.
  - destruct room as [|room]; [simpl in Hr; lia|]. done.
  - destruct room as [|room]; [simpl in Hr; lia|].
    cbn [app fgets_loop]. rewrite Hc, IH by (simpl in Hr; lia). done.
Qed.

(** [fgets] hands over a whole line that fits the buffer. *)
Lemma fgets_line n x rest :
  Forall (fun c => is_newline c = false) x ->
  Z.of_nat (length x) + 1 < n ->
  fgets n (x ++ NEWLINE :: rest) = Some (x ++ [NEWLINE], rest, false).
Proof.
  intros Hx Hn. unfold fgets. rewrite fgets_loop_line by (done || lia).
  by destruct x.
Qed.

Lemma fgets_eof n : 1 < n -> fgets n [] = None.
Proof.
  intros Hn. unfold fgets.
  replace (Z.to_nat (n - 1)) with (S (Z.to_nat (n - 2))) by lia. done.
Qed.

(** The loop of [cn_cmd_import] over the records of a list of notes. *)
Lemma import_records alloc_ok fresh clock notes :
  (forall z, alloc_ok z = true) ->
  (forall k, time_ok (clock k)) ->
  Forall exportable notes ->
  forall fuel line_num imported errors db,
    store_ok db ->
    1 <= line_num -> line_num + Z.of_nat (length notes) <= SIZE_MAX ->
    0 <= imported -> imported + Z.of_nat (length notes) <= SIZE_MAX ->
    count db + Z.of_nat (length notes) <= MAX_NOTES ->
    next_id db + Z.of_nat (length notes) <= UINT_MAX ->
    (length (concat (map export_record notes)) < fuel)%nat ->
    exists db' new,
      import_loop alloc_ok fresh clock fuel
        (concat (map export_record notes)) line_num imported errors db
      = Ok (imported + Z.of_nat (length notes), errors, db')
      /\ count db' = count db + Z.of_nat (length notes)
      /\ live db' = live db ++ new
      /\ id <$> new = seqZ (next_id db) (Z.of_nat (length notes))
      /\ note_strings <$> new = trimmed_strings <$> notes.
Proof.
  intros Ha Hclock Hall.
  induction Hall as [|n notes Hn Hall IH];
    intros fuel line_num imported errors db Hok Hl1 Hl2 Hi1 Hi2 Hcnt Hnid Hfuel.
  - destruct fuel as [|fuel]; [simpl in Hfuel; lia|].
    cbn [map concat import_loop length].
    rewrite fgets_eof by (vm_compute; reflexivity).
    exists db, []. change (Z.of_nat 0) with 0.
    rewrite !Z.add_0_r, app_nil_r. done.
  - destruct fuel as [|fuel]; [simpl in Hfuel; lia|].
    destruct Hn as (Hnok & Ht & Hc & Hnt & Hnc & Hng & Hlen).
    pose proof Hnok as (Hid & _).
    cbn [map concat length] in *. rewrite length_app in Hfuel.
    rewrite export_record_body in *. rewrite length_app in Hlen, Hfuel.
    cbn [length] in Hlen, Hfuel.
    rewrite <- app_assoc. cbn [app import_loop].
    rewrite fgets_line;
      [|by apply record_body_one_line; [apply Hid|..]|lia].
    pose proof (record_body_no_nul n (proj1 Hid)) as Hnul.
    rewrite strlen_line by done.
    replace (S (length (record_body n)) - 1)%nat
      with (length (record_body n)) by lia.
    rewrite last_of_line. change (is_newline NEWLINE) with true.
    cbn [negb]. rewrite andb_false_r. cbn [andb].
    rewrite (wrap_size_t_small (line_num + 1)) by lia.
    rewrite <- export_record_body.
    destruct (import_line_record alloc_ok fresh clock (line_num + 1) n db
                ltac:(lia) Hnok Ht Hc)
      as (t & c & g & -> & Hvt & Hvc & Hvg & Hst & Hsc & Hsg).
    destruct (add_valid alloc_ok fresh (Some t) (Some c) g
                (clock (line_num + 1)) db Hok Ha Hvt Hvc Hvg ltac:(lia))
      as (db1 & n1 & Hadd & Hlive & Hcnt1 & Hnext & Hnid1 & Hstr & _).
    rewrite Hadd.
    pose proof Hok as ((Hwf & Hn1 & _) & _).
    rewrite (proj2 (Z.eqb_neq (next_id db) 0)) by lia.
    pose proof (store_ok_add _ _ _ _ _ _ _ _ _ Hok (Hclock _) Hadd) as Hok1.
    assert (next_id db1 = next_id db + 1) as Hnx.
    { rewrite Hnext. destruct (next_id db =? UINT_MAX) eqn:E; lia. }
    rewrite (wrap_size_t_small (imported + 1)) by lia.
    destruct (IH fuel (line_num + 1) (imported + 1) errors db1 Hok1)
      as (db' & new & Hrun & Hc' & Hl' & Hids & Hstrs); try lia.
    exists db', (n1 :: new). rewrite Hrun.
    split; [do 3 f_equal; lia|]. split; [lia|]. split.
    { rewrite Hl', Hlive, <- app_assoc. done. }
    split.
    + rewrite fmap_cons, Hnid1, Hids, Hnx.
      rewrite (seqZ_cons (next_id db)) by lia. do 2 f_equal; lia.
    + rewrite !fmap_cons, Hstr, Hstrs. unfold trimmed_strings at 2.
      cbn [arg_str]. by rewrite Hst, Hsc, Hsg.
Qed.

Lemma export_header_line :
  export_header = lit "ID,Title,Content,Tags,Created,Modified" ++ [NEWLINE].
Proof. reflexivity. Qed.

Lemma header_no_nul : NUL ∉ lit "ID,Title,Content,Tags,Created,Modified".
Proof. apply Forall_ne_not_elem. repeat constructor; done. Qed.

Lemma fgets_header records :
  fgets MAX_LINE_LENGTH (export_header ++ records)
  = Some (export_header, records, false).
Proof.
  rewrite export_header_line, <- app_assoc.
  apply fgets_line; [repeat constructor|vm_compute; reflexivity].
Qed.

(** The header line is skipped. *)
Lemma import_line_header alloc_ok fresh clock db :
  import_line alloc_ok fresh clock 1 export_header db = Ok (Skipped, db).
Proof.
  unfold import_line.
  assert (strstr (cstr export_header) (lit "ID,Title,Content") = true) as ->
    by (vm_compute; reflexivity).
  reflexivity.
Qed.

Lemma import_loop_header alloc_ok fresh clock fuel records db :
  import_loop alloc_ok fresh clock (S fuel) (export_header ++ records) 0 0 0 db
  = import_loop alloc_ok fresh clock fuel records 1 0 0 db.
Proof.
  cbn [import_loop]. rewrite fgets_header.
  rewrite (wrap_size_t_small (0 + 1)) by (unfold SIZE_MAX; lia).
  change (0 + 1) with 1.
  rewrite export_header_line at 1 2.
  rewrite strlen_line by apply header_no_nul.
  replace (S (length (lit "ID,Title,Content,Tags,Created,Modified")) - 1)%nat
    with (length (lit "ID,Title,Content,Tags,Created,Modified")) by lia.
  rewrite last_of_line. change (is_newline NEWLINE) with true.
  cbn [negb]. rewrite andb_false_r. cbn [andb].
  by rewrite import_line_header.
Qed.

(** X23: export, then import: with an allocator that does not fail, an
    import (without [--merge]) of the file exported from a store of
    exportable notes returns, counts every note as imported and none
    as an error, and leaves a store that holds one note per exported
    note, in the same order, with the ids 1, 2, 3, ... and the title,
    content and tags of the exported note, trimmed.  Ids and
    timestamps of the exported notes are not restored. *)
Theorem import_exported_file alloc_ok fresh clock db0 db :
  (forall z, alloc_ok z = true) ->
  (forall k, time_ok (clock k)) ->
  Forall exportable (live db0) ->
  Z.of_nat (length (live db0)) <= MAX_NOTES ->
  exists db',
    import_notes alloc_ok fresh clock false (export_file db0) db
    = Ok (Z.of_nat (length (live db0)), 0, db')
    /\ count db' = Z.of_nat (length (live db0))
    /\ ids db' = seqZ 1 (Z.of_nat (length (live db0)))
    /\ note_strings <$> live db' = trimmed_strings <$> live db0.
Proof.
  intros Ha Hclock Hall Hlen. unfold import_notes, cn_db_init.
  cbn [cn_db_cleanup notes]. rewrite !Ha. cbn [negb].
  fold db_fresh. unfold export_file.
  set (records := concat (map export_record (live db0))).
  rewrite import_loop_header.
  destruct (import_records alloc_ok fresh clock (live db0) Ha Hclock Hall
              (length (export_header ++ records))
              1 0 0 db_fresh store_ok_fresh)
    as (db' & new & Hrun & Hc & Hl & Hids & Hstr).
  - lia.
  - unfold SIZE_MAX, MAX_NOTES in *. lia.
  - lia.
  - unfold SIZE_MAX, MAX_NOTES in *. lia.
  - change (count db_fresh) with 0. lia.
  - change (next_id db_fresh) with 1. unfold UINT_MAX, MAX_NOTES in *. lia.
  - fold records. rewrite length_app, export_header_line, length_app.
    cbn [length]. lia.
  - fold records in Hrun. exists db'. rewrite Hrun.
    change (live db_fresh) with (@nil cn_note) in Hl. cbn [app] in Hl.
    change (count db_fresh) with 0 in Hc.
    change (next_id db_fresh) with 1 in Hids.
    unfold ids. rewrite Hl. split_and!; done.
Qed.

(** ** src/db.c : the path of the snapshot file *)

Lemma cstr_snprintf buf size text :
  0 < size <= Z.of_nat (length buf) -> NUL ∉ text ->
  Z.of_nat (length text) < size ->
  forall out r, snprintf buf size text = (out, r) ->
    cstr out = text /\ length out = length buf /\ r = Z.of_nat (length text).
Proof.
  intros Hs Hn Hl out r. unfold snprintf.
  rewrite (proj2 (Z.eqb_neq _ _)) by lia.
  rewrite Nat.min_l by lia. rewrite firstn_all. intros [= <- <-].
  split; [by apply cstr_app_nul|]. split; [|done].
  rewrite length_app. cbn [length]. rewrite length_drop. lia.
Qed.

Lemma snprintf_length buf size text out r :
  0 < size <= Z.of_nat (length buf) ->
  snprintf buf size text = (out, r) ->
  length out = length buf /\ r = Z.of_nat (length text).
Proof.
  intros Hs. unfold snprintf. rewrite (proj2 (Z.eqb_neq _ _)) by lia.
  intros [= <- <-]. split; [|done].
  rewrite length_app, length_take. cbn [length]. rewrite length_drop. lia.
Qed.

Lemma is_set_Some e :
  is_set e = true -> exists s, e = Some s /\ cstr s <> [].
Proof.
  destruct e as [s|]; [|done]. cbn [is_set]. intros H.
  exists s. split; [done|]. intros Hn. apply cstr_nil_iff in Hn.
  rewrite Hn in H. done.
Qed.

Lemma cstr_strncpy_PATH db_path s :
  Z.of_nat (length db_path) = PATH_MAX -> Z.of_nat (strlen s) < PATH_MAX ->
  cstr (cn_safe_strncpy db_path (Some s) PATH_MAX) = cstr s
  /\ Z.of_nat (length (cn_safe_strncpy db_path (Some s) PATH_MAX)) = PATH_MAX.
Proof.
  intros Hl Hs. split; [by apply cstr_strncpy_fits|].
  unfold cn_safe_strncpy. change (PATH_MAX =? 0) with false. cbv iota.
  by rewrite length_safe_copy.
Qed.

(** What the default path is built from. *)
Lemma build_default_text getenv buf :
  Z.of_nat (length buf) = PATH_MAX ->
  forall ok out, build_default_db_path getenv buf PATH_MAX = (ok, out) ->
    Z.of_nat (length out) = PATH_MAX
    /\ exists text,
         (NUL ∉ text) /\ text <> []
         /\ ok = (Z.of_nat (length text) <? PATH_MAX)
         /\ (ok = true -> cstr out = text)
         /\ text
            = (if is_set (getenv "XDG_DATA_HOME"%string)
               then arg_str (getenv "XDG_DATA_HOME"%string)
                    ++ lit "/cheatnote/cheatnote.db"
               else if is_set (getenv "HOME"%string)
               then arg_str (getenv "HOME"%string)
                    ++ lit "/.local/share/cheatnote/cheatnote.db"
               else lit "cheatnote.db").
Proof.
  intros Hlen ok out. unfold build_default_db_path.
  change (PATH_MAX =? 0) with false. cbv iota.
  assert (forall text, NUL ∉ text -> text <> [] ->
            forall o r, snprintf buf PATH_MAX text = (o, r) ->
              Z.of_nat (length o) = PATH_MAX
              /\ (0 <? r) && (r <? PATH_MAX)
                 = (Z.of_nat (length text) <? PATH_MAX)
              /\ negb (r >=? PATH_MAX) = (Z.of_nat (length text) <? PATH_MAX)
              /\ ((Z.of_nat (length text) <? PATH_MAX) = true
                  -> cstr o = text))
    as Hsn.
  { intros text Hn Hne o r Hs.
    pose proof (snprintf_length buf PATH_MAX text o r
                  ltac:(unfold PATH_MAX in *; lia) Hs)
      as [Hlo ->].
    split; [lia|]. split.
    { destruct text; [done|]. cbn [length].
      rewrite (proj2 (Z.ltb_lt 0 _)) by lia. done. }
    split.
    { rewrite Z.geb_leb. destruct (Z.of_nat (length text) <? PATH_MAX) eqn:E.
      - apply Z.ltb_lt in E. rewrite (proj2 (Z.leb_gt _ _)) by lia. done.
      - apply Z.ltb_ge in E. rewrite (proj2 (Z.leb_le _ _)) by lia. done. }
    intros Hfit. apply Z.ltb_lt in Hfit.
    by destruct (cstr_snprintf buf PATH_MAX text
                   ltac:(unfold PATH_MAX in *; lia) Hn Hfit o _ Hs). }
  assert (forall e tail, (NUL ∉ tail) ->
            is_set e = true -> (NUL ∉ arg_str e ++ tail)
            /\ arg_str e ++ tail <> []) as Hpre.
  { intros e tail Ht He. apply is_set_Some in He as (s & -> & Hs).
    cbn [arg_str]. split.
    - apply not_elem_of_app. split; [apply cstr_no_nul|done].
    - destruct (cstr s); done. }
  assert (forall s : string, NUL ∉ lit s
            <-> Forall (fun c => c <> NUL) (lit s)) as Hlit.
  { intros s. symmetry. apply Forall_ne_not_elem. }
  destruct (is_set (getenv "XDG_DATA_HOME"%string)) eqn:Ex.
  - destruct (snprintf _ _ _) as [o r] eqn:Es. intros [= <- <-].
    change (arg_str (getenv "XDG_DATA_HOME"%string) ++ [PATH_SEP]
            ++ lit "cheatnote" ++ [PATH_SEP] ++ lit "cheatnote.db")
      with (arg_str (getenv "XDG_DATA_HOME"%string)
            ++ lit "/cheatnote/cheatnote.db") in Es.
    destruct (Hpre (getenv "XDG_DATA_HOME"%string)
                (lit "/cheatnote/cheatnote.db")) as [Hn Hne];
      [apply Hlit; repeat constructor; done|done|].
    destruct (Hsn _ Hn Hne _ _ Es) as (H1 & H2 & _ & H4).
    split; [done|]. eexists. split; [exact Hn|]. split; [exact Hne|].
    split; [exact H2|]. split; [|done]. rewrite H2. exact H4.
  - destruct (is_set (getenv "HOME"%string)) eqn:Eh.
    + destruct (snprintf _ _ _) as [o r] eqn:Es. intros [= <- <-].
      change (arg_str (getenv "HOME"%string) ++ [PATH_SEP] ++ lit ".local"
              ++ [PATH_SEP] ++ lit "share" ++ [PATH_SEP] ++ lit "cheatnote"
              ++ [PATH_SEP] ++ lit "cheatnote.db")
        with (arg_str (getenv "HOME"%string)
              ++ lit "/.local/share/cheatnote/cheatnote.db") in Es.
      destruct (Hpre (getenv "HOME"%string)
                  (lit "/.local/share/cheatnote/cheatnote.db")) as [Hn Hne];
        [apply Hlit; repeat constructor; done|done|].
      destruct (Hsn _ Hn Hne _ _ Es) as (H1 & H2 & _ & H4).
      split; [done|]. eexists. split; [exact Hn|]. split; [exact Hne|].
      split; [exact H2|]. split; [|done]. rewrite H2. exact H4.
    + destruct (snprintf _ _ _) as [o r] eqn:Es. intros [= <- <-].
      assert (NUL ∉ lit "cheatnote.db") as Hn
        by (apply Hlit; repeat constructor; done).
      destruct (Hsn _ Hn ltac:(done) _ _ Es) as (H1 & _ & H3 & H4).
      split; [done|]. eexists. split; [exact Hn|]. split; [done|].
      split; [exact H3|]. split; [|done]. rewrite H3. exact H4.
Qed.

(** With nothing cached, [cn_get_db_path] settles on [resolved_path]. *)
Lemma get_db_path_resolved getenv db_path :
  Z.of_nat (length db_path) = PATH_MAX ->
  char_at db_path 0 = NUL ->
  cstr (cn_get_db_path getenv db_path) = resolved_path getenv
  /\ Z.of_nat (length (cn_get_db_path getenv db_path)) = PATH_MAX.
Proof.
  intros Hlen H0. unfold cn_get_db_path, resolved_path.
  rewrite H0. change (negb (is_nul NUL)) with false. cbv iota zeta.
  destruct (is_set (getenv "CHEATNOTE_DB"%string)) eqn:Ee.
  - apply is_set_Some in Ee as (e & -> & He). cbn [arg_str andb].
    rewrite strlen_cstr, length_cstr.
    destruct (Z.of_nat (strlen e) <? PATH_MAX) eqn:Ef.
    { apply Z.ltb_lt in Ef. by apply cstr_strncpy_PATH. }
    destruct (build_default_db_path getenv db_path PATH_MAX) as [ok out] eqn:Eb.
    destruct (build_default_text _ _ Hlen _ _ Eb)
      as (Hlo & text & Hn & Hne & Hok & Hstr & Htext).
    rewrite <- Htext, <- Hok. destruct ok; [by split; [apply Hstr|]|].
    apply cstr_strncpy_PATH; [done|vm_compute; reflexivity].
  - cbn [andb].
    destruct (build_default_db_path getenv db_path PATH_MAX) as [ok out] eqn:Eb.
    destruct (build_default_text _ _ Hlen _ _ Eb)
      as (Hlo & text & Hn & Hne & Hok & Hstr & Htext).
    rewrite <- Htext, <- Hok. destruct ok; [by split; [apply Hstr|]|].
    apply cstr_strncpy_PATH; [done|vm_compute; reflexivity].
Qed.

Lemma resolved_path_valid getenv :
  resolved_path getenv <> []
  /\ Z.of_nat (length (resolved_path getenv)) < PATH_MAX.
Proof.
  unfold resolved_path. cbv zeta.
  assert (lit "cheatnote.db" <> []
          /\ Z.of_nat (length (lit "cheatnote.db")) < PATH_MAX) as Hlocal
    by (split; [done|vm_compute; reflexivity]).
  assert (forall e tail, is_set e = true -> arg_str e ++ tail <> []) as Hne.
  { intros e tail He. apply is_set_Some in He as (s & -> & Hs).
    cbn [arg_str]. destruct (cstr s); done. }
  set (text := if is_set (getenv "XDG_DATA_HOME"%string) then _ else _).
  assert (text <> []) as Htext.
  { subst text. destruct (is_set (getenv "XDG_DATA_HOME"%string)) eqn:Ex;
      [by apply Hne|].
    destruct (is_set (getenv "HOME"%string)) eqn:Eh; [by apply Hne|done]. }
  assert ((if Z.of_nat (length text) <? PATH_MAX then text
           else lit "cheatnote.db") <> []
          /\ Z.of_nat (length (if Z.of_nat (length text) <? PATH_MAX
                               then text else lit "cheatnote.db"))
             < PATH_MAX) as Hdef.
  { destruct (Z.of_nat (length text) <? PATH_MAX) eqn:E; [|done].
    apply Z.ltb_lt in E. done. }
  destruct (is_set (getenv "CHEATNOTE_DB"%string)) eqn:Ee; [|done].
  cbn [andb].
  destruct (Z.of_nat (length (arg_str (getenv "CHEATNOTE_DB"%string)))
            <? PATH_MAX) eqn:Ef; [|done].
  apply Z.ltb_lt in Ef. split; [|done].
  specialize (Hne _ [] Ee). by rewrite app_nil_r in Hne.
Qed.

(** X24: the path of the snapshot file, with nothing cached: the value of
    CHEATNOTE_DB when it is set, not empty and shorter than [PATH_MAX];
    otherwise [$XDG_DATA_HOME/cheatnote/cheatnote.db] when
    XDG_DATA_HOME is set and not empty, otherwise
    [$HOME/.local/share/cheatnote/cheatnote.db] when HOME is; and
    [cheatnote.db] when none is set or the path built does not fit
    (a XDG_DATA_HOME too long does not fall back to HOME).  The path
    is never empty and always shorter than [PATH_MAX]. *)
Theorem cn_get_db_path_resolution getenv db_path :
  Z.of_nat (length db_path) = PATH_MAX ->
  char_at db_path 0 = NUL ->
  cstr (cn_get_db_path getenv db_path) = resolved_path getenv
  /\ resolved_path getenv <> []
  /\ Z.of_nat (length (resolved_path getenv)) < PATH_MAX.
Proof.
  intros Hlen H0. split; [by apply get_db_path_resolved|].
  apply resolved_path_valid.
Qed.

(** X25: the path is computed once: after a first call, a call returns the
    same path whatever the environment has become. *)
Theorem cn_get_db_path_cached getenv getenv' db_path :
  Z.of_nat (length db_path) = PATH_MAX ->
  cn_get_db_path getenv' (cn_get_db_path getenv db_path)
  = cn_get_db_path getenv db_path.
Proof.
  intros Hlen.
  assert (is_nul (char_at (cn_get_db_path getenv db_path) 0) = false) as Hset.
  { destruct (is_nul (char_at db_path 0)) eqn:E.
    - apply is_nul_true in E.
      destruct (get_db_path_resolved getenv db_path Hlen E) as [Hs _].
      destruct (resolved_path_valid getenv) as [Hne _].
      apply is_nul_false. intros Hn. apply cstr_nil_iff in Hn. congruence.
    - unfold cn_get_db_path. rewrite E. exact E. }
  unfold cn_get_db_path at 1. by rewrite Hset.
Qed.

(** X26: a path set by [cn_set_db_path] is the one [cn_get_db_path] returns
    from then on, whatever the environment; a path of [PATH_MAX]
    characters or more is a fatal error; NULL or the empty string
    clear the cache, so that the next call resolves the path anew. *)
Theorem cn_set_db_path_then_get getenv path db_path :
  Z.of_nat (length db_path) = PATH_MAX ->
  match cn_set_db_path path db_path with
  | Fatal _ => PATH_MAX <= Z.of_nat (length (arg_str path))
  | Ok db_path' =>
      cstr (cn_get_db_path getenv db_path')
      = if is_set path then arg_str path else resolved_path getenv
  end.
Proof.
  intros Hlen. unfold cn_set_db_path.
  assert (forall b, Z.of_nat (length b) = PATH_MAX ->
            char_at (<[O := NUL]> b) 0 = NUL
            /\ Z.of_nat (length (<[O := NUL]> b)) = PATH_MAX) as Hclear.
  { intros b Hb. rewrite length_insert. split; [|done].
    destruct b; [simpl in Hb; unfold PATH_MAX in Hb; lia|done]. }
  destruct path as [p|].
  2:{ destruct (Hclear _ Hlen) as [H0 Hl].
      by destruct (get_db_path_resolved getenv _ Hl H0). }
  cbn [is_set arg_str].
  destruct (is_nul (char_at p 0)) eqn:E0.
  { destruct (Hclear _ Hlen) as [H0 Hl]. cbn [negb].
    by destruct (get_db_path_resolved getenv _ Hl H0). }
  cbn [negb]. rewrite Z.geb_leb.
  destruct (PATH_MAX <=? Z.of_nat (strlen p)) eqn:El.
  { apply Z.leb_le in El. by rewrite length_cstr. }
  apply Z.leb_gt in El.
  destruct (cstr_strncpy_PATH db_path p Hlen El) as [Hs Hl].
  unfold cn_get_db_path.
  assert (is_nul (char_at (cn_safe_strncpy db_path (Some p) PATH_MAX) 0)
          = false) as ->; [|done].
  apply is_nul_false. intros Hn. apply cstr_nil_iff in Hn.
  rewrite Hs in Hn. apply cstr_nil_iff in Hn. apply is_nul_false in E0. done.
Qed.

Lemma char_at_strlen s : char_at s (strlen s) = NUL.
Proof.
  induction s as [|c s IH]; [done|]. cbn [strlen].
  destruct (is_nul c) eqn:E; [by apply is_nul_true in E|exact IH].
Qed.

Lemma back_to_sep_spec path p :
  let k := back_to_sep path p in
  (k <= p)%nat
  /\ (k <> O -> is_sep (char_at path k) = true)
  /\ forall i, (k < i <= p)%nat -> is_sep (char_at path i) = false.
Proof.
  induction p as [|p IH]; cbn [back_to_sep].
  - split; [lia|]. split; [done|]. intros i Hi. lia.
  - destruct (is_sep (char_at path (S p))) eqn:E.
    + split; [lia|]. split; [done|]. intros i Hi. lia.
    + destruct IH as (H1 & H2 & H3). split; [lia|]. split; [done|].
      intros i Hi. destruct (decide (i = S p)) as [->|]; [done|].
      apply H3. lia.
Qed.

(** X27: [path_dirname] cuts the path at its last separator, a separator
    in first position not counting: on success the output is a prefix
    of the path, what follows it starts with a separator (when the
    output is not empty) and holds no other; the call fails, without
    writing, exactly when that prefix does not fit the output. *)
Theorem path_dirname_splits path out outdir_sz :
  0 < outdir_sz <= Z.of_nat (length out) ->
  exists dir base,
    cstr path = dir ++ base
    /\ no_sep (tail base)
    /\ (dir <> [] -> is_sep (char_at base 0) = true)
    /\ path_dirname (Some path) (Some out) outdir_sz
       = if Z.of_nat (length dir) <? outdir_sz
         then (1, Some (dir ++ NUL :: drop (S (length dir)) out))
         else (0, Some out).
Proof.
  intros Hsz. unfold path_dirname.
  rewrite (proj2 (Z.eqb_neq _ _)) by lia.
  destruct (back_to_sep_spec path (strlen path)) as (Hk & Hsep & Hno).
  set (k := back_to_sep path (strlen path)) in *.
  exists (take k (cstr path)), (drop k (cstr path)).
  assert (take k (cstr path) = take k path) as Htk.
  { unfold cstr. rewrite take_take. f_equal. lia. }
  assert (length (take k path) = k) as Hlk.
  { rewrite length_take. pose proof (strlen_le path). lia. }
  assert (forall i, (i < strlen path)%nat ->
            cstr path !! i = Some (char_at path i)) as Hat.
  { intros i Hi. unfold cstr, char_at. rewrite lookup_take_lt by done.
    pose proof (strlen_le path).
    destruct (lookup_lt_is_Some_2 path i ltac:(lia)) as [c ->]. done. }
  split; [by rewrite take_drop|]. split; [|split].
  - unfold no_sep. apply Forall_lookup. intros i c Hi.
    assert (drop (S k) (cstr path) !! i = Some c) as Hi'.
    { destruct (drop k (cstr path)) as [|x l] eqn:Ed; [done|].
      cbn [tail] in Hi.
      replace (S k) with (k + 1)%nat by lia.
      rewrite <- drop_drop, Ed. exact Hi. }
    rewrite lookup_drop in Hi'.
    assert (S k + i < strlen path)%nat as Hlt.
    { apply lookup_lt_Some in Hi'. by rewrite length_cstr in Hi'. }
    rewrite Hat in Hi' by done. injection Hi' as <-. apply Hno. lia.
  - intros Hne. assert (k <> O) as Hk0.
    { intros H0. rewrite H0 in Hne. done. }
    assert (k < strlen path)%nat as Hlt.
    { destruct (decide (k = strlen path)) as [He|]; [|lia].
      specialize (Hsep Hk0). rewrite He, char_at_strlen in Hsep. done. }
    unfold char_at at 1. rewrite lookup_drop, Nat.add_0_r, Hat by done.
    by apply Hsep.
  - rewrite Htk, Hlk. destruct (k =? 0)%nat eqn:E0.
    + apply Nat.eqb_eq in E0. rewrite E0.
      rewrite (proj2 (Z.ltb_lt _ _)) by lia. cbn [take app].
      destruct out; [simpl in Hsz; lia|done].
    + rewrite Z.geb_leb.
      destruct (Z.of_nat k <? outdir_sz) eqn:E.
      * apply Z.ltb_lt in E. rewrite (proj2 (Z.leb_gt _ _)) by lia.
        do 2 f_equal.
        replace k with (length (take k path) + 0)%nat at 1 by lia.
        rewrite insert_app_r.
        destruct (drop k out) as [|x l] eqn:Ed.
        { apply (f_equal length) in Ed. rewrite length_drop in Ed.
          simpl in Ed. lia. }
        cbn [insert list_insert]. do 2 f_equal.
        replace (S k) with (k + 1)%nat by lia.
        by rewrite <- drop_drop, Ed.
      * apply Z.ltb_ge in E. rewrite (proj2 (Z.leb_le _ _)) by lia. done.
Qed.

(** X28: with [--merge], under these conditions: the exported notes
    are exportable (title and content not empty, no line break in any
    string, a record that fits the line buffer), the allocator does
    not fail, the clock is in the range of [time_t], the receiving
    store is well formed, has room for the notes
    ([count + n <= MAX_NOTES]) and its id counter does not wrap
    ([next_id + n <= UINT_MAX]); then the import of the exported file
    returns, counts every note as imported and none as an error, and
    adds one note per exported note after the live notes, which it
    leaves as they are; the new notes get the next ids in order and
    the trimmed title, content and tags of the exported notes. *)
Theorem import_merge_appends alloc_ok fresh clock db0 db :
  (forall z, alloc_ok z = true) ->
  (forall k, time_ok (clock k)) ->
  store_ok db ->
  Forall exportable (live db0) ->
  count db + Z.of_nat (length (live db0)) <= MAX_NOTES ->
  next_id db + Z.of_nat (length (live db0)) <= UINT_MAX ->
  exists db' new,
    import_notes alloc_ok fresh clock true (export_file db0) db
    = Ok (Z.of_nat (length (live db0)), 0, db')
    /\ live db' = live db ++ new
    /\ id <$> new = seqZ (next_id db) (Z.of_nat (length (live db0)))
    /\ note_strings <$> new = trimmed_strings <$> live db0.
Proof.
  intros Ha Hclock Hok Hall Hcnt Hnid. unfold import_notes.
  rewrite Ha. cbn [negb]. unfold export_file.
  set (records := concat (map export_record (live db0))).
  rewrite import_loop_header.
  pose proof Hok as ((Hwf & _) & _). destruct Hwf as (_ & Hc & _).
  destruct (import_records alloc_ok fresh clock (live db0) Ha Hclock Hall
              (length (export_header ++ records)) 1 0 0 db Hok)
    as (db' & new & Hrun & _ & Hl & Hids & Hstr).
  - lia.
  - unfold SIZE_MAX, MAX_NOTES in *. lia.
  - lia.
  - unfold SIZE_MAX, MAX_NOTES in *. lia.
  - exact Hcnt.
  - exact Hnid.
  - fold records. rewrite length_app, export_header_line, length_app.
    cbn [length]. lia.
  - fold records in Hrun. exists db', new. rewrite Hrun. done.
Qed.

(** ** The further properties on concrete inputs *)

Lemma note_ok_example : note_ok example_note.
Proof.
  unfold note_ok, buf_ok, time_ok. vm_compute.
  split_and!; first [reflexivity | congruence].
Qed.

Lemma example_ops_time_ok : Forall op_time_ok example_ops.
Proof.
  unfold example_ops.
  repeat (apply Forall_cons; split;
          [cbn [op_time_ok]; unfold time_ok; try exact I; lia|]).
  constructor.
Qed.

Lemma example_adds_valid : Forall valid_add example_adds.
Proof.
  unfold example_adds.
  repeat (apply Forall_cons; split;
          [cbn [valid_add valid_text fits]; unfold time_ok;
           split_and!; first [exact I | done | vm_compute; reflexivity | lia]|]).
  constructor.
Qed.

Lemma exportable_example : Forall exportable (live example_store).
Proof.
  apply Forall_cons. split; [|constructor].
  unfold exportable. split; [exact note_ok_example|].
  split_and!.
  - vm_compute. congruence.
  - vm_compute. congruence.
  - apply Forall_ne_not_elem. vm_compute. repeat constructor; congruence.
  - apply Forall_ne_not_elem. vm_compute. repeat constructor; congruence.
  - apply Forall_ne_not_elem. vm_compute. repeat constructor; congruence.
  - vm_compute. reflexivity.
Qed.

(** Copying six characters into four bytes. *)
Lemma cn_safe_strncpy_string_witness :
  cstr (cn_safe_strncpy (lit "xxxx") (Some (lit "abcdef")) 4) = lit "abc".
Proof.
  destruct (cn_safe_strncpy_string (lit "xxxx") (lit "abcdef") 4
              eq_refl ltac:(lia)) as (_ & H & _).
  exact H.
Defined.

(** Trimming a buffer that holds [" a b "]. *)
Lemma cn_strip_whitespace_trims_witness :
  length (cn_strip_whitespace (lit " a b " ++ [NUL]))
  = length (lit " a b " ++ [NUL])
  /\ (forall c,
        head (cstr (cn_strip_whitespace (lit " a b " ++ [NUL]))) = Some c ->
        isspace c = false).
Proof.
  assert (NUL ∈ lit " a b " ++ [NUL]) as Hin
    by (apply elem_of_app; right; left).
  destruct (cn_strip_whitespace_trims (lit " a b " ++ [NUL]) Hin)
    as (H1 & _ & H2 & _).
  split; [exact H1|exact H2].
Defined.

Lemma cn_strip_whitespace_idempotent_witness :
  cn_strip_whitespace (cn_strip_whitespace (lit " a b " ++ [NUL]))
  = cn_strip_whitespace (lit " a b " ++ [NUL]).
Proof.
  apply cn_strip_whitespace_idempotent. apply elem_of_app. right. left.
Defined.

(** The example run keeps the store well formed. *)
Lemma store_stays_well_formed_witness :
  match run always zero_note example_ops db_fresh with
  | Ok db' => store_ok db'
  | Fatal _ => True
  end.
Proof.
  apply (store_stays_well_formed always zero_note example_ops db_fresh).
  - exact store_ok_fresh.
  - exact example_ops_time_ok.
Defined.

(** The first add to the fresh store. *)
Lemma cn_note_add_stores_witness :
  exists db' n,
    cn_note_add always zero_note (Some (lit " ls ")) (Some (lit "ls -la"))
      None 101 db_fresh = Ok (1, db')
    /\ live db' = [n] /\ note_strings n = (lit "ls", lit "ls -la", []).
Proof.
  destruct (cn_note_add_stores always zero_note (Some (lit " ls "))
              (Some (lit "ls -la")) None 101 db_fresh store_ok_fresh)
    as (db' & n & H1 & H2 & _ & _ & _ & H3 & _).
  - intros z. reflexivity.
  - split; [done|vm_compute; reflexivity].
  - split; [done|vm_compute; reflexivity].
  - exact I.
  - vm_compute. reflexivity.
  - exists db', n. split; [exact H1|]. split; [exact H2|exact H3].
Defined.

(** An add without a title. *)
Lemma cn_note_add_rejects_witness :
  cn_note_add always zero_note None (Some (lit "x")) None 0 db_fresh
  = Ok (0, db_fresh).
Proof.
  apply cn_note_add_rejects. left. intros H. exact H.
Defined.

(** Editing and deleting the id 0. *)
Lemma crud_missing_id_witness :
  cn_note_edit 0 (Some (lit "t")) None None 5 store_one = (0, store_one)
  /\ cn_note_delete 0 store_one = (0, store_one).
Proof. apply crud_missing_id. left. reflexivity. Defined.

(** Adding to the empty store, then deleting the note. *)
Lemma add_then_delete_witness :
  let (r2, db2) := cn_note_delete 1 store_one in
  r2 = 1 /\ live db2 = live db_zero /\ count db2 = count db_zero
  /\ next_id db2 = next_id store_one.
Proof.
  apply (add_then_delete always zero_note (Some (lit "old title"))
           (Some (lit "body")) (Some (lit "t")) 100 db_zero 1 store_one).
  - exact wf_db_zero.
  - vm_compute. reflexivity.
  - lia.
  - apply not_elem_of_nil.
Defined.

(** Editing the title and clearing the tags of the example note. *)
Lemma cn_note_edit_applies_witness :
  let (r, db') :=
    cn_note_edit 1 (Some (lit " new ")) None (Some (lit "")) 7 example_store in
  r = 1
  /\ note_strings (slot (arr_of db') 0) = (lit "new", lit "git status -s", []).
Proof.
  assert (1 <> 0) as Hk by lia.
  pose proof (cn_note_edit_applies 1 (Some (lit " new ")) None
                (Some (lit "")) 7 example_store O Hk eq_refl note_ok_example)
    as H.
  cbv zeta in H.
  destruct (cn_note_edit 1 (Some (lit " new ")) None (Some (lit "")) 7
              example_store) as [r db'].
  destruct H as (H1 & _ & _ & _ & H2 & _).
  - vm_compute. reflexivity.
  - exact I.
  - vm_compute. reflexivity.
  - split; [exact H1|exact H2].
Defined.

(** Two adds to the fresh store. *)
Lemma adds_from_fresh_witness :
  exists db,
    run always zero_note example_adds db_fresh = Ok db
    /\ ids db = [1; 2]
    /\ note_strings <$> live db
       = [(lit "ls", lit "ls -la", []); (lit "pwd", lit "pwd", lit "shell")].
Proof.
  destruct (adds_from_fresh always zero_note example_adds)
    as (db & H1 & _ & H2 & H3).
  - intros z. reflexivity.
  - exact example_adds_valid.
  - vm_compute. congruence.
  - exists db. split; [exact H1|]. split; [exact H2|exact H3].
Defined.


(** Load the emptied snapshot, do the example run, save, load again. *)
Lemma session_round_trip_witness :
  match cn_db_load always example_path fs_emptied db_zero with
  | Fatal _ => True
  | Ok loaded =>
      match run always zero_note example_ops loaded with
      | Fatal _ => True
      | Ok db =>
          let (fs', r) :=
           cn_db_save io_all_ok (fun _ => 0) example_path ∅ db in
          r = Ok tt
          /\ exists db',
               cn_db_load always example_path fs' db_zero = Ok db'
               /\ count db' = count db
               /\ next_id db' = next_id db
               /\ live db' = live db
      end
  end.
Proof.
  apply (session_round_trip always zero_note always (fun _ => 0)
           example_ops example_path fs_emptied db_zero example_path ∅
           db_zero).
  - reflexivity.
  - reflexivity.
  - exact example_ops_time_ok.
  - vm_compute. congruence.
  - vm_compute. reflexivity.
  - intros z. reflexivity.
Defined.

(** The snapshot of the fresh store is its header. *)
Lemma snapshot_layout_witness :
  Z.of_nat (length (snapshot_bytes (fun _ => 0) db_fresh)) = 12.
Proof.
  destruct (snapshot_layout (fun _ => 0) db_fresh snap_inv_fresh) as [H _].
  exact H.
Defined.

(** The exact search for the content of the example note. *)
Lemma cn_note_match_content_literal_witness :
  cn_note_match_content always literal_engine (Some example_note)
    (Some example_opts) = true.
Proof.
  apply (cn_note_match_content_literal always literal_engine example_note
           example_opts (lit "git status -s")).
  - intros z. reflexivity.
  - exact note_ok_example.
  - reflexivity.
  - vm_compute. congruence.
  - reflexivity.
  - intros H. discriminate H.
  - exists (lit "git status -s"). split; [|reflexivity].
    right. left.
Defined.

Lemma exact_match_is_substring_match_witness :
  cn_note_match_content always literal_engine (Some example_note)
    (Some (set_exact_match example_opts false)) = true.
Proof.
  apply exact_match_is_substring_match.
  - reflexivity.
  - vm_compute. reflexivity.
Defined.

Lemma case_insensitive_keeps_matches_witness :
  cn_note_match_content always literal_engine (Some example_note)
    (Some (set_case_insensitive example_opts true)) = true.
Proof.
  apply (case_insensitive_keeps_matches always literal_engine example_note
           example_opts (lit "git status -s")).
  - intros z. reflexivity.
  - exact note_ok_example.
  - reflexivity.
  - vm_compute. congruence.
  - reflexivity.
  - vm_compute. reflexivity.
Defined.

(** A regex search for a word of the example note. *)
Lemma cn_note_match_content_regex_witness :
  cn_note_match_content always literal_engine (Some example_note)
    (Some (mk_opts (Some (lit "status")) None false true false false false))
  = true.
Proof.
  rewrite (cn_note_match_content_regex always literal_engine example_note
             (mk_opts (Some (lit "status")) None false true false false false)
             (lit "status")).
  - vm_compute. reflexivity.
  - intros z. reflexivity.
  - reflexivity.
  - vm_compute. congruence.
  - reflexivity.
  - vm_compute. congruence.
Defined.

Lemma cn_note_match_tags_ignores_case_witness :
  cn_note_match_tags always (Some (lit "Git,Shell")) (Some (lit "SHELL"))
  = cn_note_match_tags always (Some (lit "git,shell")) (Some (lit "shell")).
Proof. apply cn_note_match_tags_ignores_case; reflexivity. Defined.

Lemma cn_note_match_tags_more_tags_witness :
  cn_note_match_tags always (Some (lit "git" ++ lit ",shell"))
    (Some (lit "git")) = true.
Proof.
  apply cn_note_match_tags_more_tags.
  - intros z. reflexivity.
  - vm_compute. reflexivity.
  - vm_compute. reflexivity.
Defined.

(** Parsing a field of five characters into four bytes. *)
Lemma cn_parse_csv_field_safe_witness :
  exists p' out',
    cn_parse_csv_field (Some (lit "abcde,f")) (Some (lit "xxxxxx")) 4
    = (1, Some p', Some out')
    /\ Z.of_nat (strlen out') < 4
    /\ drop 4 out' = lit "xx".
Proof.
  destruct (cn_parse_csv_field_safe (lit "abcde,f") (lit "xxxxxx") 4)
    as (p' & out' & H1 & _ & _ & H2 & H3).
  - vm_compute. split; congruence.
  - exists p', out'. split; [exact H1|]. split; [exact H2|exact H3].
Defined.

(** Reading back a field that holds a quote and a comma. *)
Lemma csv_field_round_trip_witness :
  exists out',
    cn_parse_csv_field
      (Some (csv_quoted (DQUOTE :: lit "a,b") ++ lit "," ++ lit " 12"))
      (Some (replicate 8 NUL)) 8
    = (1, Some (lit "12"), Some out')
    /\ cstr out' = DQUOTE :: lit "a,b".
Proof.
  destruct (csv_field_round_trip (DQUOTE :: lit "a,b") (lit " 12")
              (replicate 8 NUL) 8)
    as (out' & H1 & H2 & _).
  - vm_compute. split; congruence.
  - exists out'. split; [exact H1|exact H2].
Defined.

(** Exporting the store with the example note and importing the file. *)
Lemma import_exported_file_witness :
  exists db',
    import_notes always zero_note (fun _ => 0) false
      (export_file example_store) db_zero = Ok (1, 0, db')
    /\ ids db' = [1]
    /\ note_strings <$> live db'
       = [(lit "Git status", lit "git status -s", lit "git,status")].
Proof.
  destruct (import_exported_file always zero_note (fun _ => 0)
              example_store db_zero)
    as (db' & H1 & _ & H2 & H3).
  - intros z. reflexivity.
  - intros k. unfold time_ok. lia.
  - exact exportable_example.
  - vm_compute. congruence.
  - exists db'. split; [exact H1|]. split; [exact H2|exact H3].
Defined.

(** The path with only HOME set. *)
Lemma cn_get_db_path_resolution_witness :
  cstr (cn_get_db_path example_env (replicate (Z.to_nat PATH_MAX) NUL))
  = lit "/home/u/.local/share/cheatnote/cheatnote.db".
Proof.
  destruct (cn_get_db_path_resolution example_env
              (replicate (Z.to_nat PATH_MAX) NUL)) as (H & _).
  - vm_compute. reflexivity.
  - reflexivity.
  - exact H.
Defined.

Lemma cn_get_db_path_cached_witness :
  cn_get_db_path (fun _ => None)
    (cn_get_db_path example_env (replicate (Z.to_nat PATH_MAX) NUL))
  = cn_get_db_path example_env (replicate (Z.to_nat PATH_MAX) NUL).
Proof. apply cn_get_db_path_cached. vm_compute. reflexivity. Defined.

Lemma cn_set_db_path_then_get_witness :
  match cn_set_db_path (Some (lit "notes.db"))
          (replicate (Z.to_nat PATH_MAX) NUL) with
  | Fatal _ => False
  | Ok db_path' => cstr (cn_get_db_path example_env db_path') = lit "notes.db"
  end.
Proof.
  pose proof (cn_set_db_path_then_get example_env (Some (lit "notes.db"))
                (replicate (Z.to_nat PATH_MAX) NUL)) as H.
  destruct (cn_set_db_path (Some (lit "notes.db"))
              (replicate (Z.to_nat PATH_MAX) NUL)) as [p|m] eqn:E.
  - apply H. vm_compute. reflexivity.
  - vm_compute in E. discriminate E.
Defined.

(** The directory of [/tmp/x/notes.db]. *)
Lemma path_dirname_splits_witness :
  exists dir base,
    lit "/tmp/x/notes.db" = dir ++ base
    /\ no_sep (tail base)
    /\ path_dirname (Some (lit "/tmp/x/notes.db")) (Some (replicate 16 NUL)) 16
       = if Z.of_nat (length dir) <? 16
         then (1, Some (dir ++ NUL :: drop (S (length dir)) (replicate 16 NUL)))
         else (0, Some (replicate 16 NUL)).
Proof.
  destruct (path_dirname_splits (lit "/tmp/x/notes.db") (replicate 16 NUL) 16)
    as (dir & base & H1 & H2 & _ & H3).
  - vm_compute. split; congruence.
  - exists dir, base. split; [exact H1|]. split; [exact H2|exact H3].
Defined.



(** Importing the exported example note into the fresh store. *)
Lemma import_merge_appends_witness :
  exists db' new,
    import_notes always zero_note (fun _ => 0) true
      (export_file example_store) db_fresh = Ok (1, 0, db')
    /\ live db' = new
    /\ note_strings <$> new
       = [(lit "Git status", lit "git status -s", lit "git,status")].
Proof.
  destruct (import_merge_appends always zero_note (fun _ => 0)
              example_store db_fresh)
    as (db' & new & H1 & H2 & _ & H3).
  - intros z. reflexivity.
  - intros k. unfold time_ok. lia.
  - exact store_ok_fresh.
  - exact exportable_example.
  - vm_compute. congruence.
  - vm_compute. congruence.
  - exists db', new. split; [exact H1|]. split; [exact H2|exact H3].
Defined.
